(** * Volume bot: gateway, order cycle and engine controller

    A shallow embedding of the execution engine of the MEXC volume bot:

    - [mexc_api_client.py]  : [MexcApiClient] (the request gateway with its
      retry counter, and the API methods built on it);
    - [trading_logic.py]    : [TradingBot] ([start], [stop],
      [_check_balances], [_decide_price]);
    - [trading_execution.py]: [execute_trade], [check_and_cancel_order],
      [trading_loop].

    Python code runs in a state-and-exception monad over a [World] that
    holds the mutable attributes of the client and of the bot, the [config]
    module, and the oracles that stand for the outside: what the exchange
    answers, what [random] draws, and when another thread calls [stop()].
    Every run also yields the list of events it produced, in order.

    The numbers that come from the exchange are idealised as rationals
    ([Q]); the settings, which the chat commands can set to any float, are
    Python floats ([PyFloat]): a rational or one of [inf], [-inf], [nan].
    Timestamps, log lines, the HMAC signature and the thread lock are left
    out. *)

From Stdlib Require Import Ascii String ZArith QArith Qround Lqa Lia List Bool Sorted.
From stdpp Require Import gmap strings sorting.
Import ListNotations.
Close Scope Q_scope.
Open Scope string_scope.
Open Scope list_scope.
Set Warnings "-register-all".

(* ================================================================= *)
(** ** Python values, exceptions and results *)

(** A decoded JSON document, as [response.json()] returns it.  An object
    keeps its fields as an association list; [None] is [JNull]. *)
Inductive Json : Type :=
| JNull
| JBool (b : bool)
| JNum (q : Q)
| JStr (s : string)
| JArr (items : list Json)
| JObj (fields : list (string * Json)).

(** What [_handle_request] puts in the message of the exception it
    raises for an answer that is not a 200: the body of the answer,
    decoded, or, for an empty body, a dict that names the status. *)
Inductive ErrorData : Type :=
| ErrBody (j : Json)          (* response.json() *)
| ErrStatus (status : Z).     (* {"error": f"HTTP ... {status_code}"} *)

(** The exceptions that the modelled code can meet.  [RequestException]
    stands for the connection errors and timeouts of [requests];
    [JSONDecodeError] is what [response.json()] raises on a body that is
    not JSON (in [requests] it derives from [RequestException]);
    [ApiError] and [RequestFailed] are the two plain [Exception]s that
    [_handle_request] raises itself, the first with [error_data] in its
    message; [RecursionError] is what the interpreter raises when the
    call stack is used up. *)
Inductive Exn : Type :=
| RequestException
| JSONDecodeError
| ApiError (error_data : ErrorData)
| RequestFailed
| ValueError
| TypeError
| AttributeError
| KeyError
| IndexError
| RecursionError.

Inductive Res (A : Type) : Type :=
| Ok (a : A)
| Raise (e : Exn).
Arguments Ok {A} a.
Arguments Raise {A} e.

(** [except requests.exceptions.RequestException] *)
Definition is_request_exception (e : Exn) : bool :=
  match e with
  | RequestException | JSONDecodeError => true
  | _ => false
  end.

Definition Qlt_bool (x y : Q) : bool := negb (Qle_bool y x).

(** [min(a, b)] and [max(a, b)]: the first argument wins a tie. *)
Definition py_min (a b : Q) : Q := if Qlt_bool b a then b else a.
Definition py_max (a b : Q) : Q := if Qlt_bool a b then b else a.

(** [round(x)] to the nearest integer, ties to the even one. *)
Definition round_half_even (x : Q) : Z :=
  let f := Qfloor x in
  match ((x - inject_Z f) ?= (1 # 2))%Q with
  | Lt => f
  | Gt => (f + 1)%Z
  | Eq => if Z.even f then f else (f + 1)%Z
  end.

Definition pow10 (n : nat) : Q := inject_Z (10 ^ Z.of_nat n).

(** [round(x, ndigits)] *)
Definition py_round (x : Q) (ndigits : nat) : Q :=
  (inject_Z (round_half_even (x * pow10 ndigits)) / pow10 ndigits)%Q.

(** *** Floats

    A Python float: a finite value, idealised as a rational, or one of
    the three specials. *)
Inductive PyFloat : Type :=
| Finite (q : Q)
| PlusInf
| MinusInf
| NaN.

(** [a < b] and [a <= b]: every comparison with [nan] is false. *)
Definition fl_ltb (a b : PyFloat) : bool :=
  match a, b with
  | NaN, _ | _, NaN => false
  | Finite x, Finite y => Qlt_bool x y
  | MinusInf, MinusInf => false
  | MinusInf, _ => true
  | Finite _, PlusInf => true
  | _, _ => false
  end.

Definition fl_leb (a b : PyFloat) : bool :=
  match a, b with
  | NaN, _ | _, NaN => false
  | Finite x, Finite y => Qle_bool x y
  | MinusInf, _ => true
  | _, PlusInf => true
  | _, _ => false
  end.

Arguments fl_ltb !a !b /.
Arguments fl_leb !a !b /.

(** [min(a, b)] and [max(a, b)] on floats: the second argument is taken
    only when it compares under, or over, the first. *)
Definition fl_min (a b : PyFloat) : PyFloat := if fl_ltb b a then b else a.
Definition fl_max (a b : PyFloat) : PyFloat := if fl_ltb a b then b else a.

(** The least magnitude that a sum of two doubles rounds to infinity:
    halfway between the largest double and [2^1024]. *)
Definition FLOAT_OVERFLOW : Q := inject_Z (2 ^ 1024 - 2 ^ 970).

(** The float that a sum of exact value [s] comes to: the rounding of a
    finite result is left out, the overflow is not. *)
Definition fl_of_sum (s : Q) : PyFloat :=
  if Qle_bool FLOAT_OVERFLOW s then PlusInf
  else if Qle_bool s (- FLOAT_OVERFLOW) then MinusInf
  else Finite s.

(** [a + b] *)
Definition fl_add (a b : PyFloat) : PyFloat :=
  match a, b with
  | NaN, _ | _, NaN => NaN
  | Finite x, Finite y => fl_of_sum (x + y)
  | PlusInf, MinusInf | MinusInf, PlusInf => NaN
  | PlusInf, _ | _, PlusInf => PlusInf
  | MinusInf, _ | _, MinusInf => MinusInf
  end.

Arguments fl_add !a !b /.

(** [a / 2] *)
Definition fl_half (a : PyFloat) : PyFloat :=
  match a with
  | Finite x => Finite (x / 2)
  | special => special
  end.

(** [round(a, ndigits)]: a special comes back as it is. *)
Definition fl_round (a : PyFloat) (ndigits : nat) : PyFloat :=
  match a with
  | Finite x => Finite (py_round x ndigits)
  | special => special
  end.

(** *** Decimal numerals

    [float(s)] on a string: an optional sign, digits, and an optional
    fraction.  Other spellings that Python accepts (exponents, blanks,
    [inf], [nan]) have no rational value here and are rejected. *)
Definition digit_of (c : ascii) : option Z :=
  let n := Z.of_nat (nat_of_ascii c) in
  if ((48 <=? n) && (n <=? 57))%Z then Some (n - 48)%Z else None.

Fixpoint parse_frac (s : string) (acc : Z) (scale : positive) : option Q :=
  match s with
  | EmptyString => Some (acc # scale)%Q
  | String c rest =>
      match digit_of c with
      | Some d => parse_frac rest (acc * 10 + d)%Z (scale * 10)%positive
      | None => None
      end
  end.

Fixpoint parse_int (s : string) (acc : Z) (seen : bool) : option Q :=
  match s with
  | EmptyString => if seen then Some (inject_Z acc) else None
  | String c rest =>
      if Ascii.eqb c "."%char then
        match rest with
        | EmptyString => if seen then Some (inject_Z acc) else None
        | _ => parse_frac rest acc 1%positive
        end
      else
        match digit_of c with
        | Some d => parse_int rest (acc * 10 + d)%Z true
        | None => None
        end
  end.

Definition parse_float (s : string) : option Q :=
  match s with
  | String "-"%char rest => option_map Qopp (parse_int rest 0%Z false)
  | String "+"%char rest => parse_int rest 0%Z false
  | _ => parse_int s 0%Z false
  end.

(** [float(v)] *)
Definition py_float (v : Json) : Res Q :=
  match v with
  | JNum q => Ok q
  | JBool b => Ok (if b then 1%Q else 0%Q)
  | JStr s => match parse_float s with Some q => Ok q | None => Raise ValueError end
  | JNull | JArr _ | JObj _ => Raise TypeError
  end.

(** Truth value of [v] in [if v:] *)
Definition truthy (v : Json) : bool :=
  match v with
  | JNull => false
  | JBool b => b
  | JNum q => negb (Qeq_bool q 0)
  | JStr s => negb (String.eqb s "")
  | JArr items => match items with [] => false | _ => true end
  | JObj fields => match fields with [] => false | _ => true end
  end.

Fixpoint assoc (k : string) (fields : list (string * Json)) : option Json :=
  match fields with
  | [] => None
  | (k', v) :: rest => if String.eqb k k' then Some v else assoc k rest
  end.

(** [d.get(k, default)]: only a dict has [get]. *)
Definition dict_get (d : Json) (k : string) (default : Json) : Res Json :=
  match d with
  | JObj fields => Ok (match assoc k fields with Some v => v | None => default end)
  | _ => Raise AttributeError
  end.

(** [v[i]] for a non-negative index [i] *)
Definition py_index (v : Json) (i : nat) : Res Json :=
  match v with
  | JArr items => match nth_error items i with Some x => Ok x | None => Raise IndexError end
  | JStr s => match String.get i s with
              | Some c => Ok (JStr (String c EmptyString))
              | None => Raise IndexError
              end
  | JObj _ => Raise KeyError
  | JNull | JBool _ | JNum _ => Raise TypeError
  end.

(** [d[k]] for a string key [k] *)
Definition py_item (d : Json) (k : string) : Res Json :=
  match d with
  | JObj fields => match assoc k fields with Some v => Ok v | None => Raise KeyError end
  | _ => Raise TypeError
  end.

(** The elements that [for x in v] visits *)
Definition py_iter (v : Json) : Res (list Json) :=
  match v with
  | JArr items => Ok items
  | JObj fields => Ok (map (fun kv => JStr (fst kv)) fields)
  | JStr s => Ok (map (fun c => JStr (String c EmptyString)) (list_ascii_of_string s))
  | JNull | JBool _ | JNum _ => Raise TypeError
  end.

(** [v == 'text'] *)
Definition eq_str (v : Json) (text : string) : bool :=
  match v with
  | JStr s => String.eqb s text
  | _ => false
  end.

(* ================================================================= *)
(** ** The [config] module *)

(** The settings of [config.py] that the engine reads and the chat
    commands rewrite while the bot runs.  (The amount command writes
    [TRADE_AMOUNT_USDT], which the engine does not read; it is kept with
    the chat handlers.) *)
Record Config : Type := mkConfig {
  MIN_PRICE : PyFloat;
  MAX_PRICE : PyFloat;
  MIN_INTERVAL : Z;
  MAX_INTERVAL : Z;
  MIN_USDT_BALANCE : PyFloat;
  MIN_TOKEN_BALANCE : PyFloat
}.

(** Constants of [config.py] that nothing reassigns. *)
Definition SYMBOL : string := "CREPE_USDT".
Definition TOKEN_NAME : string := "CREPE".
Definition QUOTE_CURRENCY : string := "USDT".
Definition MAX_RETRIES : nat := 3.

(** The values of [config.py] as shipped. *)
Definition default_config : Config :=
  {| MIN_PRICE := Finite 10; MAX_PRICE := Finite 12;
     MIN_INTERVAL := 30; MAX_INTERVAL := 50;
     MIN_USDT_BALANCE := Finite 100; MIN_TOKEN_BALANCE := Finite 500 |}.

(* ================================================================= *)
(** ** The outside world and the events of a run *)

Inductive Method : Type := GET | POST | DELETE | OtherMethod.

(** What one HTTP exchange comes to: [requests] raises, or a response
    arrives.  [BodyEmpty] is an empty [response.text]; [BodyText] is text
    that is not JSON. *)
Inductive Body : Type :=
| BodyEmpty
| BodyText
| BodyJson (j : Json).

Record Response : Type := mkResponse {
  status_code : Z;
  body : Body
}.

Inductive Exchange : Type :=
| Failed                      (* connection error or timeout *)
| Answered (response : Response).

Inductive Side : Type := BUY | SELL.
Inductive OrderType : Type := LIMIT | MARKET.

(** The calls of [MexcApiClient] that the engine makes. *)
Inductive ApiCall : Type :=
| CallAccount
| CallDepth (symbol : string) (limit : Z)
| CallCreateOrder (symbol : string) (side : Side) (order_type : OrderType)
                  (quantity : Q) (price : option Q)
| CallCancelOrder (symbol : string) (order_id : Json)
| CallCancelAll (symbol : string)
| CallOrderStatus (symbol : string) (order_id : Json).

(** The values of the dict [trade_data] that [execute_trade] builds for
    [db_manager.save_trade]. *)
Record TradeData : Type := mkTradeData {
  td_price : Q;
  td_quantity : Q;
  td_filled_quantity : Q;
  td_filled_percent : Q;
  td_buy_order_id : Json;
  td_sell_order_id : Json;
  td_buy_filled : bool;
  td_sell_filled : bool
}.

(** The messages handed to [telegram_sender]. *)
Inductive Notice : Type :=
| MsgBalanceLowStop          (* execute_trade: balance under the floor *)
| MsgBalanceLowStart         (* start: balance under the floor *)
| MsgStarted
| MsgStopped
| MsgTradeError (e : Exn).

Inductive Event : Type :=
| EvHttp (m : Method) (endpoint : string) (params : list (string * Json))
         (signed : bool) (x : Exchange)
| EvSleep (seconds : Z)
| EvApi (c : ApiCall) (r : Res Json)
| EvNotify (n : Notice)
| EvSpawnWorker.

(** The state that the code reads and writes, and the oracles for what
    it cannot decide: [net n] is what the [n]-th HTTP exchange comes to,
    [rnd n] is the [n]-th value of [random.random()], and [stop_lands n]
    tells whether another thread completes [stop()] while this one is in
    its [n]-th [time.sleep].  [buy_order_id] and [sell_order_id] are the
    two locals of [execute_trade] that its [except] clause reads. *)
Record World : Type := mkWorld {
  net : nat -> Exchange;
  rnd : nat -> Q;
  stop_lands : nat -> bool;
  sent : nat;
  drawn : nat;
  slept : nat;
  retry_count : nat;          (* MexcApiClient.retry_count *)
  max_retries : nat;          (* MexcApiClient.max_retries *)
  running : bool;             (* TradingBot.running *)
  trade_count : nat;          (* TradingBot.trade_count *)
  telegram_sender : bool;     (* is a sender attached? *)
  buy_order_id : Json;        (* local of execute_trade *)
  sell_order_id : Json;       (* local of execute_trade *)
  cfg : Config
}.

Definition set_sent (n : nat) (w : World) : World :=
  mkWorld (net w) (rnd w) (stop_lands w)
          n (drawn w) (slept w) (retry_count w) (max_retries w)
          (running w) (trade_count w) (telegram_sender w) (buy_order_id w) (sell_order_id w) (cfg w).
Definition set_drawn (n : nat) (w : World) : World :=
  mkWorld (net w) (rnd w) (stop_lands w)
          (sent w) n (slept w) (retry_count w) (max_retries w)
          (running w) (trade_count w) (telegram_sender w) (buy_order_id w) (sell_order_id w) (cfg w).
Definition set_slept (n : nat) (w : World) : World :=
  mkWorld (net w) (rnd w) (stop_lands w)
          (sent w) (drawn w) n (retry_count w) (max_retries w)
          (running w) (trade_count w) (telegram_sender w) (buy_order_id w) (sell_order_id w) (cfg w).
Definition set_retry_count (n : nat) (w : World) : World :=
  mkWorld (net w) (rnd w) (stop_lands w)
          (sent w) (drawn w) (slept w) n (max_retries w)
          (running w) (trade_count w) (telegram_sender w) (buy_order_id w) (sell_order_id w) (cfg w).
Definition set_running (b : bool) (w : World) : World :=
  mkWorld (net w) (rnd w) (stop_lands w)
          (sent w) (drawn w) (slept w) (retry_count w) (max_retries w)
          b (trade_count w) (telegram_sender w) (buy_order_id w) (sell_order_id w) (cfg w).
Definition set_buy_order_id (v : Json) (w : World) : World :=
  mkWorld (net w) (rnd w) (stop_lands w)
          (sent w) (drawn w) (slept w) (retry_count w) (max_retries w)
          (running w) (trade_count w) (telegram_sender w) v (sell_order_id w) (cfg w).
Definition set_sell_order_id (v : Json) (w : World) : World :=
  mkWorld (net w) (rnd w) (stop_lands w)
          (sent w) (drawn w) (slept w) (retry_count w) (max_retries w)
          (running w) (trade_count w) (telegram_sender w) (buy_order_id w) v (cfg w).

(* ================================================================= *)
(** ** The monad of Python code *)

Definition Run (A : Type) : Type := (Res A * World * list Event)%type.
Definition M (A : Type) : Type := World -> Run A.

Definition result {A} (r : Run A) : Res A := fst (fst r).
Definition final {A} (r : Run A) : World := snd (fst r).
Definition events {A} (r : Run A) : list Event := snd r.
Arguments result {A} !r /.
Arguments final {A} !r /.
Arguments events {A} !r /.

Definition ret {A} (a : A) : M A := fun w => (Ok a, w, []).
Definition raise {A} (e : Exn) : M A := fun w => (Raise e, w, []).

Definition bind {A B} (c : M A) (k : A -> M B) : M B :=
  fun w =>
    match c w with
    | (Ok a, w1, t1) =>
        match k a w1 with
        | (r, w2, t2) => (r, w2, t1 ++ t2)
        end
    | (Raise e, w1, t1) => (Raise e, w1, t1)
    end.

Notation "'let*' x ':=' c 'in' k" := (bind c (fun x => k))
  (at level 10, x pattern, c at level 100, k at level 200).
Notation "c ';;' k" := (bind c (fun _ => k))
  (at level 100, k at level 200, right associativity).

(** [try: c  except <caught>: h] *)
Definition try_except {A} (c : M A) (caught : Exn -> bool) (h : Exn -> M A) : M A :=
  fun w =>
    match c w with
    | (Raise e, w1, t1) =>
        if caught e then
          match h e w1 with
          | (r, w2, t2) => (r, w2, t1 ++ t2)
          end
        else (Raise e, w1, t1)
    | ok => ok
    end.

(** [except Exception] and the bare [except] *)
Definition any_exception (e : Exn) : bool := true.

(** [try: c  finally: f] *)
Definition try_finally {A} (c : M A) (f : M unit) : M A :=
  fun w =>
    match c w with
    | (r, w1, t1) =>
        match f w1 with
        | (Ok _, w2, t2) => (r, w2, t1 ++ t2)
        | (Raise e, w2, t2) => (Raise e, w2, t1 ++ t2)
        end
    end.

Definition lift {A} (r : Res A) : M A := fun w => (r, w, []).
Definition emit (e : Event) : M unit := fun w => (Ok tt, w, [e]).
Definition get_world : M World := fun w => (Ok w, w, []).
Definition modify (f : World -> World) : M unit := fun w => (Ok tt, f w, []).

(** [time.sleep(seconds)].  A [stop()] of another thread that completes
    during this sleep has cleared [running] by the time the sleep ends. *)
Definition sleep (seconds : Z) : M unit :=
  fun w =>
    let w1 := set_slept (S (slept w)) w in
    (Ok tt,
     if stop_lands w (slept w) then set_running false w1 else w1,
     [EvSleep seconds]).

(** [random.random()] *)
Definition random : M Q :=
  fun w => (Ok (rnd w (drawn w)), set_drawn (S (drawn w)) w, []).

(** [random.uniform(a, b)] is [a + (b - a) * random()]. *)
Definition uniform (a b : Q) : M Q :=
  let* r := random in ret (a + (b - a) * r)%Q.

(** [random.randint(a, b)]: empty ranges raise; otherwise the draw picks
    one of the [b - a + 1] integers. *)
Definition randint (a b : Z) : M Z :=
  if (b <? a)%Z then raise ValueError
  else let* r := random in
       ret (a + Qfloor (r * inject_Z (b - a + 1)))%Z.

(** [if self.telegram_sender: self.telegram_sender(msg)].  The sender is
    [TelegramBotHandler.send_message], which keeps its own failures to
    itself. *)
Definition notify (n : Notice) : M unit :=
  let* w := get_world in
  if telegram_sender w then emit (EvNotify n) else ret tt.

(* ================================================================= *)
(** ** [MexcApiClient]: the request gateway *)

Definition retryable (status : Z) : bool :=
  existsb (Z.eqb status) [429; 500; 502; 503; 504]%Z.

(** [response.json()] *)
Definition response_json (b : Body) : Res Json :=
  match b with
  | BodyJson j => Ok j
  | BodyEmpty | BodyText => Raise JSONDecodeError
  end.

(** [response.json() if response.text else {"error": ...}] *)
Definition error_data (response : Response) : Res ErrorData :=
  match body response with
  | BodyEmpty => Ok (ErrStatus (status_code response))
  | BodyJson j => Ok (ErrBody j)
  | BodyText => Raise JSONDecodeError
  end.

(** [requests.get], [requests.post] or [requests.delete]; any other
    method is refused before anything is sent. *)
Definition send (method : Method) (endpoint : string)
    (params : list (string * Json)) (signed : bool) : M Response :=
  match method with
  | OtherMethod => raise ValueError
  | _ =>
      fun w =>
        let x := net w (sent w) in
        (match x with Failed => Raise RequestException | Answered r => Ok r end,
         set_sent (S (sent w)) w,
         [EvHttp method endpoint params signed x])
  end.

(** Runs [c] and hands back how it ended, without propagating. *)
Definition attempt {A} (c : M A) : M (Res A) :=
  fun w => match c w with (r, w1, t1) => (Ok r, w1, t1) end.

(** [self.retry_count += 1; retry_delay = 2 ** self.retry_count;
     time.sleep(retry_delay); return self._handle_request(...)] *)
Definition retry_after_backoff (again : M Json) : M Json :=
  modify (fun w => set_retry_count (S (retry_count w)) w);;
  let* w := get_world in
  sleep (2 ^ Z.of_nat (retry_count w));;
  again.

(** The [try] block once [response] is bound. *)
Definition on_response (response : Response) (again : M Json) : M Json :=
  if (status_code response =? 200)%Z then lift (response_json (body response))
  else
    let* error_data := lift (error_data response) in
    let* w := get_world in
    if retryable (status_code response) && (retry_count w <? max_retries w)%nat
    then retry_after_backoff again
    else raise (ApiError error_data).

(** The handler of [except requests.exceptions.RequestException]. *)
Definition on_request_exception (again : M Json) : M Json :=
  let* w := get_world in
  if (retry_count w <? max_retries w)%nat
  then retry_after_backoff again
  else raise RequestFailed.

(** The [finally] clause: the counter goes back to zero when [response]
    is bound and carries status 200. *)
Definition reset_on_success (response : option Response) : M unit :=
  match response with
  | Some r => if (status_code r =? 200)%Z then modify (set_retry_count 0) else ret tt
  | None => ret tt
  end.

(** The body of [_handle_request]; [again] is the recursive call
    [self._handle_request(method, endpoint, params, signed)]. *)
Definition handle_request_body (again : M Json) (method : Method)
    (endpoint : string) (params : list (string * Json)) (signed : bool) : M Json :=
  let* sent_result := attempt (send method endpoint params signed) in
  let response := match sent_result with Ok r => Some r | Raise _ => None end in
  try_finally
    (try_except
       (let* r := lift sent_result in on_response r again)
       is_request_exception
       (fun _ => on_request_exception again))
    (reset_on_success response).

(** [_handle_request], with the depth of the call stack bounded by
    [fuel]; [handle_request_fuel_enough] below shows that the bound used
    by [_handle_request] is never reached. *)
Fixpoint handle_request_fuel (fuel : nat) (method : Method) (endpoint : string)
    (params : list (string * Json)) (signed : bool) : M Json :=
  match fuel with
  | O => raise RecursionError
  | S fuel' =>
      handle_request_body
        (handle_request_fuel fuel' method endpoint params signed)
        method endpoint params signed
  end.

Definition _handle_request (method : Method) (endpoint : string)
    (params : list (string * Json)) (signed : bool) : M Json :=
  fun w =>
    handle_request_fuel (S (max_retries w - retry_count w))
                        method endpoint params signed w.

(** Every client method leaves one [EvApi] event with its outcome. *)
Definition api (c : ApiCall) (request : M Json) : M Json :=
  fun w => match request w with (r, w1, t1) => (r, w1, t1 ++ [EvApi c r]) end.

Definition get_account_info : M Json :=
  api CallAccount (_handle_request GET "account" [] true).

(** One turn of the loop of [get_balances]. *)
Definition add_balance (balances : gmap string Q) (asset : Json)
    : Res (gmap string Q) :=
  match dict_get asset "asset" (JStr "") with
  | Raise e => Raise e
  | Ok symbol =>
      match dict_get asset "free" (JNum 0) with
      | Raise e => Raise e
      | Ok free_v =>
          match py_float free_v with
          | Raise e => Raise e
          | Ok free =>
              match dict_get asset "locked" (JNum 0) with
              | Raise e => Raise e
              | Ok locked_v =>
                  match py_float locked_v with
                  | Raise e => Raise e
                  | Ok locked =>
                      match symbol with
                      | JStr s => Ok (<[s := (free + locked)%Q]> balances)
                      | JArr _ | JObj _ => Raise TypeError   (* unhashable key *)
                      | JNull | JBool _ | JNum _ => Ok balances (* a key no string equals *)
                      end
                  end
              end
          end
      end
  end.

Fixpoint add_balances (balances : gmap string Q) (assets : list Json)
    : Res (gmap string Q) :=
  match assets with
  | [] => Ok balances
  | asset :: rest =>
      match add_balance balances asset with
      | Ok balances' => add_balances balances' rest
      | Raise e => Raise e
      end
  end.

Definition get_balances : M (gmap string Q) :=
  let* account_info := get_account_info in
  let* listed := lift (dict_get account_info "balances" (JArr [])) in
  let* assets := lift (py_iter listed) in
  lift (add_balances ∅ assets).

Definition get_specific_balance (symbol : string) : M Q :=
  let* balances := get_balances in
  ret (match balances !! symbol with Some b => b | None => 0%Q end).

Definition get_orderbook (symbol : string) (limit : Z) : M Json :=
  api (CallDepth symbol limit)
      (_handle_request GET "depth"
         [("symbol", JStr symbol); ("limit", JNum (inject_Z limit))] false).

(** [float(orderbook[side][0][0]) if orderbook.get(side) else 0] *)
Definition top_price (orderbook : Json) (side : string) : Res Q :=
  match dict_get orderbook side JNull with
  | Raise e => Raise e
  | Ok levels =>
      if truthy levels then
        match py_item orderbook side with
        | Raise e => Raise e
        | Ok l =>
            match py_index l 0 with
            | Raise e => Raise e
            | Ok level =>
                match py_index level 0 with
                | Raise e => Raise e
                | Ok p => py_float p
                end
            end
        end
      else Ok 0%Q
  end.

Definition get_bid_ask (symbol : string) : M (Q * Q) :=
  let* orderbook := get_orderbook symbol 1 in
  let* bid1 := lift (top_price orderbook "bids") in
  let* ask1 := lift (top_price orderbook "asks") in
  ret (bid1, ask1).

Definition side_name (s : Side) : string :=
  match s with BUY => "BUY" | SELL => "SELL" end.
Definition type_name (t : OrderType) : string :=
  match t with LIMIT => "LIMIT" | MARKET => "MARKET" end.

Definition create_order (symbol : string) (side : Side) (order_type : OrderType)
    (quantity : Q) (price : option Q) : M Json :=
  let params :=
    [("symbol", JStr symbol); ("side", JStr (side_name side));
     ("type", JStr (type_name order_type)); ("quantity", JNum quantity)] in
  let params :=
    match order_type, price with
    | LIMIT, Some p => params ++ [("price", JNum p); ("timeInForce", JStr "GTC")]
    | _, _ => params
    end in
  api (CallCreateOrder symbol side order_type quantity price)
      (_handle_request POST "order" params true).

Definition cancel_order (symbol : string) (order_id : Json) : M Json :=
  api (CallCancelOrder symbol order_id)
      (_handle_request DELETE "order"
         [("symbol", JStr symbol); ("orderId", order_id)] true).

Definition cancel_all_orders (symbol : string) : M Json :=
  api (CallCancelAll symbol)
      (_handle_request DELETE "openOrders" [("symbol", JStr symbol)] true).

Definition get_order_status (symbol : string) (order_id : Json) : M Json :=
  api (CallOrderStatus symbol order_id)
      (_handle_request GET "order"
         [("symbol", JStr symbol); ("orderId", order_id)] true).

(* ================================================================= *)
(** ** [TradingBot] *)

Definition _check_balances : M bool :=
  try_except
    (let* usdt_balance := get_specific_balance QUOTE_CURRENCY in
     let* w := get_world in
     if fl_ltb (Finite usdt_balance) (MIN_USDT_BALANCE (cfg w)) then ret false
     else
       let* token_balance := get_specific_balance TOKEN_NAME in
       let* w := get_world in
       if fl_ltb (Finite token_balance) (MIN_TOKEN_BALANCE (cfg w)) then ret false
       else ret true)
    any_exception
    (fun _ => ret false).

(** [lo <= x <= hi], for a quote [x] and two settings *)
Definition between (lo : PyFloat) (x : Q) (hi : PyFloat) : bool :=
  fl_leb lo (Finite x) && fl_leb (Finite x) hi.

(** The price chosen from a quote, before rounding. *)
Definition choose_price (c : Config) (bid1 ask1 : Q) : M PyFloat :=
  let spread := (ask1 - bid1)%Q in
  if between (MIN_PRICE c) bid1 (MAX_PRICE c) && between (MIN_PRICE c) ask1 (MAX_PRICE c)
  then
    let* price := uniform bid1 ask1 in
    ret (Finite price)
  else
    let* percent := uniform (3 # 10) (7 # 10) in
    let price := (bid1 + spread * percent)%Q in
    ret (fl_max (MIN_PRICE c) (fl_min (MAX_PRICE c) (Finite price))).

Definition _decide_price : M PyFloat :=
  try_except
    (let* quote := get_bid_ask SYMBOL in
     let* w := get_world in
     let* price := choose_price (cfg w) (fst quote) (snd quote) in
     ret (fl_round price 8))
    any_exception
    (fun _ =>
       let* w := get_world in
       ret (fl_half (fl_add (MIN_PRICE (cfg w)) (MAX_PRICE (cfg w))))).

(* ================================================================= *)
(** ** [trading_execution.py] *)

(** [float(order_status.get(key, 0))] *)
Definition float_field (order_status : Json) (key : string) : Res Q :=
  match dict_get order_status key (JNum 0) with
  | Ok v => py_float v
  | Raise e => Raise e
  end.

(** [try: api_client.cancel_order(symbol, order_id)  except: pass] *)
Definition cancel_quietly (symbol : string) (order_id : Json) : M unit :=
  try_except (cancel_order symbol order_id;; ret tt)
             any_exception (fun _ => ret tt).

Definition check_and_cancel_order (symbol : string) (order_id : Json)
    : M (bool * Q * Q) :=
  try_except
    (let* order_status := get_order_status symbol order_id in
     let* status := lift (dict_get order_status "status" JNull) in
     if eq_str status "FILLED" then
       let* filled_qty := lift (float_field order_status "executedQty") in
       let* avg_price := lift (float_field order_status "price") in
       ret (true, filled_qty, avg_price)
     else
       let* filled_qty := lift (float_field order_status "executedQty") in
       let* avg_price := lift (float_field order_status "price") in
       cancel_order symbol order_id;;
       ret (false, filled_qty, avg_price))
    any_exception
    (fun _ =>
       cancel_quietly symbol order_id;;
       ret (false, 0%Q, 0%Q)).

(** [if order_id: api_client.cancel_order(symbol, order_id)] *)
Definition cancel_if_known (order_id : Json) : M unit :=
  if truthy order_id then cancel_order SYMBOL order_id;; ret tt else ret tt.

(** [config.TRADE_AMOUNT].  [config.py] defines a [TRADE_AMOUNT_USDT]
    and no [TRADE_AMOUNT], and nothing in the program assigns one: the
    lookup raises, and what the statement around it would have done with
    the value is not reached. *)
Definition TRADE_AMOUNT {A : Type} : M A := raise AttributeError.

(** Steps 2 and 3 of [execute_trade]: the price is decided, and the
    arguments of the first [create_order] are evaluated, up to
    [quantity=config.TRADE_AMOUNT].  The rest of the [try] block (the
    two orders, the wait, the reconciliation and the record) comes after
    that lookup. *)
Definition trade_once : M bool :=
  let* price := _decide_price in
  TRADE_AMOUNT.

(** The [try] block of [execute_trade]: the balance guard, then the
    trade. *)
Definition execute_trade_body : M bool :=
  let* enough := _check_balances in
  if negb enough then
    notify MsgBalanceLowStop;;
    modify (set_running false);;
    ret false
  else trade_once.

(** The [except Exception as e] clause of [execute_trade]. *)
Definition cancel_known_orders : M unit :=
  try_except
    (let* w := get_world in
     cancel_if_known (buy_order_id w);;
     let* w := get_world in
     cancel_if_known (sell_order_id w))
    any_exception (fun _ => ret tt).

Definition execute_trade_failed (e : Exn) : M bool :=
  cancel_known_orders;;
  notify (MsgTradeError e);;
  ret false.

Definition execute_trade : M bool :=
  modify (set_buy_order_id JNull);;
  modify (set_sell_order_id JNull);;
  try_except execute_trade_body any_exception execute_trade_failed.

(** [for _ in range(n): if not running: break; time.sleep(1)] *)
Fixpoint wait_slices (n : nat) : M unit :=
  match n with
  | O => ret tt
  | S k =>
      let* w := get_world in
      if negb (running w) then ret tt
      else sleep 1;; wait_slices k
  end.

(** The body of the [while] of [trading_loop]. *)
Definition loop_body : M unit :=
  try_except
    (execute_trade;;
     let* w := get_world in
     if running w then
       let* wait_time := randint (MIN_INTERVAL (cfg w)) (MAX_INTERVAL (cfg w)) in
       wait_slices (Z.to_nat wait_time)
     else ret tt)
    any_exception
    (fun _ => sleep 5).

Inductive LoopEnd : Type :=
| LoopExited        (* the [while] test failed *)
| LoopGoesOn.       (* [fuel] turns were made and the test still holds *)

(** [trading_loop], for at most [fuel] turns of its [while]. *)
Fixpoint trading_loop (fuel : nat) : M LoopEnd :=
  let* w := get_world in
  if running w then
    match fuel with
    | O => ret LoopGoesOn
    | S fuel' => loop_body;; trading_loop fuel'
    end
  else ret LoopExited.

(** [TradingBot.start] *)
Definition start : M bool :=
  let* w := get_world in
  if running w then ret false
  else
    let* enough := _check_balances in
    if negb enough then
      notify MsgBalanceLowStart;;
      ret false
    else
      modify (set_running true);;
      emit EvSpawnWorker;;
      notify MsgStarted;;
      ret true.

(** [TradingBot.stop] *)
Definition stop : M bool :=
  let* w := get_world in
  if negb (running w) then ret false
  else
    modify (set_running false);;
    try_except (cancel_all_orders SYMBOL;; ret tt)
               any_exception (fun _ => ret tt);;
    notify MsgStopped;;
    ret true.
(* ================================================================= *)
(** ** [MexcApiClient]: signing a request *)

(** [d[k] = v] on a dict that keeps its keys in insertion order. *)
Fixpoint dict_set (k : string) (v : Json) (d : list (string * Json))
    : list (string * Json) :=
  match d with
  | [] => [(k, v)]
  | (k', v') :: rest =>
      if String.eqb k k' then (k, v) :: rest else (k', v') :: dict_set k v rest
  end.

(** The order in which [sorted(params.items())] puts two items.  The keys
    of a dict are distinct, so the keys decide; Python compares strings
    code point by code point, which is the order of their bytes. *)
Definition item_le (kv1 kv2 : string * Json) : Prop :=
  String.leb (fst kv1) (fst kv2) = true.

#[local] Instance item_le_dec kv1 kv2 : Decision (item_le kv1 kv2).
Proof. unfold item_le. apply _. Defined.

(** [sorted(params.items())] *)
Definition sorted_items (params : list (string * Json)) : list (string * Json) :=
  merge_sort item_le params.

Section Signing.
(** [str(v)], as the f-string [f"{k}={v}"] renders a value, and the
    hexadecimal digest of HMAC-SHA256 under a key. *)
Variable str_of : Json -> string.
Variable hmac_sha256 : string -> string -> string.

(** [[f"{k}={v}" for k, v in sorted(params.items())]] *)
Definition signed_parts (params : list (string * Json)) : list string :=
  map (fun kv => (fst kv ++ "=" ++ str_of (snd kv))%string) (sorted_items params).

(** ['&'.join(...)] *)
Definition query_string (params : list (string * Json)) : string :=
  String.concat "&" (signed_parts params).

Definition _get_signature (api_secret : string) (params : list (string * Json))
    : string :=
  hmac_sha256 api_secret (query_string params).

(** The [if signed:] block of [_handle_request], run at [now_ms]
    milliseconds: it writes into the dict that it was given. *)
Definition sign_params (api_secret : string) (now_ms : Z)
    (params : list (string * Json)) : list (string * Json) :=
  let params := dict_set "timestamp" (JNum (inject_Z now_ms)) params in
  let params := dict_set "recvWindow" (JNum 5000) params in
  dict_set "signature" (JStr (_get_signature api_secret params)) params.
End Signing.

(* ================================================================= *)
(** ** [DBManager]: the table of trades *)

(** A value of the dict handed to [save_trade]: something JSON can
    hold, or a [datetime], given by its [isoformat()]. *)
Inductive PyVal : Type :=
| PJson (j : Json)
| PDatetime (isoformat : string).

(** A row of the table [trades], with the values as they were bound. *)
Record TradeRow : Type := mkTradeRow {
  row_id : Z;
  row_timestamp : Json;
  row_price : Json;
  row_quantity : Json;
  row_filled_quantity : Json;
  row_filled_percent : Json;
  row_buy_order_id : Json;
  row_sell_order_id : Json;
  row_buy_filled : Z;
  row_sell_filled : Z;
  row_data : string
}.

(** The database file: whether it can be opened with its tables in
    place, the rows of [trades] in the order of their ids, and the last
    id that AUTOINCREMENT gave out. *)
Record Database : Type := mkDatabase {
  db_opens : bool;
  trades : list TradeRow;
  last_id : Z
}.

Fixpoint pv_assoc (k : string) (d : list (string * PyVal)) : option PyVal :=
  match d with
  | [] => None
  | (k', v) :: rest => if String.eqb k k' then Some v else pv_assoc k rest
  end.

(** [trade_data.get(k, default)] *)
Definition pv_get (d : list (string * PyVal)) (k : string) (default : PyVal)
    : PyVal :=
  match pv_assoc k d with Some v => v | None => default end.

Definition pv_truthy (v : PyVal) : bool :=
  match v with
  | PJson j => truthy j
  | PDatetime _ => true
  end.

(** What [json.dumps] has to encode: it raises [TypeError] on a
    [datetime]. *)
Fixpoint serializable (d : list (string * PyVal)) : Res (list (string * Json)) :=
  match d with
  | [] => Ok []
  | (k, PJson j) :: rest =>
      match serializable rest with
      | Ok fields => Ok ((k, j) :: fields)
      | Raise e => Raise e
      end
  | (_, PDatetime _) :: _ => Raise TypeError
  end.

(** A value handed to [cursor.execute] as a parameter: [sqlite3] binds
    [None], numbers, booleans and strings and refuses lists and dicts.
    (A [datetime] would go through its adapter; none gets this far,
    [json.dumps] has raised on it before.)  Which exception a refusal
    raises makes no difference to [save_trade], which catches them
    all. *)
Definition bound (v : PyVal) : Res Json :=
  match v with
  | PJson (JArr _) | PJson (JObj _) => Raise TypeError
  | PJson j => Ok j
  | PDatetime iso => Ok (JStr iso)
  end.

(** A column declared NOT NULL refuses [None]. *)
Definition not_null (j : Json) : Res Json :=
  match j with
  | JNull => Raise ValueError
  | _ => Ok j
  end.

Definition res_bind {A B} (r : Res A) (k : A -> Res B) : Res B :=
  match r with
  | Ok a => k a
  | Raise e => Raise e
  end.

Section SaveTrade.
(** The text that [json.dumps] makes of a dict, and [datetime.now()]. *)
Variable dumps : list (string * Json) -> string.
Variable now : string.

(** The [try] block of [save_trade], from the first [get] to the row
    that [INSERT] adds. *)
Definition new_row (trade_data : list (string * PyVal)) (db : Database)
    : Res TradeRow :=
  let timestamp := pv_get trade_data "timestamp" (PDatetime now) in
  let price := pv_get trade_data "price" (PJson (JNum 0)) in
  let quantity := pv_get trade_data "quantity" (PJson (JNum 0)) in
  let filled_quantity := pv_get trade_data "filled_quantity" (PJson (JNum 0)) in
  let filled_percent := pv_get trade_data "filled_percent" (PJson (JNum 0)) in
  let buy_order_id := pv_get trade_data "buy_order_id" (PJson (JStr "")) in
  let sell_order_id := pv_get trade_data "sell_order_id" (PJson (JStr "")) in
  let buy_filled :=
    if pv_truthy (pv_get trade_data "buy_filled" (PJson (JBool false)))
    then 1%Z else 0%Z in
  let sell_filled :=
    if pv_truthy (pv_get trade_data "sell_filled" (PJson (JBool false)))
    then 1%Z else 0%Z in
  res_bind (serializable trade_data) (fun fields =>
  let data_json := dumps fields in
  let timestamp :=
    match timestamp with
    | PDatetime iso => PJson (JStr iso)
    | v => v
    end in
  res_bind (res_bind (bound timestamp) not_null) (fun c_timestamp =>
  res_bind (res_bind (bound price) not_null) (fun c_price =>
  res_bind (res_bind (bound quantity) not_null) (fun c_quantity =>
  res_bind (res_bind (bound filled_quantity) not_null) (fun c_filled_quantity =>
  res_bind (res_bind (bound filled_percent) not_null) (fun c_filled_percent =>
  res_bind (bound buy_order_id) (fun c_buy_order_id =>
  res_bind (bound sell_order_id) (fun c_sell_order_id =>
  Ok {| row_id := last_id db + 1;
        row_timestamp := c_timestamp;
        row_price := c_price;
        row_quantity := c_quantity;
        row_filled_quantity := c_filled_quantity;
        row_filled_percent := c_filled_percent;
        row_buy_order_id := c_buy_order_id;
        row_sell_order_id := c_sell_order_id;
        row_buy_filled := buy_filled;
        row_sell_filled := sell_filled;
        row_data := data_json |})))))))).

(** [DBManager.save_trade]: [True] once the row is committed, [False]
    from the [except] clause. *)
Definition save_trade (trade_data : list (string * PyVal)) (db : Database)
    : bool * Database :=
  if db_opens db then
    match new_row trade_data db with
    | Ok row =>
        (true, {| db_opens := true;
                  trades := trades db ++ [row];
                  last_id := row_id row |})
    | Raise _ => (false, db)
    end
  else (false, db).
End SaveTrade.

(** The dict [trade_data] that [execute_trade] builds at the time whose
    [isoformat()] is [now]. *)
Definition trade_data (now : string) (td : TradeData) : list (string * PyVal) :=
  [("timestamp", PDatetime now);
   ("price", PJson (JNum (td_price td)));
   ("quantity", PJson (JNum (td_quantity td)));
   ("filled_quantity", PJson (JNum (td_filled_quantity td)));
   ("filled_percent", PJson (JNum (td_filled_percent td)));
   ("buy_order_id", PJson (td_buy_order_id td));
   ("sell_order_id", PJson (td_sell_order_id td));
   ("buy_filled", PJson (JBool (td_buy_filled td)));
   ("sell_filled", PJson (JBool (td_sell_filled td)))].

(* ================================================================= *)
(** ** [TelegramBotHandler]: who may talk to the bot *)

(** An entry of [AUTHORIZED_USERS] or [ADMIN_USERS]: a user id (an int)
    or a user name (a str). *)
Inductive UserRef : Type :=
| UserId (id : Z)
| UserName (name : string).

(** What a handler reads of a message. *)
Record Message : Type := mkMessage {
  from_id : Z;                      (* message.from_user.id *)
  from_username : option string;    (* message.from_user.username *)
  text : string;                    (* message.text *)
  chat_id : Z                       (* message.chat.id *)
}.

Inductive Command : Type :=
| CmdInterval | CmdPrice | CmdAmount | CmdMinUsdt | CmdMinToken.

(** The texts that the handlers send, by what they say. *)
Inductive Text : Type :=
| TxtFull                 (* more than 6 users *)
| TxtNoPermission
| TxtAuthFailed
| TxtAdminOnly
| TxtFormat (c : Command)
| TxtNotNumber (c : Command)
| TxtError (e : Exn)
| TxtIntervalFloor        (* the interval must be 5 seconds or more *)
| TxtPriceFloor           (* the price must be above 0 *)
| TxtAmountFloor          (* the amount must be above 0 *)
| TxtBalanceFloor         (* the least balance must be 0 or more *)
| TxtIntervalSet (lo hi : Z)
| TxtIntervalChanged (lo hi : Z)
| TxtPriceSet (lo hi : PyFloat)
| TxtPriceChanged (lo hi : PyFloat)
| TxtValueSet (c : Command) (v : PyFloat)
| TxtValueChanged (c : Command) (v : PyFloat)
| TxtUnknown
| TxtStopped (was_running : bool)
| TxtCaution
| TxtStopFailed
| TxtAlreadyRunning
| TxtConfirm (shown : list Json)
| TxtStarted
| TxtStartedByAdmin
| TxtMarket (bid ask : Q)
| TxtStartFailed
| TxtCancelled
| TxtStatus (shown : list Json)
| TxtStatusError (e : Exn).

(** A call to the Telegram API that went through. *)
Inductive Out : Type :=
| Reply (m : Message) (t : Text)         (* bot.reply_to(m, t) *)
| Send (user : Z) (t : Text)             (* bot.send_message(user, t) *)
| NextStep (m : Message).                (* bot.register_next_step_handler *)

(** The handler and what it holds: the users it has admitted, the
    engine with its client, the settings, and Telegram, whose [n]-th
    call raises when [tg_down n] holds. *)
Record Desk : Type := mkDesk {
  connected_users : gset Z;
  engine : World;
  engine_log : list Event;
  amount_usdt : PyFloat;           (* config.TRADE_AMOUNT_USDT *)
  outbox : list Out;
  tg_down : nat -> bool;
  tg_calls : nat
}.

Definition set_connected_users (s : gset Z) (d : Desk) : Desk :=
  mkDesk s (engine d) (engine_log d) (amount_usdt d) (outbox d)
         (tg_down d) (tg_calls d).
Definition set_engine (w : World) (d : Desk) : Desk :=
  mkDesk (connected_users d) w (engine_log d) (amount_usdt d) (outbox d)
         (tg_down d) (tg_calls d).
Definition set_amount_usdt (q : PyFloat) (d : Desk) : Desk :=
  mkDesk (connected_users d) (engine d) (engine_log d) q (outbox d)
         (tg_down d) (tg_calls d).

Definition set_cfg (c : Config) (w : World) : World :=
  mkWorld (net w) (rnd w) (stop_lands w)
          (sent w) (drawn w) (slept w) (retry_count w) (max_retries w)
          (running w) (trade_count w) (telegram_sender w)
          (buy_order_id w) (sell_order_id w) c.

(** Handlers run in a state-and-exception monad over the desk. *)
Definition H (A : Type) : Type := Desk -> Res A * Desk.

Definition h_ret {A} (a : A) : H A := fun d => (Ok a, d).
Definition h_raise {A} (e : Exn) : H A := fun d => (Raise e, d).
Definition h_bind {A B} (c : H A) (k : A -> H B) : H B :=
  fun d =>
    match c d with
    | (Ok a, d1) => k a d1
    | (Raise e, d1) => (Raise e, d1)
    end.
Definition h_get : H Desk := fun d => (Ok d, d).
Definition h_modify (f : Desk -> Desk) : H unit := fun d => (Ok tt, f d).
Definition h_lift {A} (r : Res A) : H A := fun d => (r, d).

Notation "'do*' x ':=' c 'in' k" := (h_bind c (fun x => k))
  (at level 10, x pattern, c at level 100, k at level 200).
Notation "c ';;;' k" := (h_bind c (fun _ => k))
  (at level 100, k at level 200, right associativity).

(** [try: c  except <caught>: h] *)
Definition h_try {A} (c : H A) (caught : Exn -> bool) (h : Exn -> H A) : H A :=
  fun d =>
    match c d with
    | (Raise e, d1) => if caught e then h e d1 else (Raise e, d1)
    | ok => ok
    end.

(** A call to the Telegram API: it goes through, or it raises. *)
Definition telegram (o : Out) : H unit :=
  fun d =>
    let called :=
      mkDesk (connected_users d) (engine d) (engine_log d) (amount_usdt d)
             (outbox d) (tg_down d) (S (tg_calls d)) in
    if tg_down d (tg_calls d) then (Raise RequestException, called)
    else
      (Ok tt,
       mkDesk (connected_users d) (engine d) (engine_log d) (amount_usdt d)
              (outbox d ++ [o]) (tg_down d) (S (tg_calls d))).

(** [bot.register_next_step_handler]: kept by the library, no call to
    Telegram. *)
Definition note (o : Out) : H unit :=
  h_modify (fun d =>
    mkDesk (connected_users d) (engine d) (engine_log d) (amount_usdt d)
           (outbox d ++ [o]) (tg_down d) (tg_calls d)).

Definition reply_to (m : Message) (t : Text) : H unit := telegram (Reply m t).
Definition send_to (user : Z) (t : Text) : H unit := telegram (Send user t).

(** [try: c  except: pass] *)
Definition quietly (c : H unit) : H unit :=
  h_try c any_exception (fun _ => h_ret tt).

(** Runs a method of the engine on the handler's bot. *)
Definition on_engine {A} (c : M A) : H A :=
  fun d =>
    match c (engine d) with
    | (r, w, t) =>
        (r, mkDesk (connected_users d) w (engine_log d ++ t) (amount_usdt d)
                   (outbox d) (tg_down d) (tg_calls d))
    end.

Section Telegram.
(** The two lists of [config.py], [str.lower], [str.isdigit] and [int]
    on a str, and the order in which a [for] visits a set. *)
Variable ADMIN_USERS : list UserRef.
Variable AUTHORIZED_USERS : list UserRef.
Variable lower : string -> string.
Variable isdigit : string -> bool.
Variable int_of_str : string -> Res Z.
Variable visit : gset Z -> list Z.

(** [if len(self.connected_users) < 6 or user_id in self.connected_users:
       self.connected_users.add(user_id); return True
     else: reply; return False] *)
Definition connect (message : Message) : H bool :=
  do* d := h_get in
  if (size (connected_users d) <? 6)%nat
     || bool_decide (from_id message ∈ connected_users d)
  then
    h_modify (fun d => set_connected_users
                         ({[from_id message]} ∪ connected_users d) d);;;
    h_ret true
  else
    reply_to message TxtFull;;;
    h_ret false.

(** One of the two [for] loops of [_is_authorized] over a list of
    entries; [otherwise] is what follows the loop. *)
Fixpoint look_up (entries : list UserRef) (message : Message)
    (otherwise : H bool) : H bool :=
  match entries with
  | [] => otherwise
  | UserId id :: rest =>
      if (id =? from_id message)%Z then connect message
      else look_up rest message otherwise
  | UserName name :: rest =>
      match from_username message with
      | None => h_raise AttributeError          (* username.lower() *)
      | Some username =>
          if String.eqb (lower name) (lower username) then connect message
          else look_up rest message otherwise
      end
  end.

Definition _is_authorized (message : Message) : H bool :=
  h_try
    (look_up ADMIN_USERS message
       (look_up AUTHORIZED_USERS message
          (reply_to message TxtNoPermission;;;
           h_ret false)))
    any_exception
    (fun _ =>
       reply_to message TxtAuthFailed;;;
       h_ret false).

(** The first loop of [_is_admin]: entries that read as a number. *)
Definition entry_id (auth : UserRef) : Res (option Z) :=
  match auth with
  | UserId id => Ok (if (0 <=? id)%Z then Some id else None)
  | UserName name =>
      if isdigit name then
        match int_of_str name with
        | Ok id => Ok (Some id)
        | Raise e => Raise e
        end
      else Ok None
  end.

Fixpoint admin_by_id (entries : list UserRef) (user_id : Z) : Res bool :=
  match entries with
  | [] => Ok false
  | auth :: rest =>
      match entry_id auth with
      | Ok (Some id) =>
          if (user_id =? id)%Z then Ok true else admin_by_id rest user_id
      | Ok None => admin_by_id rest user_id
      | Raise ValueError | Raise TypeError => admin_by_id rest user_id
      | Raise e => Raise e
      end
  end.

(** The second loop: entries that are names. *)
Fixpoint admin_by_name (entries : list UserRef) (username_lower : string) : bool :=
  match entries with
  | [] => false
  | UserId _ :: rest => admin_by_name rest username_lower
  | UserName name :: rest =>
      if String.eqb (lower name) username_lower then true
      else admin_by_name rest username_lower
  end.

Definition _is_admin (message : Message) : H bool :=
  do* by_id := h_lift (admin_by_id ADMIN_USERS (from_id message)) in
  if by_id then h_ret true
  else
    let by_name :=
      match from_username message with
      | Some username =>
          if negb (String.eqb username "")
          then admin_by_name ADMIN_USERS (lower username)
          else false
      | None => false
      end in
    if by_name then h_ret true
    else
      reply_to message TxtAdminOnly;;;
      h_ret false.

(** [def wrapper(message)] of [_check_auth] *)
Definition _check_auth (handler_func : Message -> H unit) (message : Message)
    : H unit :=
  do* ok := _is_authorized message in
  if negb ok then h_ret tt else handler_func message.

(** [for user_id in users: try: send(user_id, text)  except: log/pass] *)
Fixpoint send_each (users : list Z) (t : Text) : H unit :=
  match users with
  | [] => h_ret tt
  | user :: rest => quietly (send_to user t);;; send_each rest t
  end.

(** [TelegramBotHandler.send_message] *)
Definition send_message (t : Text) (chat : option Z) : H unit :=
  do* d := h_get in
  match chat with
  | Some c =>
      if negb (c =? 0)%Z then quietly (send_to c t)
      else send_each (visit (connected_users d)) t
  | None => send_each (visit (connected_users d)) t
  end.

(** The loop that tells the other connected users. *)
Definition tell_others (message : Message) (t : Text) : H unit :=
  do* d := h_get in
  send_each (List.filter (fun user => negb (user =? from_id message)%Z)
                         (visit (connected_users d))) t.
End Telegram.

(* ================================================================= *)
(** ** [TradingBot.get_status] *)

(** [get_status].  The running time stays the empty string, as nothing
    sets [last_trade_time]; the balances are read inside their own
    [try]; the total volume comes from the database, in a method that
    catches what it raises.  The dict is then built entry by entry, and
    the entry ["trade_amount": config.TRADE_AMOUNT] of its settings
    raises before there is a dict to return. *)
Definition get_status : M Json :=
  let* first := attempt (get_specific_balance QUOTE_CURRENCY) in
  match first with
  | Raise _ => ret tt
  | Ok _ =>
      let* second := attempt (get_specific_balance TOKEN_NAME) in
      ret tt
  end;;
  TRADE_AMOUNT.

(* ================================================================= *)
(** ** The handlers of the chat commands *)

Definition is_value_error (e : Exn) : bool :=
  match e with
  | ValueError => true
  | _ => false
  end.

(** The values that an f-string reads out of dicts, left to right;
    the first key that is missing raises [KeyError]. *)
Fixpoint read_items (reads : list (Json * string)) : Res (list Json) :=
  match reads with
  | [] => Ok []
  | (d, k) :: rest =>
      match py_item d k with
      | Raise e => Raise e
      | Ok v =>
          match read_items rest with
          | Ok vs => Ok (v :: vs)
          | Raise e => Raise e
          end
      end
  end.

Definition with_interval (lo hi : Z) (c : Config) : Config :=
  {| MIN_PRICE := MIN_PRICE c; MAX_PRICE := MAX_PRICE c;
     MIN_INTERVAL := lo; MAX_INTERVAL := hi;
     MIN_USDT_BALANCE := MIN_USDT_BALANCE c;
     MIN_TOKEN_BALANCE := MIN_TOKEN_BALANCE c |}.

Definition with_price (lo hi : PyFloat) (c : Config) : Config :=
  {| MIN_PRICE := lo; MAX_PRICE := hi;
     MIN_INTERVAL := MIN_INTERVAL c; MAX_INTERVAL := MAX_INTERVAL c;
     MIN_USDT_BALANCE := MIN_USDT_BALANCE c;
     MIN_TOKEN_BALANCE := MIN_TOKEN_BALANCE c |}.

Definition with_min_usdt (v : PyFloat) (c : Config) : Config :=
  {| MIN_PRICE := MIN_PRICE c; MAX_PRICE := MAX_PRICE c;
     MIN_INTERVAL := MIN_INTERVAL c; MAX_INTERVAL := MAX_INTERVAL c;
     MIN_USDT_BALANCE := v;
     MIN_TOKEN_BALANCE := MIN_TOKEN_BALANCE c |}.

Definition with_min_token (v : PyFloat) (c : Config) : Config :=
  {| MIN_PRICE := MIN_PRICE c; MAX_PRICE := MAX_PRICE c;
     MIN_INTERVAL := MIN_INTERVAL c; MAX_INTERVAL := MAX_INTERVAL c;
     MIN_USDT_BALANCE := MIN_USDT_BALANCE c;
     MIN_TOKEN_BALANCE := v |}.

(** [config.X = ...] *)
Definition write_config (f : Config -> Config) : H unit :=
  h_modify (fun d => set_engine (set_cfg (f (cfg (engine d))) (engine d)) d).

Section Handlers.
Variable ADMIN_USERS : list UserRef.
Variable AUTHORIZED_USERS : list UserRef.
Variable lower : string -> string.
Variable isdigit : string -> bool.
Variable int_of_str : string -> Res Z.
Variable visit : gset Z -> list Z.
(** [str.split()], [str.strip()] and [float] on a str, which reads a
    finite number, [inf], [-inf] or [nan], or raises. *)
Variable split : string -> list string.
Variable strip : string -> string.
Variable float_of_str : string -> Res PyFloat.

Abbreviation is_authorized := (_is_authorized ADMIN_USERS AUTHORIZED_USERS lower).
Abbreviation is_admin := (_is_admin ADMIN_USERS lower isdigit int_of_str).

(** The two checks that open a handler for administrators. *)
Definition for_admin (message : Message) (body : H unit) : H unit :=
  do* authorized := is_authorized message in
  if negb authorized then h_ret tt
  else
    do* admin := is_admin message in
    if negb admin then h_ret tt
    else body.

(** [try: body  except ValueError: ...  except Exception as e: ...] of
    the settings handlers. *)
Definition setting (c : Command) (message : Message) (body : H unit) : H unit :=
  h_try body any_exception
    (fun e =>
       if is_value_error e then reply_to message (TxtNotNumber c)
       else reply_to message (TxtError e)).

Definition handle_interval_setting_impl (message : Message) : H unit :=
  for_admin message
    (setting CmdInterval message
       (let parts := split (text message) in
        if negb (length parts =? 3)%nat
        then reply_to message (TxtFormat CmdInterval)
        else
          do* min_val := h_lift (int_of_str (nth 1 parts "")) in
          do* max_val := h_lift (int_of_str (nth 2 parts "")) in
          let lo := Z.min min_val max_val in
          let hi := Z.max min_val max_val in
          if (lo <? 5)%Z then reply_to message TxtIntervalFloor
          else
            write_config (with_interval lo hi);;;
            reply_to message (TxtIntervalSet lo hi);;;
            tell_others visit message (TxtIntervalChanged lo hi))).

Definition handle_price_setting_impl (message : Message) : H unit :=
  for_admin message
    (setting CmdPrice message
       (let parts := split (text message) in
        if negb (length parts =? 3)%nat
        then reply_to message (TxtFormat CmdPrice)
        else
          do* min_price := h_lift (float_of_str (nth 1 parts "")) in
          do* max_price := h_lift (float_of_str (nth 2 parts "")) in
          let lo := fl_min min_price max_price in
          let hi := fl_max min_price max_price in
          if fl_leb lo (Finite 0) then reply_to message TxtPriceFloor
          else
            write_config (with_price lo hi);;;
            reply_to message (TxtPriceSet lo hi);;;
            tell_others visit message (TxtPriceChanged lo hi))).

(** The three handlers that set one value. *)
Definition set_one (c : Command) (refused : PyFloat -> bool) (floor : Text)
    (write : PyFloat -> H unit) (message : Message) : H unit :=
  for_admin message
    (setting c message
       (let parts := split (text message) in
        if negb (length parts =? 2)%nat
        then reply_to message (TxtFormat c)
        else
          do* v := h_lift (float_of_str (nth 1 parts "")) in
          if refused v then reply_to message floor
          else
            write v;;;
            reply_to message (TxtValueSet c v);;;
            tell_others visit message (TxtValueChanged c v))).

Definition handle_amount_setting_impl : Message -> H unit :=
  set_one CmdAmount (fun amount => fl_leb amount (Finite 0)) TxtAmountFloor
          (fun amount => h_modify (set_amount_usdt amount)).

Definition handle_min_usdt_setting_impl : Message -> H unit :=
  set_one CmdMinUsdt (fun v => fl_ltb v (Finite 0)) TxtBalanceFloor
          (fun v => write_config (with_min_usdt v)).

Definition handle_min_token_setting_impl : Message -> H unit :=
  set_one CmdMinToken (fun v => fl_ltb v (Finite 0)) TxtBalanceFloor
          (fun v => write_config (with_min_token v)).

Definition handle_unknown_impl (message : Message) : H unit :=
  do* authorized := is_authorized message in
  if negb authorized then h_ret tt
  else reply_to message TxtUnknown.

Definition handle_000_impl (message : Message) : H unit :=
  do* admin := is_admin message in
  if negb admin then h_ret tt
  else
    h_try
      (do* d := h_get in
       let was_running := running (engine d) in
       do* result := on_engine stop in
       if result then
         reply_to message (TxtStopped was_running);;;
         send_to (chat_id message) TxtCaution
       else reply_to message TxtStopFailed)
      any_exception
      (fun e => reply_to message (TxtError e)).

Definition handle_555_impl (message : Message) : H unit :=
  do* authorized := is_authorized message in
  if negb authorized then h_ret tt
  else
    h_try
      (do* status := on_engine get_status in
       do* _ := h_lift (py_item status "running") in
       do* settings := h_lift (dict_get status "settings" (JObj [])) in
       do* shown :=
         h_lift (read_items
                   [(status, "quote_currency"); (status, "usdt_balance");
                    (status, "token_name"); (status, "token_balance");
                    (settings, "min_interval"); (settings, "max_interval");
                    (settings, "min_price"); (settings, "max_price");
                    (settings, "trade_amount_usdt"); (status, "quote_currency");
                    (settings, "min_usdt_balance"); (status, "quote_currency");
                    (settings, "min_token_balance"); (status, "token_name");
                    (status, "trade_count"); (status, "total_volume");
                    (status, "token_name"); (status, "last_trade_time")]) in
       reply_to message (TxtStatus shown))
      any_exception
      (fun e => reply_to message (TxtStatusError e)).

Definition handle_777_impl (message : Message) : H unit :=
  for_admin message
    (h_try
       (do* d := h_get in
        if running (engine d) then reply_to message TxtAlreadyRunning
        else
          do* status := on_engine get_status in
          do* settings := h_lift (dict_get status "settings" (JObj [])) in
          do* shown :=
            h_lift (read_items
                      [(settings, "min_interval"); (settings, "max_interval");
                       (settings, "min_price"); (settings, "max_price");
                       (settings, "trade_amount_usdt");
                       (settings, "min_usdt_balance");
                       (settings, "min_token_balance")]) in
          reply_to message (TxtConfirm shown);;;
          note (NextStep message))
       any_exception
       (fun e => reply_to message (TxtError e))).

Definition process_start_confirmation_impl (message : Message) : H unit :=
  for_admin message
    (h_try
       (let answer := strip (text message) in
        if String.eqb answer "1" then
          do* result := on_engine start in
          if result then
            reply_to message TxtStarted;;;
            tell_others visit message TxtStartedByAdmin;;;
            quietly
              (do* quote := on_engine (get_bid_ask SYMBOL) in
               send_to (chat_id message) (TxtMarket (fst quote) (snd quote)))
          else reply_to message TxtStartFailed
        else reply_to message TxtCancelled)
       any_exception
       (fun e => reply_to message (TxtError e))).
End Handlers.
(* ================================================================= *)
(** ** [utils_extended.py]: retrying and chunking *)

Section RetryOnError.
Context {A : Type}.
(** The wrapped [func], by the outcome of its [k]-th call, from 0. *)
Variable func : nat -> Res A.
Variable max_retries : Z.
Variable backoff : Z.

(** The [while] loop of [wrapper]; [made] counts the calls of [func]
    and [waits] lists the sleeps so far.  The loop returns or raises
    within [max_retries] turns, which is the fuel it is given. *)
Fixpoint retry_loop (fuel : nat) (retry_count current_delay : Z)
    (made : nat) (waits : list Z) : Res (option A) * nat * list Z :=
  match fuel with
  | O => (Ok None, made, waits)
  | S fuel' =>
      if (retry_count <? max_retries)%Z then
        match func made with
        | Ok a => (Ok (Some a), S made, waits)
        | Raise e =>
            let retry_count := (retry_count + 1)%Z in
            if (max_retries <=? retry_count)%Z then (Raise e, S made, waits)
            else if (current_delay <? 0)%Z
            then (Raise ValueError, S made, waits)    (* time.sleep(-1) *)
            else retry_loop fuel' retry_count (current_delay * backoff)%Z
                            (S made) (waits ++ [current_delay])
        end
      else (Ok None, made, waits)
  end.

(** A call of [func] as wrapped by
    [retry_on_error(max_retries, delay, backoff)]. *)
Definition retry_on_error (delay : Z) : Res (option A) * nat * list Z :=
  retry_loop (Z.to_nat max_retries) 0 delay 0 [].
End RetryOnError.

(** [range(start, stop, step)] for a step above 0 and for a step under
    0, as far as the fuel goes. *)
Fixpoint range_up (fuel : nat) (start stop step : Z) : list Z :=
  match fuel with
  | O => []
  | S fuel' =>
      if (start <? stop)%Z then start :: range_up fuel' (start + step) stop step
      else []
  end.

Fixpoint range_down (fuel : nat) (start stop step : Z) : list Z :=
  match fuel with
  | O => []
  | S fuel' =>
      if (stop <? start)%Z then start :: range_down fuel' (start + step) stop step
      else []
  end.

(** [list(range(start, stop, step))] *)
Definition py_range (start stop step : Z) : Res (list Z) :=
  if (step =? 0)%Z then Raise ValueError
  else if (0 <? step)%Z
       then Ok (range_up (Z.to_nat (stop - start)) start stop step)
       else Ok (range_down (Z.to_nat (start - stop)) start stop step).

(** Where a slice bound [k] falls in a list of [len] items. *)
Definition slice_bound (len k : Z) : Z :=
  if (k <? 0)%Z then Z.max 0 (len + k) else Z.min k len.

(** [lst[lo:hi]] *)
Definition py_slice {A} (lst : list A) (lo hi : Z) : list A :=
  let len := Z.of_nat (length lst) in
  let lo' := slice_bound len lo in
  let hi' := slice_bound len hi in
  firstn (Z.to_nat (hi' - lo')) (skipn (Z.to_nat lo') lst).

(** [list(chunks(lst, n))]: the chunks in the order they are yielded;
    the [ValueError] of [range] comes with the first [next]. *)
Definition chunks {A} (lst : list A) (n : Z) : Res (list (list A)) :=
  match py_range 0 (Z.of_nat (length lst)) n with
  | Raise e => Raise e
  | Ok starts => Ok (map (fun i => py_slice lst i (i + n)) starts)
  end.

(* ================================================================= *)
(** ** Vocabulary of the statements *)

Definition prepend {A} (t : list Event) (r : Run A) : Run A :=
  (result r, final r, t ++ events r).

(** [Respects R c]: every run of [c] is in [R], a relation between the
    world before, the world after and the events in between. *)
Definition Respects (R : World -> World -> list Event -> Prop) {A} (c : M A)
    : Prop :=
  forall w, R w (final (c w)) (events (c w)).

(** [frame w w']: between [w] and [w'] only the counters and the retry
    counter moved, and [running] was at most cleared, and then only by a
    [stop()] that landed. *)
Record frame (w w' : World) : Prop := mkFrame {
  frame_net : net w' = net w;
  frame_rnd : rnd w' = rnd w;
  frame_stop_lands : stop_lands w' = stop_lands w;
  frame_max_retries : max_retries w' = max_retries w;
  frame_trade_count : trade_count w' = trade_count w;
  frame_telegram_sender : telegram_sender w' = telegram_sender w;
  frame_buy_order_id : buy_order_id w' = buy_order_id w;
  frame_sell_order_id : sell_order_id w' = sell_order_id w;
  frame_cfg : cfg w' = cfg w;
  frame_sent : sent w <= sent w';
  frame_drawn : drawn w <= drawn w';
  frame_slept : slept w <= slept w';
  frame_running_down : running w' = true -> running w = true;
  frame_running_quiet :
    (forall n, stop_lands w n = false) -> running w' = running w
}.

Definition low_event (e : Event) : Prop :=
  match e with
  | EvHttp _ _ _ _ _ | EvSleep _ => True
  | _ => False
  end.

(** The gateway keeps the frame and only sends and sleeps. *)
Definition gate (w w' : World) (t : list Event) : Prop :=
  frame w w' /\ Forall low_event t.

Definition transient (x : Exchange) : bool :=
  match x with
  | Failed => true
  | Answered r => retryable (status_code r)
  end.

(** The world once an attempt was made, the counter was bumped and the
    back-off sleep is over. *)
Definition after_backoff (w : World) : World :=
  let w1 := set_retry_count (S (retry_count w)) (set_sent (S (sent w)) w) in
  let w2 := set_slept (S (slept w1)) w1 in
  if stop_lands w (slept w) then set_running false w2 else w2.

(** The exception that ends a call whose last attempt came to [x]. *)
Definition terminal_error (x : Exchange) : Exn :=
  match x with
  | Failed => RequestFailed
  | Answered r =>
      match error_data r with
      | Ok data => ApiError data
      | Raise _ => RequestFailed
      end
  end.

(** No [RequestException] leaves [again]. *)
Definition contained (again : M Json) : Prop :=
  forall w e, result (again w) = Raise e -> is_request_exception e = false.

(** The lengths of the sleeps of a run, and the number of HTTP exchanges
    it attempted. *)
Fixpoint sleeps (t : list Event) : list Z :=
  match t with
  | [] => []
  | EvSleep seconds :: rest => seconds :: sleeps rest
  | _ :: rest => sleeps rest
  end.

Fixpoint attempts (t : list Event) : nat :=
  match t with
  | [] => 0
  | EvHttp _ _ _ _ _ :: rest => S (attempts rest)
  | _ :: rest => attempts rest
  end.

(** [2^(from+1); ...; 2^(from+count)] *)
Definition backoff_delays (from count : nat) : list Z :=
  map (fun k => (2 ^ Z.of_nat k)%Z) (seq (S from) count).

(** A client whose counter is at zero, as after [__init__] or after any
    successful call, facing the exchange [n]. *)
Definition fresh_client (n : nat -> Exchange) (c : Config) : World :=
  {| net := n; rnd := fun _ => 0%Q; stop_lands := fun _ => false;
     sent := 0; drawn := 0; slept := 0;
     retry_count := 0; max_retries := MAX_RETRIES;
     running := false; trade_count := 0; telegram_sender := true;
     buy_order_id := JNull; sell_order_id := JNull;
     cfg := c |}.

(** An exchange that cannot be reached. *)
Definition outage : nat -> Exchange := fun _ => Failed.

(** The client right after one call ran out of retries. *)
Definition after_outage : World :=
  final (_handle_request GET "account" [] true
           (fresh_client outage default_config)).

(** The calls to the client that a run made, with their outcomes. *)
Fixpoint api_events (t : list Event) : list (ApiCall * Res Json) :=
  match t with
  | [] => []
  | EvApi c r :: rest => (c, r) :: api_events rest
  | _ :: rest => api_events rest
  end.

(** [within P]: the frame is kept and every call to the client is in [P]. *)
Definition within (P : ApiCall -> Prop) (w w' : World) (t : list Event) : Prop :=
  frame w w' /\ Forall (fun cr => P (fst cr)) (api_events t).

Definition not_create (c : ApiCall) : Prop :=
  match c with
  | CallCreateOrder _ _ _ _ _ => False
  | _ => True
  end.

Definition never_raises {A} (c : M A) : Prop :=
  forall w, exists a, result (c w) = Ok a.

(** An exchange that answers 200 with the JSON document [j]. *)
Definition answers (j : Json) : Exchange :=
  Answered {| status_code := 200; body := BodyJson j |}.

(** [on_grid x]: [x] is a multiple of 10^-8. *)
Definition on_grid (x : Q) : Prop :=
  exists k : Z, (x == inject_Z k / pow10 8)%Q.

(** What [choose_price] computes when [random()] returns [r]. *)
Definition in_band (c : Config) (bid1 ask1 : Q) : bool :=
  between (MIN_PRICE c) bid1 (MAX_PRICE c)
  && between (MIN_PRICE c) ask1 (MAX_PRICE c).

Definition blend (r : Q) : Q := ((3 # 10) + ((7 # 10) - (3 # 10)) * r)%Q.

Definition raw_price (c : Config) (bid1 ask1 r : Q) : PyFloat :=
  if in_band c bid1 ask1 then Finite (bid1 + (ask1 - bid1) * r)
  else fl_max (MIN_PRICE c)
              (fl_min (MAX_PRICE c) (Finite (bid1 + (ask1 - bid1) * blend r))).

(** The band of [c] runs from [lo] to [hi], both finite. *)
Definition band (c : Config) (lo hi : Q) : Prop :=
  MIN_PRICE c = Finite lo /\ MAX_PRICE c = Finite hi.

(** The order book that the exchange shows, best bid and best ask only. *)
Definition depth_json (bid ask : string) : Json :=
  JObj [("bids", JArr [JArr [JStr bid; JStr "1"]]);
        ("asks", JArr [JArr [JStr ask; JStr "1"]])].

(** A client that is about to fetch a quote of 11.000000004 on both
    sides, inside the band of 10 to 12. *)
Definition fine_quote : World :=
  fresh_client (fun _ => answers (depth_json "11.000000004" "11.000000004"))
               default_config.

(** One entry of the account answer, read the way [get_balances] reads
    it: the asset's name and the numbers that [float] makes of its
    [free] and [locked] fields (0 for a field that is absent). *)
Definition Holding : Type := (string * Q * Q)%type.

Definition holding_json (j : Json) (h : Holding) : Prop :=
  let '(name, free, locked) := h in
  dict_get j "asset" (JStr "") = Ok (JStr name)
  /\ (exists v, dict_get j "free" (JNum 0) = Ok v /\ py_float v = Ok free)
  /\ (exists v, dict_get j "locked" (JNum 0) = Ok v /\ py_float v = Ok locked).

(** The account answer [account] lists the holdings [hs]. *)
Definition account_lists (account : Json) (hs : list Holding) : Prop :=
  exists listed,
    dict_get account "balances" (JArr []) = Ok (JArr listed)
    /\ Forall2 holding_json listed hs.

(** Free plus locked of the holding listed for [symbol] (of the last one
    if it is listed more than once), and 0 when it is not listed. *)
Definition total_balance (hs : list Holding) (symbol : string) : Q :=
  fold_left
    (fun acc (h : Holding) =>
       let '(name, free, locked) := h in
       if String.eqb name symbol then (free + locked)%Q else acc)
    hs 0%Q.

(** The world in which the [try] of [execute_trade] starts. *)
Definition cycle_entry (w : World) : World :=
  set_sell_order_id JNull (set_buy_order_id JNull w).

(** An account with 50.5 USDT free and 60 USDT locked in resting orders,
    and 1000 CREPE. *)
Definition account_with_locked_funds : Json :=
  JObj [("balances",
         JArr [JObj [("asset", JStr "USDT"); ("free", JStr "50.5");
                     ("locked", JStr "60")];
               JObj [("asset", JStr "CREPE"); ("free", JStr "1000");
                     ("locked", JStr "0")]])].

(** [balances[name] = free + locked] *)
Definition put_holding (m : gmap string Q) (h : Holding) : gmap string Q :=
  let '(name, free, locked) := h in <[name := (free + locked)%Q]> m.

(** Orders in the calls of a run.  An order is opened when
    [create_order] returns an answer that carries an order id the code
    can use; a cancel is requested for it when [cancel_order] is called
    with its id, whatever comes of the call. *)
Definition opened (calls : list (ApiCall * Res Json)) (order_id : Json) : Prop :=
  exists symbol side order_type quantity price answer,
    In (CallCreateOrder symbol side order_type quantity price, Ok answer) calls
    /\ dict_get answer "orderId" JNull = Ok order_id
    /\ truthy order_id = true.

Definition cancel_requested (calls : list (ApiCall * Res Json)) (order_id : Json)
    : Prop :=
  exists symbol outcome, In (CallCancelOrder symbol order_id, outcome) calls.

Definition calls_of {A} (r : Run A) : list (ApiCall * Res Json) :=
  api_events (events r).

(** Scripted exchanges for one cycle.  The requests of a cycle come in
    this order: account, account, depth. *)
Definition rejected : Exchange :=
  Answered {| status_code := 400; body := BodyJson (JObj [("code", JNum 30005)]) |}.

(** Balances above the floors and a quote inside the band. *)
Definition funded (n : nat) : Exchange :=
  match n with
  | 0 | 1 => answers account_with_locked_funds
  | _ => answers (depth_json "11.00" "11.02")
  end.

(** A bot that is running, with a fresh client. *)
Definition running_bot (n : nat -> Exchange) (c : Config) : World :=
  set_running true (fresh_client n c).

(** No other thread calls [stop()] while this one runs. *)
Definition quiet (w : World) : Prop := forall n, stop_lands w n = false.

(** [steady w w' t]: the settings are the same in [w'] as in [w], and if
    no [stop()] lands then [running] is the same too. *)
Definition steady (w w' : World) (t : list Event) : Prop :=
  stop_lands w' = stop_lands w
  /\ telegram_sender w' = telegram_sender w
  /\ cfg w' = cfg w
  /\ (quiet w -> running w' = running w).

(** How many times a run called [cancel_all_orders]. *)
Fixpoint cancel_all_calls (calls : list (ApiCall * Res Json)) : nat :=
  match calls with
  | [] => 0
  | (CallCancelAll _, _) :: rest => S (cancel_all_calls rest)
  | _ :: rest => cancel_all_calls rest
  end.

(** The lengths that the sleeps of the worker can have: one second (the
    settlement wait and the slices of the wait between cycles), five
    seconds (after an error in the loop) and a power of two (the back-off
    of the gateway). *)
Definition pace (seconds : Z) : Prop :=
  seconds = 1%Z \/ seconds = 5%Z \/ exists k : nat, seconds = (2 ^ Z.of_nat k)%Z.

Definition paced (w w' : World) (t : list Event) : Prop :=
  Forall pace (sleeps t).


(** The balance guard does not pass in [w]: a balance cannot be read
    (the request for it raises), or one is read and compares under its
    floor. *)
Definition balance_low_or_unread (w : World) : Prop :=
  match get_specific_balance QUOTE_CURRENCY w with
  | (Raise _, _, _) => True
  | (Ok usdt_balance, w1, _) =>
      fl_ltb (Finite usdt_balance) (MIN_USDT_BALANCE (cfg w1)) = true
      \/ match get_specific_balance TOKEN_NAME w1 with
         | (Raise _, _, _) => True
         | (Ok token_balance, w2, _) =>
             fl_ltb (Finite token_balance) (MIN_TOKEN_BALANCE (cfg w2)) = true
         end
  end.
(* ================================================================= *)
(** ** More vocabulary: orders, rows and workers of a run *)

(** The HTTP requests that a run sent, method and endpoint, in order;
    a request that the gateway sends again is listed again. *)
Fixpoint requests (t : list Event) : list (Method * string) :=
  match t with
  | [] => []
  | EvHttp method endpoint _ _ _ :: rest => (method, endpoint) :: requests rest
  | _ :: rest => requests rest
  end.

(** [asks P]: every HTTP request of the run is in [P]. *)
Definition asks (P : Method * string -> Prop) (w w' : World) (t : list Event)
    : Prop :=
  Forall P (requests t).

(** The two requests that read and change nothing at the exchange: the
    account and the order book. *)
Definition reads (request : Method * string) : Prop :=
  request = (GET, "account") \/ request = (GET, "depth").

(** [uncounted]: the run left the count of trades where it was. *)
Definition uncounted (w w' : World) (t : list Event) : Prop :=
  trade_count w' = trade_count w.

(** How many worker threads a run started. *)
Fixpoint workers_spawned (t : list Event) : nat :=
  match t with
  | [] => 0
  | EvSpawnWorker :: rest => S (workers_spawned rest)
  | _ :: rest => workers_spawned rest
  end.

Definition account_only (c : ApiCall) : Prop := c = CallAccount.

(** [unspawned]: the run started no worker. *)
Definition unspawned (w w' : World) (t : list Event) : Prop :=
  workers_spawned t = 0.

(* ================================================================= *)
(** ** Vocabulary of the chat side *)

(** [Keeps R c]: every run of the handler [c] takes the desk to one
    that is in [R] with it. *)
Definition Keeps (R : Desk -> Desk -> Prop) {A} (c : H A) : Prop :=
  forall d, R d (snd (c d)).

(** The entry names the sender of the message, the way [_is_authorized]
    compares them. *)
Definition names_sender (lower : string -> string) (message : Message)
    (entry : UserRef) : Prop :=
  match entry with
  | UserId id => id = from_id message
  | UserName name =>
      exists username,
        from_username message = Some username
        /\ lower name = lower username
  end.

(** The handler left the engine, the settings and the users alone. *)
Definition untouched (d d' : Desk) : Prop :=
  engine d' = engine d
  /\ engine_log d' = engine_log d
  /\ amount_usdt d' = amount_usdt d
  /\ connected_users d' = connected_users d.

(** The handler left the engine and the settings alone, and admitted
    at most the sender of [message]. *)
Definition at_most_admitted (message : Message) (d d' : Desk) : Prop :=
  engine d' = engine d
  /\ engine_log d' = engine_log d
  /\ amount_usdt d' = amount_usdt d
  /\ connected_users d ⊆ connected_users d'
  /\ connected_users d' ⊆ {[from_id message]} ∪ connected_users d
  /\ (size (connected_users d) <= 6 -> size (connected_users d') <= 6).

(** The settings as the chat commands keep them: what the tests of the
    handlers turn away does not get in.  The tests are comparisons of
    floats, so a [nan] passes every one of them. *)
Definition well_formed (c : Config) (amount : PyFloat) : Prop :=
  fl_leb (MIN_PRICE c) (Finite 0) = false
  /\ fl_ltb (MAX_PRICE c) (MIN_PRICE c) = false
  /\ (5 <= MIN_INTERVAL c)%Z /\ (MIN_INTERVAL c <= MAX_INTERVAL c)%Z
  /\ fl_ltb (MIN_USDT_BALANCE c) (Finite 0) = false
  /\ fl_ltb (MIN_TOKEN_BALANCE c) (Finite 0) = false
  /\ fl_leb amount (Finite 0) = false.

(** The same for settings that are all finite. *)
Definition in_range (c : Config) (amount : PyFloat) : Prop :=
  exists lo hi usdt token a,
    MIN_PRICE c = Finite lo /\ MAX_PRICE c = Finite hi
    /\ MIN_USDT_BALANCE c = Finite usdt /\ MIN_TOKEN_BALANCE c = Finite token
    /\ amount = Finite a
    /\ (0 < lo)%Q /\ (lo <= hi)%Q
    /\ (5 <= MIN_INTERVAL c)%Z /\ (MIN_INTERVAL c <= MAX_INTERVAL c)%Z
    /\ (0 <= usdt)%Q /\ (0 <= token)%Q /\ (0 < a)%Q.

(** No setting is a special. *)
Definition all_finite (c : Config) (amount : PyFloat) : Prop :=
  exists lo hi usdt token a,
    MIN_PRICE c = Finite lo /\ MAX_PRICE c = Finite hi
    /\ MIN_USDT_BALANCE c = Finite usdt /\ MIN_TOKEN_BALANCE c = Finite token
    /\ amount = Finite a.

(** A desk for examples: nobody connected, Telegram up. *)
Definition front_desk (w : World) : Desk :=
  {| connected_users := ∅; engine := w; engine_log := [];
     amount_usdt := Finite 10; outbox := []; tg_down := fun _ => false;
     tg_calls := 0 |}.

(** An entry of [ADMIN_USERS] names the sender as an administrator, the
    way [_is_admin] compares them: by an id that the entry reads as, or
    by the user name, when the sender has one. *)
Definition names_admin (lower : string -> string) (isdigit : string -> bool)
    (int_of_str : string -> Res Z) (message : Message) (entry : UserRef) : Prop :=
  entry_id isdigit int_of_str entry = Ok (Some (from_id message))
  \/ exists name username,
       entry = UserName name
       /\ from_username message = Some username
       /\ username <> ""
       /\ lower name = lower username.

(** [guarded]: the engine and the settings are as they were, and no
    next step was registered. *)
Definition guarded (d d' : Desk) : Prop :=
  engine d' = engine d
  /\ engine_log d' = engine_log d
  /\ amount_usdt d' = amount_usdt d
  /\ exists new,
       outbox d' = outbox d ++ new
       /\ Forall (fun o => match o with NextStep _ => False | _ => True end) new.

(** [Admits lower message listed c]: when [c] answers [True], an entry
    of [listed] names the sender and the sender is among the connected
    users. *)
Definition Admits (lower : string -> string) (message : Message)
    (listed : list UserRef) (c : H bool) : Prop :=
  forall d,
    fst (c d) = Ok true ->
    Exists (names_sender lower message) listed
    /\ from_id message ∈ connected_users (snd (c d)).

(** [sound]: settings that were well formed still are. *)
Definition sound (d d' : Desk) : Prop :=
  well_formed (cfg (engine d)) (amount_usdt d) ->
  well_formed (cfg (engine d')) (amount_usdt d').

(** The numbers that the message spells are finite. *)
Definition spells_finite (split : string -> list string)
    (float_of_str : string -> Res PyFloat) (message : Message) : Prop :=
  forall i v,
    float_of_str (nth i (split (text message)) "") = Ok v ->
    exists x, v = Finite x.

(** [finite]: settings that held no special still hold none. *)
Definition finite (d d' : Desk) : Prop :=
  all_finite (cfg (engine d)) (amount_usdt d) ->
  all_finite (cfg (engine d')) (amount_usdt d').

(** [announces P]: what was sent or registered between the two desks
    is all in [P]. *)
Definition announces (P : Out -> Prop) (d d' : Desk) : Prop :=
  exists new, outbox d' = outbox d ++ new /\ Forall P new.

(** The answers of a command that went through: the status text, the
    question before a start and the registration of its answer. *)
Definition went_through (o : Out) : Prop :=
  match o with
  | NextStep _ => True
  | Reply _ (TxtStatus _) | Reply _ (TxtConfirm _) => True
  | Send _ (TxtStatus _) | Send _ (TxtConfirm _) => True
  | _ => False
  end.

(** The reply to an emergency stop that found the bot stopped. *)
Definition says_was_stopped (o : Out) : Prop :=
  match o with
  | Reply _ (TxtStopped false) | Send _ (TxtStopped false) => True
  | _ => False
  end.

(* ================================================================= *)
(** * Proofs *)

Lemma Qlt_bool_iff (x y : Q) : Qlt_bool x y = true <-> (x < y)%Q.
Proof.
  unfold Qlt_bool. rewrite negb_true_iff.
  destruct (Qle_bool y x) eqn:E.
  - apply Qle_bool_iff in E. split; [discriminate | intros H; lra].
  - split; [intros _ | reflexivity].
    destruct (Qlt_le_dec x y) as [H | H]; [exact H |].
    apply Qle_bool_iff in H. congruence.
Qed.

Lemma Qlt_bool_false_iff (x y : Q) : Qlt_bool x y = false <-> (y <= x)%Q.
Proof.
  unfold Qlt_bool. rewrite negb_false_iff. apply Qle_bool_iff.
Qed.

(* ================================================================= *)
(** ** Reasoning about runs *)

Lemma run_eta {A} (r : Run A) : r = (result r, final r, events r).
Proof. destruct r as [[? ?] ?]. reflexivity. Qed.

Lemma prepend_nil {A} (r : Run A) : prepend [] r = r.
Proof. destruct r as [[? ?] ?]. reflexivity. Qed.

Lemma bind_eq {A B} (c : M A) (k : A -> M B) (w : World) :
  bind c k w =
  match result (c w) with
  | Ok a => prepend (events (c w)) (k a (final (c w)))
  | Raise e => (Raise e, final (c w), events (c w))
  end.
Proof.
  unfold bind, prepend. destruct (c w) as [[[a | e] w1] t1]; simpl; [| reflexivity].
  destruct (k a w1) as [[? ?] ?]. reflexivity.
Qed.

Lemma try_except_eq {A} (c : M A) caught (h : Exn -> M A) (w : World) :
  try_except c caught h w =
  match result (c w) with
  | Raise e =>
      if caught e then prepend (events (c w)) (h e (final (c w))) else c w
  | Ok _ => c w
  end.
Proof.
  unfold try_except, prepend. destruct (c w) as [[[a | e] w1] t1]; simpl; [reflexivity |].
  destruct (caught e); [| reflexivity].
  destruct (h e w1) as [[? ?] ?]. reflexivity.
Qed.

(** *** Relations that every step of a computation keeps

  [R w w' t] relates the world before, the world after and the events
  in between.  When [R] holds of the empty run and of two runs put end
  to end, it holds of a computation as soon as it holds of its parts. *)
Section Respects.
Variable R : World -> World -> list Event -> Prop.
Hypothesis R_refl : forall w, R w w [].
Hypothesis R_trans :
  forall w w1 w2 t1 t2, R w w1 t1 -> R w1 w2 t2 -> R w w2 (t1 ++ t2).

Lemma respects_ret {A} (a : A) : Respects R (ret a).
Proof. intros w. apply R_refl. Qed.

Lemma respects_raise {A} (e : Exn) : Respects R (@raise A e).
Proof. intros w. apply R_refl. Qed.

Lemma respects_lift {A} (r : Res A) : Respects R (lift r).
Proof. intros w. apply R_refl. Qed.

Lemma respects_get_world : Respects R get_world.
Proof. intros w. apply R_refl. Qed.

Lemma respects_bind {A B} (c : M A) (k : A -> M B) :
  Respects R c -> (forall a, Respects R (k a)) -> Respects R (bind c k).
Proof.
  intros Hc Hk w. rewrite bind_eq.
  destruct (result (c w)) as [a | e]; simpl; [| apply Hc].
  eapply R_trans; [apply Hc | apply Hk].
Qed.

Lemma respects_try_except {A} (c : M A) caught (h : Exn -> M A) :
  Respects R c -> (forall e, Respects R (h e)) -> Respects R (try_except c caught h).
Proof.
  intros Hc Hh w. rewrite try_except_eq.
  destruct (result (c w)) as [a | e]; [apply Hc |].
  destruct (caught e); [| apply Hc].
  simpl. eapply R_trans; [apply Hc | apply Hh].
Qed.

Lemma respects_try_finally {A} (c : M A) (f : M unit) :
  Respects R c -> Respects R f -> Respects R (try_finally c f).
Proof.
  intros Hc Hf w. unfold try_finally.
  specialize (Hc w). destruct (c w) as [[r w1] t1]. simpl in Hc.
  specialize (Hf w1). destruct (f w1) as [[[u | e] w2] t2]; simpl in *;
    eapply R_trans; eassumption.
Qed.

Lemma respects_attempt {A} (c : M A) : Respects R c -> Respects R (attempt c).
Proof.
  intros Hc w. unfold attempt. specialize (Hc w).
  destruct (c w) as [[r w1] t1]. exact Hc.
Qed.

Lemma respects_if {A} (b : bool) (c1 c2 : M A) :
  Respects R c1 -> Respects R c2 -> Respects R (if b then c1 else c2).
Proof. destruct b; auto. Qed.
End Respects.

(** Closes goals [Respects R c] by the structure of [c]; [Hr] and [Ht]
    are the two laws of [R], and the leaves are left to [tac]. *)
Ltac respects_with Hr Ht tac :=
  repeat first
    [ assumption
    | lazymatch goal with
      | |- Respects _ (ret _) => apply (respects_ret _ Hr)
      | |- Respects _ (raise _) => apply (respects_raise _ Hr)
      | |- Respects _ (lift _) => apply (respects_lift _ Hr)
      | |- Respects _ get_world => apply (respects_get_world _ Hr)
      | |- Respects _ (bind _ _) => apply (respects_bind _ Ht); [| intros ?]
      | |- Respects _ (try_except _ _ _) =>
          apply (respects_try_except _ Ht); [| intros ?]
      | |- Respects _ (try_finally _ _) => apply (respects_try_finally _ Ht)
      | |- Respects _ (attempt _) => apply respects_attempt
      | |- Respects _ (if ?b then _ else _) => destruct b
      | |- Respects _ (match ?x with _ => _ end) => destruct x
      end
    | solve [tac] ].

(* ================================================================= *)
(** ** What the client leaves untouched *)

Lemma frame_refl w : frame w w.
Proof. constructor; auto. Qed.

Lemma frame_trans w w1 w2 : frame w w1 -> frame w1 w2 -> frame w w2.
Proof.
  intros [] []. constructor; try congruence; try lia; auto.
  intros Hq. rewrite frame_running_quiet1; [auto |].
  intros n. rewrite frame_stop_lands0. apply Hq.
Qed.

Lemma gate_refl w : gate w w [].
Proof. split; [apply frame_refl | constructor]. Qed.

Lemma gate_trans w w1 w2 t1 t2 :
  gate w w1 t1 -> gate w1 w2 t2 -> gate w w2 (t1 ++ t2).
Proof.
  intros [F1 L1] [F2 L2]. split; [eapply frame_trans; eauto |].
  apply Forall_app. auto.
Qed.

Lemma frame_sleep w seconds : frame w (final (sleep seconds w)).
Proof.
  unfold sleep. simpl.
  destruct (stop_lands w (slept w)) eqn:E; constructor; simpl; auto; try lia;
    intros H; try discriminate; rewrite H in E; discriminate.
Qed.

Lemma gate_sleep seconds : Respects gate (sleep seconds).
Proof.
  intros w. split; [apply frame_sleep |].
  simpl. repeat constructor.
Qed.

Lemma gate_send method endpoint params signed :
  Respects gate (send method endpoint params signed).
Proof.
  intros w. unfold send.
  destruct method; simpl; try apply gate_refl;
    (split; [constructor; simpl; auto | repeat constructor]).
Qed.

Lemma gate_set_retry_count (f : World -> nat) :
  Respects gate (modify (fun w => set_retry_count (f w) w)).
Proof. intros w. split; [constructor; simpl; auto | constructor]. Qed.

Lemma gate_reset_on_success response : Respects gate (reset_on_success response).
Proof.
  unfold reset_on_success.
  destruct response as [r |]; [| apply (respects_ret _ gate_refl)].
  destruct (status_code r =? 200)%Z; [| apply (respects_ret _ gate_refl)].
  apply (gate_set_retry_count (fun _ => 0)).
Qed.

Ltac gate_tac :=
  respects_with gate_refl gate_trans
    ltac:(first [ simple apply gate_sleep | simple apply gate_send
                | simple apply gate_reset_on_success
                | simple apply (gate_set_retry_count (fun w => S (retry_count w))) ]).

Lemma gate_handle_request_body again method endpoint params signed :
  Respects gate again ->
  Respects gate (handle_request_body again method endpoint params signed).
Proof.
  intros Ha.
  unfold handle_request_body, on_response, on_request_exception,
    retry_after_backoff.
  gate_tac.
Qed.

Lemma gate_handle_request_fuel fuel method endpoint params signed :
  Respects gate (handle_request_fuel fuel method endpoint params signed).
Proof.
  induction fuel as [| fuel IH]; simpl.
  - apply (respects_raise _ gate_refl).
  - apply gate_handle_request_body, IH.
Qed.

Lemma gate_handle_request method endpoint params signed :
  Respects gate (_handle_request method endpoint params signed).
Proof. intros w. apply gate_handle_request_fuel. Qed.

(* ================================================================= *)
(** ** The gateway, one attempt at a time *)

Lemma retryable_not_200 (status : Z) :
  retryable status = true -> (status =? 200)%Z = false.
Proof.
  unfold retryable. simpl. intros H.
  destruct (Z.eqb_spec status 200) as [-> | ?]; [discriminate | reflexivity].
Qed.

Ltac unfold_body :=
  unfold handle_request_body, attempt, try_finally, try_except, send,
    on_response, on_request_exception, retry_after_backoff, reset_on_success,
    error_data, response_json, lift, get_world, modify, sleep, ret, raise,
    prepend, after_backoff, bind.

Lemma body_retry again method endpoint params signed w :
  method <> OtherMethod ->
  transient (net w (sent w)) = true ->
  retry_count w < max_retries w ->
  contained again ->
  handle_request_body again method endpoint params signed w =
  prepend [EvHttp method endpoint params signed (net w (sent w));
           EvSleep (2 ^ Z.of_nat (S (retry_count w)))]
          (again (after_backoff w)).
Proof.
  intros Hm Ht Hlt Hc.
  apply Nat.ltb_lt in Hlt.
  unfold_body.
  destruct method; try congruence;
    destruct (net w (sent w)) as [| [status b]] eqn:En; simpl in *;
    rewrite ?(retryable_not_200 _ Ht), ?Ht, ?Hlt; simpl;
    try (destruct b; simpl; rewrite ?Ht, ?Hlt; simpl).
  all: match goal with
       | |- context [events (?f ?w')] =>
           pose proof (Hc w') as Hc';
           destruct (f w') as [[[a | e] w2] t2]; simpl in *;
           rewrite ?app_nil_r;
           [| try rewrite (Hc' e eq_refl); simpl; rewrite ?app_nil_r];
           reflexivity
       end.
Qed.

Lemma body_exhausted again method endpoint params signed w :
  method <> OtherMethod ->
  transient (net w (sent w)) = true ->
  max_retries w <= retry_count w ->
  handle_request_body again method endpoint params signed w =
  (Raise (terminal_error (net w (sent w))),
   set_sent (S (sent w)) w,
   [EvHttp method endpoint params signed (net w (sent w))]).
Proof.
  intros Hm Ht Hge.
  apply Nat.ltb_ge in Hge.
  unfold_body. unfold terminal_error.
  destruct method; try congruence;
    destruct (net w (sent w)) as [| [status b]] eqn:En; simpl in *;
    rewrite ?(retryable_not_200 _ Ht), ?Ht, ?Hge; simpl;
    try (destruct b; simpl; rewrite ?Ht, ?Hge; simpl);
    rewrite ?andb_false_r; reflexivity.
Qed.

Lemma body_success again method endpoint params signed w j :
  method <> OtherMethod ->
  net w (sent w) = Answered (mkResponse 200 (BodyJson j)) ->
  handle_request_body again method endpoint params signed w =
  (Ok j,
   set_retry_count 0 (set_sent (S (sent w)) w),
   [EvHttp method endpoint params signed (net w (sent w))]).
Proof.
  intros Hm En. unfold_body.
  destruct method; try congruence; rewrite En; reflexivity.
Qed.

Lemma contained_body again method endpoint params signed :
  contained again ->
  contained (handle_request_body again method endpoint params signed).
Proof.
  intros Hc w e. unfold_body.
  destruct method; simpl;
    try (intros [= <-]; reflexivity);
    destruct (net w (sent w)) as [| [status b]]; simpl.
  all: repeat match goal with
         | |- context [if ?c then _ else _] => destruct c eqn:?; simpl
         | |- context [match ?b with BodyEmpty => _ | _ => _ end] =>
             destruct b; simpl
         end.
  all: try (intros [= <-]; reflexivity).
  all: try discriminate.
  all: match goal with
       | |- context [let (_, _) := ?f ?w' in _] =>
           pose proof (Hc w') as Hc';
           destruct (f w') as [[[a' | e'] w2] t2]; simpl in *;
           try discriminate;
           try rewrite (Hc' e' eq_refl); simpl;
           try (intros [= <-]; apply (Hc' e' eq_refl))
       end.
Qed.

Lemma contained_handle_request_fuel fuel method endpoint params signed :
  contained (handle_request_fuel fuel method endpoint params signed).
Proof.
  induction fuel as [| fuel IH]; simpl.
  - intros w e [= <-]. reflexivity.
  - apply contained_body, IH.
Qed.

Lemma contained_handle_request method endpoint params signed :
  contained (_handle_request method endpoint params signed).
Proof. intros w e. apply contained_handle_request_fuel. Qed.

(** The body only calls [again] after bumping a counter that was under
    the bound. *)
Lemma body_cong again1 again2 method endpoint params signed w :
  contained again2 ->
  (retry_count w < max_retries w ->
   forall w', retry_count w' = S (retry_count w) ->
              max_retries w' = max_retries w ->
              again1 w' = again2 w') ->
  handle_request_body again1 method endpoint params signed w =
  handle_request_body again2 method endpoint params signed w.
Proof.
  intros Hc H. unfold_body.
  destruct method; simpl; try reflexivity;
    destruct (net w (sent w)) as [| [status b]]; simpl.
  all: repeat match goal with
         | |- context [if ?c then _ else _] => destruct c eqn:?; simpl
         | |- context [match ?b with BodyEmpty => _ | _ => _ end] =>
             destruct b; simpl
         end.
  all: try reflexivity.
  all: match goal with
       | E : (retry_count ?v <? max_retries ?v)%nat = true |- _ =>
           apply Nat.ltb_lt in E; specialize (H E)
       | E : _ && (retry_count ?v <? max_retries ?v)%nat = true |- _ =>
           apply andb_prop in E; destruct E as [_ E];
           apply Nat.ltb_lt in E; specialize (H E)
       end.
  all: rewrite H by reflexivity.
  all: try reflexivity.
  all: match goal with
       | |- context [let (_, _) := ?f ?w' in _] =>
           pose proof (Hc w') as Hc';
           destruct (f w') as [[[a' | e'] w2] t2]; simpl in *;
           try reflexivity;
           rewrite (Hc' e' eq_refl); reflexivity
       end.
Qed.

Lemma handle_request_fuel_enough fuel method endpoint params signed w :
  max_retries w - retry_count w < fuel ->
  handle_request_fuel fuel method endpoint params signed w =
  _handle_request method endpoint params signed w.
Proof.
  revert w. induction fuel as [| fuel IH]; intros w Hf; [lia |].
  unfold _handle_request. simpl.
  apply body_cong; [apply contained_handle_request_fuel |].
  intros Hlt w' Hrc Hmax.
  rewrite IH by lia.
  unfold _handle_request.
  replace (max_retries w - retry_count w) with (S (max_retries w' - retry_count w'))
    by lia.
  reflexivity.
Qed.

(** The equation of the Python definition. *)
Lemma handle_request_unfold method endpoint params signed w :
  _handle_request method endpoint params signed w =
  handle_request_body (_handle_request method endpoint params signed)
                      method endpoint params signed w.
Proof.
  unfold _handle_request at 1. simpl.
  apply body_cong; [apply contained_handle_request |].
  intros Hlt w' Hrc Hmax.
  apply handle_request_fuel_enough. lia.
Qed.

Lemma handle_request_no_recursion_error_upto k :
  forall method endpoint params signed w,
    max_retries w - retry_count w <= k ->
    result (_handle_request method endpoint params signed w)
    <> Raise RecursionError.
Proof.
  induction k as [| k IH]; intros method endpoint params signed w Hk;
    rewrite handle_request_unfold; unfold_body;
    (destruct method; simpl; try discriminate;
     destruct (net w (sent w)) as [| [status b]]; simpl).
  all: repeat match goal with
         | |- context [if ?c then _ else _] => destruct c eqn:?; simpl
         | |- context [match ?b with BodyEmpty => _ | _ => _ end] =>
             destruct b; simpl
         end.
  all: try discriminate.
  all: match goal with
       | E : (retry_count ?v <? max_retries ?v)%nat = true |- _ =>
           apply Nat.ltb_lt in E
       | E : _ && (retry_count ?v <? max_retries ?v)%nat = true |- _ =>
           apply andb_prop in E; destruct E as [_ E]; apply Nat.ltb_lt in E
       end.
  all: try lia.
  all: match goal with
       | |- context [let (_, _) := _handle_request ?m ?e ?p ?s ?w' in _] =>
           pose proof (IH m e p s w') as IH';
           pose proof (contained_handle_request m e p s w') as Hc;
           destruct (_handle_request m e p s w') as [[[a' | e'] w2] t2];
           simpl in *; try discriminate;
           try rewrite (Hc e' eq_refl); simpl;
           intros [= ->]; apply IH'; [lia | reflexivity]
       end.
Qed.

(** The interpreter's stack is not what ends a call. *)
Lemma handle_request_no_recursion_error method endpoint params signed w :
  result (_handle_request method endpoint params signed w) <> Raise RecursionError.
Proof. eapply handle_request_no_recursion_error_upto. reflexivity. Qed.

(* ================================================================= *)
(** ** Retries and back-off *)

Lemma backoff_delays_increasing from count :
  Sorted Z.lt (backoff_delays from count).
Proof.
  unfold backoff_delays. revert from.
  induction count as [| count IH]; intros from; simpl; constructor.
  - apply IH.
  - destruct count as [| count]; simpl; constructor.
    apply Z.pow_lt_mono_r; lia.
Qed.

(** A call that only meets transient failures: it retries until the
    counter reaches the bound, doubling the delay each time, and then
    raises. *)
Lemma persistent_failure k :
  forall method endpoint params signed w,
    method <> OtherMethod ->
    max_retries w - retry_count w = k ->
    (forall n, sent w <= n -> transient (net w n) = true) ->
    let r := _handle_request method endpoint params signed w in
    result r = Raise (terminal_error (net w (sent w + k)))
    /\ sleeps (events r) = backoff_delays (retry_count w) k
    /\ attempts (events r) = S k
    /\ retry_count (final r) = retry_count w + k.
Proof.
  induction k as [| k IH]; intros method endpoint params signed w Hm Hk Hnet r;
    subst r; rewrite handle_request_unfold.
  - rewrite body_exhausted by (auto; lia). simpl.
    rewrite !Nat.add_0_r. auto.
  - rewrite body_retry
      by (auto using contained_handle_request; lia).
    specialize (IH method endpoint params signed (after_backoff w) Hm).
    assert (Hw : forall x, after_backoff w = x ->
                 net x = net w /\ sent x = S (sent w)
                 /\ retry_count x = S (retry_count w)
                 /\ max_retries x = max_retries w).
    { intros x <-. unfold after_backoff.
      destruct (stop_lands w (slept w)); simpl; auto. }
    destruct (Hw _ eq_refl) as (Hn & Hs & Hr & Hx).
    rewrite Hn, Hs, Hr, Hx in IH.
    destruct IH as (R1 & R2 & R3 & R4); [lia | intros n Hle; apply Hnet; lia |].
    simpl. rewrite R1, R2, R3, R4.
    replace (S (sent w) + k) with (sent w + S k) by lia.
    split; [reflexivity |]. split; [reflexivity |]. split; [reflexivity | lia].
Qed.

(** C1, as stated, fails: a call only gets the retries that earlier
    failed calls have left.  The counter is still at the bound when a
    call has exhausted it, so the next call that fails is not retried at
    all. *)
Lemma C1_counterexample_stale_counter :
  ~ (forall w : World,
       (forall n, transient (net w n) = true) ->
       length (sleeps (events (_handle_request GET "account" [] true w)))
       = max_retries w).
Proof.
  intros H.
  specialize (H after_outage (fun _ => eq_refl)).
  vm_compute in H. discriminate.
Qed.

(** C1 (amended): a call that starts with the retry counter at zero and
    only meets transient failures (no answer, or status 429, 500, 502,
    503 or 504) makes exactly [max_retries] retries, sleeping 2^k seconds
    before the k-th one, and then raises; it ends after
    [max_retries + 1] attempts. *)
Theorem C1_backoff_then_terminal_failure :
  forall method endpoint params signed w,
    method <> OtherMethod ->
    retry_count w = 0 ->
    (forall n, sent w <= n -> transient (net w n) = true) ->
    let r := _handle_request method endpoint params signed w in
    result r = Raise (terminal_error (net w (sent w + max_retries w)))
    /\ sleeps (events r)
       = map (fun k => (2 ^ Z.of_nat k)%Z) (seq 1 (max_retries w))
    /\ length (sleeps (events r)) = max_retries w
    /\ Sorted Z.lt (sleeps (events r))
    /\ attempts (events r) = S (max_retries w).
Proof.
  intros method endpoint params signed w Hm H0 Hnet r.
  destruct (persistent_failure (max_retries w) method endpoint params signed w)
    as (R1 & R2 & R3 & _); auto; [lia |].
  fold r in R1, R2, R3. rewrite H0 in R2.
  repeat split; auto.
  - rewrite R2. unfold backoff_delays. rewrite length_map, length_seq. reflexivity.
  - rewrite R2. apply backoff_delays_increasing.
Qed.

Lemma C1_witness :
  let r := _handle_request GET "account" [] true
             (fresh_client outage default_config) in
  result r = Raise RequestFailed
  /\ sleeps (events r) = [2; 4; 8]%Z
  /\ length (sleeps (events r)) = 3
  /\ Sorted Z.lt (sleeps (events r))
  /\ attempts (events r) = 4.
Proof.
  apply (C1_backoff_then_terminal_failure GET "account" [] true
           (fresh_client outage default_config)).
  - discriminate.
  - reflexivity.
  - intros n _. reflexivity.
Defined.

(* ================================================================= *)
(** ** The calls of the client *)

Lemma api_events_app t1 t2 :
  api_events (t1 ++ t2) = api_events t1 ++ api_events t2.
Proof.
  induction t1 as [| e t1 IH]; simpl; [reflexivity |].
  destruct e; simpl; rewrite IH; reflexivity.
Qed.

Lemma api_events_low t : Forall low_event t -> api_events t = [].
Proof.
  induction 1 as [| e t He _ IH]; simpl; [reflexivity |].
  destruct e; simpl in *; try contradiction; exact IH.
Qed.

Lemma within_refl P w : within P w w [].
Proof. split; [apply frame_refl | constructor]. Qed.

Lemma within_trans P w w1 w2 t1 t2 :
  within P w w1 t1 -> within P w1 w2 t2 -> within P w w2 (t1 ++ t2).
Proof.
  intros [F1 L1] [F2 L2]. split; [eapply frame_trans; eauto |].
  rewrite api_events_app. apply Forall_app. auto.
Qed.

Lemma gate_within P {A} (c : M A) : Respects gate c -> Respects (within P) c.
Proof.
  intros H w. destruct (H w) as [F L]. split; [exact F |].
  rewrite (api_events_low _ L). constructor.
Qed.

Lemma api_eq c request w :
  api c request w =
  (result (request w), final (request w),
   events (request w) ++ [EvApi c (result (request w))]).
Proof. unfold api. destruct (request w) as [[r w1] t1]. reflexivity. Qed.

Lemma api_calls c request w :
  Respects gate request ->
  api_events (events (api c request w)) = [(c, result (api c request w))].
Proof.
  intros H. rewrite api_eq. simpl. rewrite api_events_app.
  destruct (H w) as [_ L]. rewrite (api_events_low _ L). reflexivity.
Qed.

Lemma within_api (P : ApiCall -> Prop) c request :
  P c -> Respects gate request -> Respects (within P) (api c request).
Proof.
  intros Hp H w. split.
  - rewrite api_eq. simpl. apply H.
  - rewrite api_calls by exact H. repeat constructor. exact Hp.
Qed.

Lemma within_sleep P seconds : Respects (within P) (sleep seconds).
Proof. apply gate_within, gate_sleep. Qed.

Lemma within_random P : Respects (within P) random.
Proof.
  intros w. split; [constructor; simpl; auto | constructor].
Qed.

Lemma within_notify P n : Respects (within P) (notify n).
Proof.
  intros w. unfold notify. rewrite bind_eq. simpl.
  destruct (telegram_sender w); simpl;
    (split; [apply frame_refl | constructor]).
Qed.

Ltac within_tac :=
  respects_with (within_refl not_create) (within_trans not_create)
    ltac:(first [ simple apply within_sleep | simple apply within_random
                | simple apply within_notify
                | simple apply within_api;
                  [exact I | simple apply gate_handle_request] ]).

Lemma within_get_specific_balance symbol :
  Respects (within not_create) (get_specific_balance symbol).
Proof.
  unfold get_specific_balance, get_balances, get_account_info. within_tac.
Qed.

Lemma within_check_balances : Respects (within not_create) _check_balances.
Proof.
  unfold _check_balances.
  respects_with (within_refl not_create) (within_trans not_create)
    ltac:(simple apply within_get_specific_balance).
Qed.

Lemma within_decide_price : Respects (within not_create) _decide_price.
Proof.
  unfold _decide_price, choose_price, get_bid_ask, get_orderbook, uniform.
  within_tac.
Qed.

Lemma within_cancel_order symbol order_id :
  Respects (within not_create) (cancel_order symbol order_id).
Proof. unfold cancel_order. within_tac. Qed.

Lemma within_check_and_cancel_order symbol order_id :
  Respects (within not_create) (check_and_cancel_order symbol order_id).
Proof.
  unfold check_and_cancel_order, cancel_quietly, get_order_status.
  respects_with (within_refl not_create) (within_trans not_create)
    ltac:(first [ simple apply within_cancel_order
                | simple apply within_api;
                  [exact I | simple apply gate_handle_request] ]).
Qed.

Lemma never_raises_try_except {A} (c : M A) (h : Exn -> M A) :
  (forall e, never_raises (h e)) -> never_raises (try_except c any_exception h).
Proof.
  intros Hh w. rewrite try_except_eq.
  destruct (result (c w)) as [a | e] eqn:E; [eauto |].
  simpl. apply Hh.
Qed.

Lemma never_raises_ret {A} (a : A) : never_raises (ret a).
Proof. intros w. eauto. Qed.

Lemma never_raises_bind {A B} (c : M A) (k : A -> M B) :
  never_raises c -> (forall a, never_raises (k a)) -> never_raises (bind c k).
Proof.
  intros Hc Hk w. rewrite bind_eq.
  destruct (Hc w) as [a ->]. simpl. apply Hk.
Qed.

Lemma check_balances_never_raises : never_raises _check_balances.
Proof.
  apply never_raises_try_except. intros e. apply never_raises_ret.
Qed.

Lemma decide_price_never_raises : never_raises _decide_price.
Proof.
  apply never_raises_try_except. intros e.
  apply never_raises_bind; [intros w; simpl; eauto |].
  intros w. apply never_raises_ret.
Qed.

Lemma check_and_cancel_order_never_raises symbol order_id :
  never_raises (check_and_cancel_order symbol order_id).
Proof.
  apply never_raises_try_except. intros e.
  apply never_raises_bind; [| intros ?; apply never_raises_ret].
  apply never_raises_try_except. intros ?. apply never_raises_ret.
Qed.

(* ================================================================= *)
(** ** Rounding *)

Lemma round_half_even_near (x : Q) :
  (x - (1 # 2) <= inject_Z (round_half_even x) <= x + (1 # 2))%Q.
Proof.
  unfold round_half_even.
  pose proof (Qfloor_le x) as Hlo. pose proof (Qlt_floor x) as Hhi.
  rewrite inject_Z_plus in Hhi. change (inject_Z 1) with 1%Q in Hhi.
  destruct (Qcompare_spec (x - inject_Z (Qfloor x)) (1 # 2)) as [E | L | G].
  - destruct (Z.even (Qfloor x)).
    + lra.
    + rewrite inject_Z_plus. change (inject_Z 1) with 1%Q. lra.
  - lra.
  - rewrite inject_Z_plus. change (inject_Z 1) with 1%Q. lra.
Qed.

Lemma round_half_even_floor (x : Q) : (Qfloor x <= round_half_even x)%Z.
Proof.
  unfold round_half_even.
  destruct (x - inject_Z (Qfloor x) ?= 1 # 2)%Q; [destruct (Z.even _) | |]; lia.
Qed.

Lemma round_half_even_ge (x : Q) (k : Z) :
  (inject_Z k <= x)%Q -> (k <= round_half_even x)%Z.
Proof.
  intros H. apply Qfloor_resp_le in H. rewrite Qfloor_Z in H.
  pose proof (round_half_even_floor x). lia.
Qed.

Lemma round_half_even_le (x : Q) (k : Z) :
  (x <= inject_Z k)%Q -> (round_half_even x <= k)%Z.
Proof.
  intros H.
  pose proof (round_half_even_near x) as [_ Hn].
  assert (Hq : (inject_Z (round_half_even x) < inject_Z (k + 1))%Q).
  { rewrite inject_Z_plus. change (inject_Z 1) with 1%Q. lra. }
  rewrite <- Zlt_Qlt in Hq. lia.
Qed.

Lemma pow10_pos n : (0 < pow10 n)%Q.
Proof.
  unfold pow10. change 0%Q with (inject_Z 0). rewrite <- Zlt_Qlt.
  apply Z.pow_pos_nonneg; lia.
Qed.

Lemma py_round_near (x : Q) (n : nat) :
  (x - (1 # 2) / pow10 n <= py_round x n <= x + (1 # 2) / pow10 n)%Q.
Proof.
  unfold py_round.
  pose proof (pow10_pos n) as Hp.
  pose proof (round_half_even_near (x * pow10 n)) as [H1 H2].
  split.
  - apply Qle_shift_div_l; [exact Hp |].
    assert (E : ((x - (1 # 2) / pow10 n) * pow10 n == x * pow10 n - (1 # 2))%Q) by (field; lra).
    rewrite E.
    exact H1.
  - apply Qle_shift_div_r; [exact Hp |].
    assert (E : ((x + (1 # 2) / pow10 n) * pow10 n == x * pow10 n + (1 # 2))%Q) by (field; lra).
    rewrite E.
    exact H2.
Qed.

Lemma py_round_ge_grid (a x : Q) :
  on_grid a -> (a <= x)%Q -> (a <= py_round x 8)%Q.
Proof.
  intros [k Hk] H. unfold py_round.
  pose proof (pow10_pos 8) as Hp.
  rewrite Hk. apply Qle_shift_div_l; [exact Hp |].
  assert (E : (inject_Z k / pow10 8 * pow10 8 == inject_Z k)%Q) by (field; lra).
  rewrite E.
  rewrite <- Zle_Qle. apply round_half_even_ge.
  rewrite Hk in H. rewrite <- E.
  apply Qmult_le_compat_r; [exact H | lra].
Qed.

Lemma py_round_le_grid (b x : Q) :
  on_grid b -> (x <= b)%Q -> (py_round x 8 <= b)%Q.
Proof.
  intros [k Hk] H. unfold py_round.
  pose proof (pow10_pos 8) as Hp.
  rewrite Hk. apply Qle_shift_div_r; [exact Hp |].
  assert (E : (inject_Z k / pow10 8 * pow10 8 == inject_Z k)%Q) by (field; lra).
  rewrite E.
  rewrite <- Zle_Qle. apply round_half_even_le.
  rewrite Hk in H. rewrite <- E.
  apply Qmult_le_compat_r; [exact H | lra].
Qed.

Lemma py_min_spec (a b : Q) :
  (py_min a b <= a /\ py_min a b <= b /\ (py_min a b = a \/ py_min a b = b))%Q.
Proof.
  unfold py_min. destruct (Qlt_bool b a) eqn:E.
  - apply Qlt_bool_iff in E. repeat split; auto; lra.
  - apply Qlt_bool_false_iff in E. repeat split; auto; lra.
Qed.

Lemma py_max_spec (a b : Q) :
  (a <= py_max a b /\ b <= py_max a b /\ (py_max a b = a \/ py_max a b = b))%Q.
Proof.
  unfold py_max. destruct (Qlt_bool a b) eqn:E.
  - apply Qlt_bool_iff in E. repeat split; auto; lra.
  - apply Qlt_bool_false_iff in E. repeat split; auto; lra.
Qed.

(** [max(lo, min(hi, x))] lands in a band that is one. *)
Lemma clamp_in_band (lo hi x : Q) :
  (lo <= hi -> lo <= py_max lo (py_min hi x) <= hi)%Q.
Proof.
  intros H.
  destruct (py_max_spec lo (py_min hi x)) as (M1 & M2 & [E | E]);
    rewrite E in *.
  - lra.
  - destruct (py_min_spec hi x) as (N1 & N2 & _). lra.
Qed.

Lemma between_iff (lo x hi : Q) :
  between (Finite lo) x (Finite hi) = true <-> (lo <= x <= hi)%Q.
Proof.
  unfold between. simpl. rewrite andb_true_iff, !Qle_bool_iff. reflexivity.
Qed.

(** The clamp on floats is the clamp on rationals when the band is
    finite. *)
Lemma fl_clamp_finite (lo hi x : Q) :
  fl_max (Finite lo) (fl_min (Finite hi) (Finite x))
  = Finite (py_max lo (py_min hi x)).
Proof.
  unfold fl_max, fl_min, py_max, py_min. simpl.
  destruct (Qlt_bool x hi); simpl; destruct (Qlt_bool lo _); reflexivity.
Qed.

(** A sum inside the range of the doubles is finite. *)
Lemma fl_of_sum_finite (s : Q) :
  (- FLOAT_OVERFLOW < s < FLOAT_OVERFLOW)%Q -> fl_of_sum s = Finite s.
Proof.
  intros [Hlo Hhi]. unfold fl_of_sum.
  destruct (Qle_bool FLOAT_OVERFLOW s) eqn:E1.
  - apply Qle_bool_iff in E1. lra.
  - destruct (Qle_bool s (- FLOAT_OVERFLOW)) eqn:E2; [| reflexivity].
    apply Qle_bool_iff in E2. lra.
Qed.



(* ================================================================= *)
(** ** The price of a cycle *)

Lemma within_get_bid_ask symbol :
  Respects (within not_create) (get_bid_ask symbol).
Proof. unfold get_bid_ask, get_orderbook. within_tac. Qed.

Lemma decide_price_from_quote w bid ask w1 t1 :
  get_bid_ask SYMBOL w = (Ok (bid, ask), w1, t1) ->
  result (_decide_price w)
  = Ok (fl_round (raw_price (cfg w) bid ask (rnd w1 (drawn w1))) 8).
Proof.
  intros H.
  pose proof (within_get_bid_ask SYMBOL w) as [F _]. rewrite H in F. simpl in F.
  unfold _decide_price. rewrite try_except_eq, bind_eq, H. simpl.
  rewrite <- (frame_cfg _ _ F).
  unfold raw_price, in_band, choose_price, uniform, random, blend,
    get_world, ret, bind.
  simpl.
  destruct (between (MIN_PRICE (cfg w1)) bid (MAX_PRICE (cfg w1))
            && between (MIN_PRICE (cfg w1)) ask (MAX_PRICE (cfg w1)));
    reflexivity.
Qed.

Lemma decide_price_fallback_run w e w1 t1 :
  get_bid_ask SYMBOL w = (Raise e, w1, t1) ->
  result (_decide_price w)
  = Ok (fl_half (fl_add (MIN_PRICE (cfg w)) (MAX_PRICE (cfg w)))).
Proof.
  intros H.
  pose proof (within_get_bid_ask SYMBOL w) as [F _]. rewrite H in F. simpl in F.
  unfold _decide_price. rewrite try_except_eq, bind_eq, H. simpl.
  rewrite (frame_cfg _ _ F). reflexivity.
Qed.

Lemma blend_range (r : Q) :
  (0 <= r <= 1 -> (3 # 10) <= blend r <= (7 # 10))%Q.
Proof. unfold blend. intros H. lra. Qed.

(** C3, as stated, fails: rounding to 8 decimals can take the price out
    of [bid, ask].  With both sides of the book at 11.000000004, inside
    the band [10, 12], the decided price is 11, under the bid. *)
Lemma C3_counterexample_rounding_leaves_spread :
  exists bid ask price : Q,
    result (get_bid_ask SYMBOL fine_quote) = Ok (bid, ask)
    /\ in_band (cfg fine_quote) bid ask = true
    /\ result (_decide_price fine_quote) = Ok (Finite price)
    /\ (price < bid)%Q.
Proof.
  do 3 eexists.
  split; [vm_compute; reflexivity |].
  split; [vm_compute; reflexivity |].
  split; [vm_compute; reflexivity |].
  vm_compute. reflexivity.
Qed.

(** C3 (amended): after a successful bid/ask fetch the decided price is
    [raw] rounded to 8 decimals, where [raw] is [bid + (ask - bid) * r]
    for the draw [r] when bid and ask both lie in [min_price, max_price],
    and otherwise [bid] plus the fraction [0.3 + 0.4 * r] of the spread,
    clamped into [min_price, max_price].  [raw] lies in [bid, ask] in the
    first case (for bid <= ask) and in [min_price, max_price] in the
    second (for min_price <= max_price); the rounded price is within
    0.5e-8 of [raw], and lies in the same interval when the ends of the
    interval are multiples of 1e-8.  The settings are floats: the clamp
    is stated for every band, and its bounds for a band of two finite
    numbers. *)
Theorem C3_price_decision :
  forall w bid ask w1 t1,
    get_bid_ask SYMBOL w = (Ok (bid, ask), w1, t1) ->
    let c := cfg w in
    let r := rnd w1 (drawn w1) in
    let raw := raw_price c bid ask r in
    let price := fl_round raw 8 in
    (0 <= r <= 1)%Q ->
    result (_decide_price w) = Ok price
    /\ (forall q,
          raw = Finite q ->
          price = Finite (py_round q 8)
          /\ (q - (1 # 2) / pow10 8 <= py_round q 8 <= q + (1 # 2) / pow10 8)%Q)
    /\ (in_band c bid ask = true ->
        let q := (bid + (ask - bid) * r)%Q in
        raw = Finite q
        /\ ((bid <= ask)%Q ->
            (bid <= q <= ask)%Q
            /\ (on_grid bid -> on_grid ask -> (bid <= py_round q 8 <= ask)%Q)))
    /\ (in_band c bid ask = false ->
        raw = fl_max (MIN_PRICE c)
                (fl_min (MAX_PRICE c) (Finite (bid + (ask - bid) * blend r)))
        /\ ((3 # 10) <= blend r <= (7 # 10))%Q
        /\ forall lo hi,
             band c lo hi ->
             let q := py_max lo (py_min hi (bid + (ask - bid) * blend r))%Q in
             raw = Finite q
             /\ ((lo <= hi)%Q ->
                 (lo <= q <= hi)%Q
                 /\ (on_grid lo -> on_grid hi -> (lo <= py_round q 8 <= hi)%Q))).
Proof.
  intros w bid ask w1 t1 H c r raw price Hr.
  split; [apply (decide_price_from_quote _ _ _ _ _ H) |].
  split.
  { intros q Hq. unfold price. rewrite Hq. simpl.
    split; [reflexivity | apply py_round_near]. }
  split.
  - intros Hb q.
    assert (E : raw = Finite q)
      by (unfold raw, raw_price; rewrite Hb; reflexivity).
    split; [exact E |]. intros Hle.
    assert (Hraw : (bid <= q <= ask)%Q) by (unfold q; nra).
    split; [exact Hraw |]. intros Gb Ga. split.
    + apply py_round_ge_grid; tauto.
    + apply py_round_le_grid; tauto.
  - intros Hb.
    assert (E : raw = fl_max (MIN_PRICE c)
                        (fl_min (MAX_PRICE c)
                           (Finite (bid + (ask - bid) * blend r))))
      by (unfold raw, raw_price; rewrite Hb; reflexivity).
    split; [exact E |]. split; [apply blend_range; exact Hr |].
    intros lo hi [Hlo Hhi] q.
    assert (E' : raw = Finite q)
      by (rewrite E, Hlo, Hhi; apply fl_clamp_finite).
    split; [exact E' |]. intros Hle.
    assert (Hraw : (lo <= q <= hi)%Q) by (apply clamp_in_band; exact Hle).
    split; [exact Hraw |]. intros Gb Ga. split.
    + apply py_round_ge_grid; tauto.
    + apply py_round_le_grid; tauto.
Qed.

Lemma C3_witness :
  let w := fresh_client (fun _ => answers (depth_json "11.00" "11.02"))
                        default_config in
  let q := ((1100 # 100) + ((1102 # 100) - (1100 # 100)) * 0)%Q in
  result (_decide_price w) = Ok (Finite (py_round q 8))
  /\ ((1100 # 100) <= q <= (1102 # 100))%Q.
Proof.
  intros w q.
  destruct (C3_price_decision w (1100 # 100) (1102 # 100)
              (set_retry_count 0 (set_sent 1 w))
              [EvHttp GET "depth"
                 [("symbol", JStr SYMBOL); ("limit", JNum (inject_Z 1))] false
                 (answers (depth_json "11.00" "11.02"));
               EvApi (CallDepth SYMBOL 1) (Ok (depth_json "11.00" "11.02"))])
    as (R1 & R0 & R2 & _).
  - vm_compute. reflexivity.
  - simpl. lra.
  - destruct R2 as [E R3]; [vm_compute; reflexivity |].
    destruct (R0 _ E) as [P _].
    split; [rewrite R1; f_equal; exact P |].
    destruct R3 as [R4 _]; [lra | exact R4].
Defined.




(* ================================================================= *)
(** ** Balances *)

Lemma handle_request_answers method endpoint params signed w j :
  method <> OtherMethod ->
  net w (sent w) = answers j ->
  _handle_request method endpoint params signed w =
  (Ok j, set_retry_count 0 (set_sent (S (sent w)) w),
   [EvHttp method endpoint params signed (answers j)]).
Proof.
  intros Hm Hn. rewrite handle_request_unfold.
  rewrite (body_success _ _ _ _ _ _ j Hm Hn). rewrite Hn. reflexivity.
Qed.

Lemma add_balance_holding (m : gmap string Q) j h :
  holding_json j h -> add_balance m j = Ok (put_holding m h).
Proof.
  destruct h as [[name free] locked].
  intros (Ha & (fv & Hf & Hfv) & (lv & Hl & Hlv)).
  unfold add_balance. rewrite Ha, Hf, Hfv, Hl, Hlv. reflexivity.
Qed.

Lemma add_balances_holdings listed hs :
  Forall2 holding_json listed hs ->
  forall m : gmap string Q,
    add_balances m listed = Ok (fold_left put_holding hs m).
Proof.
  induction 1 as [| j h listed hs Hj _ IH]; intros m; simpl; [reflexivity |].
  rewrite (add_balance_holding m j h Hj). apply IH.
Qed.

Lemma lookup_put_holdings hs symbol :
  forall (m : gmap string Q) (acc : Q),
    acc = match m !! symbol with Some b => b | None => 0%Q end ->
    match fold_left put_holding hs m !! symbol with
    | Some b => b
    | None => 0%Q
    end
    = fold_left
        (fun acc (h : Holding) =>
           let '(name, free, locked) := h in
           if String.eqb name symbol then (free + locked)%Q else acc)
        hs acc.
Proof.
  induction hs as [| [[name free] locked] hs IH]; intros m acc Hacc; simpl.
  - symmetry. exact Hacc.
  - apply IH. unfold put_holding.
    destruct (String.eqb_spec name symbol) as [-> | Hne].
    + rewrite lookup_insert_eq. reflexivity.
    + rewrite lookup_insert_ne by exact Hne. exact Hacc.
Qed.

Lemma get_specific_balance_total symbol w account hs :
  net w (sent w) = answers account ->
  account_lists account hs ->
  get_specific_balance symbol w =
  (Ok (total_balance hs symbol),
   set_retry_count 0 (set_sent (S (sent w)) w),
   [EvHttp GET "account" [] true (answers account);
    EvApi CallAccount (Ok account)]).
Proof.
  intros Hn (listed & Hb & Hl).
  unfold get_specific_balance, get_balances, get_account_info.
  rewrite !bind_eq, api_eq.
  rewrite (handle_request_answers GET "account" [] true w account) by
    (discriminate || exact Hn).
  simpl. unfold lift. rewrite Hb. simpl.
  rewrite (add_balances_holdings _ _ Hl). simpl.
  unfold ret, prepend. simpl.
  rewrite (lookup_put_holdings hs symbol ∅ 0%Q) by reflexivity.
  reflexivity.
Qed.

Lemma total_balance_listed_once hs1 hs2 symbol free locked :
  Forall (fun h : Holding => fst (fst h) <> symbol) hs2 ->
  total_balance (hs1 ++ (symbol, free, locked) :: hs2) symbol
  = (free + locked)%Q.
Proof.
  intros H. unfold total_balance. rewrite fold_left_app. simpl.
  rewrite String.eqb_refl.
  generalize (free + locked)%Q as acc.
  induction H as [| [[name f] l] hs2 Hne _ IH]; intros acc; simpl; [reflexivity |].
  simpl in Hne. apply String.eqb_neq in Hne. rewrite Hne. apply IH.
Qed.

Lemma check_balances_result w account1 account2 hs1 hs2 :
  net w (sent w) = answers account1 ->
  account_lists account1 hs1 ->
  net w (S (sent w)) = answers account2 ->
  account_lists account2 hs2 ->
  result (_check_balances w)
  = Ok (negb (fl_ltb (Finite (total_balance hs1 QUOTE_CURRENCY))
                     (MIN_USDT_BALANCE (cfg w)))
        && negb (fl_ltb (Finite (total_balance hs2 TOKEN_NAME))
                     (MIN_TOKEN_BALANCE (cfg w)))).
Proof.
  intros Hn1 Hl1 Hn2 Hl2.
  unfold _check_balances. rewrite try_except_eq, bind_eq.
  rewrite (get_specific_balance_total _ _ _ _ Hn1 Hl1). simpl.
  rewrite !bind_eq. simpl.
  destruct (fl_ltb (Finite (total_balance hs1 QUOTE_CURRENCY))
                     (MIN_USDT_BALANCE (cfg w))); simpl; [reflexivity |].
  rewrite bind_eq.
  rewrite (get_specific_balance_total TOKEN_NAME _ account2 hs2)
    by (simpl; assumption).
  simpl. rewrite bind_eq. simpl.
  destruct (fl_ltb (Finite (total_balance hs2 TOKEN_NAME))
                     (MIN_TOKEN_BALANCE (cfg w))); reflexivity.
Qed.

Lemma notify_eq n w :
  notify n w = (Ok tt, w, if telegram_sender w then [EvNotify n] else []).
Proof.
  unfold notify. rewrite bind_eq. simpl. destruct (telegram_sender w); reflexivity.
Qed.

Lemma execute_trade_eq w :
  execute_trade w =
  try_except execute_trade_body any_exception execute_trade_failed
             (cycle_entry w).
Proof.
  unfold execute_trade. rewrite !bind_eq. simpl.
  rewrite !prepend_nil. reflexivity.
Qed.

(** The guard answered [False]: the cycle reports it, clears [running]
    and is over. *)
Lemma execute_trade_guard_fails w :
  result (_check_balances (cycle_entry w)) = Ok false ->
  let checked := _check_balances (cycle_entry w) in
  execute_trade w =
  (Ok false, set_running false (final checked),
   events checked
   ++ (if telegram_sender (final checked) then [EvNotify MsgBalanceLowStop]
       else [])).
Proof.
  intros H checked. subst checked. rewrite execute_trade_eq, try_except_eq.
  unfold execute_trade_body. rewrite bind_eq, H. simpl.
  rewrite !bind_eq, notify_eq. simpl. unfold prepend, ret. simpl.
  rewrite app_nil_r. reflexivity.
Qed.

Lemma start_result w b :
  running w = false ->
  result (_check_balances w) = Ok b ->
  result (start w) = Ok b.
Proof.
  intros Hr Hb. unfold start. rewrite bind_eq. simpl. rewrite Hr.
  rewrite bind_eq, Hb. simpl.
  destruct b; simpl; rewrite !bind_eq, ?notify_eq; simpl;
    rewrite ?bind_eq, ?notify_eq; reflexivity.
Qed.

(** C9: the balance that the guard compares with a floor is the sum of
    the asset's free and locked amounts, at [start()] and at the top of
    a cycle alike. *)
Theorem C9_guard_counts_free_plus_locked :
  forall w account1 account2 hs1 hs2,
    net w (sent w) = answers account1 ->
    account_lists account1 hs1 ->
    net w (S (sent w)) = answers account2 ->
    account_lists account2 hs2 ->
    let usdt := total_balance hs1 QUOTE_CURRENCY in
    let token := total_balance hs2 TOKEN_NAME in
    let enough :=
      negb (fl_ltb (Finite usdt) (MIN_USDT_BALANCE (cfg w)))
      && negb (fl_ltb (Finite token) (MIN_TOKEN_BALANCE (cfg w))) in
    result (get_specific_balance QUOTE_CURRENCY w) = Ok usdt
    /\ result (_check_balances w) = Ok enough
    /\ (running w = false -> result (start w) = Ok enough)
    /\ (enough = false ->
        result (execute_trade w) = Ok false
        /\ running (final (execute_trade w)) = false).
Proof.
  intros w account1 account2 hs1 hs2 Hn1 Hl1 Hn2 Hl2 usdt token enough.
  pose proof (check_balances_result w _ _ _ _ Hn1 Hl1 Hn2 Hl2) as Hc.
  fold usdt token enough in Hc.
  split; [rewrite (get_specific_balance_total _ _ _ _ Hn1 Hl1); reflexivity |].
  split; [exact Hc |].
  split; [intros Hr; apply start_result; assumption |].
  intros He.
  pose proof (check_balances_result (cycle_entry w) _ _ _ _ Hn1 Hl1 Hn2 Hl2) as Hc'.
  simpl in Hc'. fold usdt token enough in Hc'. rewrite He in Hc'.
  rewrite (execute_trade_guard_fails w Hc'). simpl. auto.
Qed.

(* ================================================================= *)
(** ** Taking a run apart *)

Lemma bind_inv {A B} (c : M A) (k : A -> M B) w r w' t :
  bind c k w = (r, w', t) ->
  (exists a w1 t1 t2,
      c w = (Ok a, w1, t1) /\ k a w1 = (r, w', t2) /\ t = t1 ++ t2)
  \/ (exists e, c w = (Raise e, w', t) /\ r = Raise e).
Proof.
  unfold bind. destruct (c w) as [[[a | e] w1] t1].
  - destruct (k a w1) as [[r2 w2] t2] eqn:E. intros [= <- <- <-].
    left. exists a, w1, t1, t2. auto.
  - intros [= <- <- <-]. right. exists e. auto.
Qed.

Lemma try_except_inv {A} (c : M A) (h : Exn -> M A) w r w' t :
  try_except c any_exception h w = (r, w', t) ->
  (exists a, c w = (Ok a, w', t) /\ r = Ok a)
  \/ (exists e w1 t1 t2,
         c w = (Raise e, w1, t1) /\ h e w1 = (r, w', t2) /\ t = t1 ++ t2).
Proof.
  unfold try_except, any_exception. destruct (c w) as [[[a | e] w1] t1].
  - intros [= <- <- <-]. left. exists a. auto.
  - destruct (h e w1) as [[r2 w2] t2] eqn:E. intros [= <- <- <-].
    right. exists e, w1, t1, t2. auto.
Qed.

(** Splits the hypothesis [H : c w = (r, w', t)] along the structure of
    [c], down to the calls that have a lemma of their own. *)
Ltac split_run H :=
  lazymatch type of H with
  | bind _ _ _ = _ =>
      let a := fresh "a" in
      let w1 := fresh "w" in
      let t1 := fresh "t" in
      let t2 := fresh "t" in
      let H1 := fresh "H" in
      let Hr := fresh "Hr" in
      let e := fresh "e" in
      apply bind_inv in H;
      destruct H as [(a & w1 & t1 & t2 & H1 & H & ->) | (e & H & Hr)];
      [split_run H1; split_run H
      | first [discriminate Hr | inversion Hr; clear Hr; subst; split_run H]]
  | try_except _ any_exception _ _ = _ =>
      let a := fresh "a" in
      let w1 := fresh "w" in
      let t1 := fresh "t" in
      let t2 := fresh "t" in
      let H1 := fresh "H" in
      let Hr := fresh "Hr" in
      let e := fresh "e" in
      apply try_except_inv in H;
      destruct H as [(a & H & Hr) | (e & w1 & t1 & t2 & H1 & H & ->)];
      [inversion Hr; clear Hr; subst; split_run H | split_run H1; split_run H]
  | ret _ _ = _ => unfold ret in H; inversion H; clear H; subst
  | raise _ _ = _ => unfold raise in H; inversion H; clear H; subst
  | lift _ _ = _ => unfold lift in H; inversion H; clear H; subst
  | get_world _ = _ => unfold get_world in H; inversion H; clear H; subst
  | modify _ _ = _ => unfold modify in H; inversion H; clear H; subst
  | emit _ _ = _ => unfold emit in H; inversion H; clear H; subst
  | notify _ _ = _ => rewrite notify_eq in H; inversion H; clear H; subst
  | (if ?b then _ else _) _ = _ =>
      let E := fresh "E" in destruct b eqn:E; split_run H
  | _ => idtac
  end.

(* ================================================================= *)
(** ** Orders of a cycle *)

Lemma api_run c request w r w' t :
  Respects gate request ->
  api c request w = (r, w', t) ->
  frame w w' /\ api_events t = [(c, r)].
Proof.
  intros Hg H. pose proof (api_calls c request w Hg) as Hc.
  pose proof (Hg w) as [F _].
  rewrite H in Hc. simpl in Hc.
  rewrite api_eq in H. injection H as _ <- _.
  split; [exact F | exact Hc].
Qed.

Lemma create_order_run symbol side order_type quantity price w r w' t :
  create_order symbol side order_type quantity price w = (r, w', t) ->
  frame w w'
  /\ api_events t = [(CallCreateOrder symbol side order_type quantity price, r)].
Proof. apply api_run, gate_handle_request. Qed.

Lemma cancel_order_run symbol order_id w r w' t :
  cancel_order symbol order_id w = (r, w', t) ->
  frame w w' /\ api_events t = [(CallCancelOrder symbol order_id, r)].
Proof. apply api_run, gate_handle_request. Qed.

Lemma get_order_status_run symbol order_id w r w' t :
  get_order_status symbol order_id w = (r, w', t) ->
  frame w w' /\ api_events t = [(CallOrderStatus symbol order_id, r)].
Proof. apply api_run, gate_handle_request. Qed.

Lemma cancel_all_orders_run symbol w r w' t :
  cancel_all_orders symbol w = (r, w', t) ->
  frame w w' /\ api_events t = [(CallCancelAll symbol, r)].
Proof. apply api_run, gate_handle_request. Qed.

Lemma cancel_quietly_run symbol order_id w r w' t :
  cancel_quietly symbol order_id w = (r, w', t) ->
  r = Ok tt /\ exists outcome, api_events t = [(CallCancelOrder symbol order_id, outcome)].
Proof.
  intros H. unfold cancel_quietly in H. split_run H;
    match goal with
    | H : cancel_order _ _ _ = _ |- _ => apply cancel_order_run in H as [_ Hc]
    end;
    (split; [reflexivity | rewrite ?app_nil_r; eauto]).
Qed.

Lemma opened_not_create calls order_id :
  Forall (fun cr => not_create (fst cr)) calls -> ~ opened calls order_id.
Proof.
  intros N (s & sd & ot & q & p & j & Hin & _).
  rewrite List.Forall_forall in N. apply (N _ Hin).
Qed.

Lemma check_balances_run w r w' t :
  _check_balances w = (r, w', t) ->
  (exists b, r = Ok b)
  /\ frame w w' /\ Forall (fun cr => not_create (fst cr)) (api_events t).
Proof.
  intros H. pose proof (within_check_balances w) as [F N].
  pose proof (check_balances_never_raises w) as [b Hb].
  rewrite H in F, N, Hb. simpl in *. eauto.
Qed.

Lemma api_events_notice (b : bool) n :
  api_events (if b then [EvNotify n] else []) = [].
Proof. destruct b; reflexivity. Qed.

Lemma C9_witness :
  let w := fresh_client (fun _ => answers account_with_locked_funds)
                        default_config in
  result (get_specific_balance QUOTE_CURRENCY w) = Ok ((505 # 10) + 60)%Q
  /\ result (_check_balances w) = Ok true.
Proof.
  intros w.
  assert (Hl : account_lists account_with_locked_funds
                 [("USDT", (505 # 10)%Q, 60%Q); ("CREPE", 1000%Q, 0%Q)]).
  { eexists. split; [reflexivity |].
    repeat constructor; eexists; split; reflexivity. }
  destruct (C9_guard_counts_free_plus_locked w
              account_with_locked_funds account_with_locked_funds _ _
              eq_refl Hl eq_refl Hl) as (R1 & R2 & _).
  split; [exact R1 | exact R2].
Defined.

(* ================================================================= *)
(** ** [start] and [stop] *)

Lemma stop_when_running w :
  running w = true ->
  result (stop w) = Ok true
  /\ running (final (stop w)) = false
  /\ calls_of (stop w)
     = [(CallCancelAll SYMBOL,
         result (cancel_all_orders SYMBOL (set_running false w)))].
Proof.
  intros Hr. unfold calls_of.
  destruct (stop w) as [[r w'] t] eqn:H. simpl.
  unfold stop in H.
  apply bind_inv in H as [(w0 & w1 & t1 & t2 & H1 & H & ->) | (e & H & _)];
    [| discriminate H].
  unfold get_world in H1. injection H1 as <- <- <-.
  rewrite Hr in H. simpl in H.
  split_run H.
  all: match goal with
       | H : cancel_all_orders _ _ = _ |- _ =>
           pose proof H as H'; apply cancel_all_orders_run in H as [F C];
           rewrite H'
       end.
  all: simpl; rewrite ?api_events_app, ?api_events_notice, C; simpl.
  all: repeat split; try reflexivity.
  all: match goal with
       | |- running ?x = false =>
           destruct (running x) eqn:E; [| reflexivity];
           apply (frame_running_down _ _ F) in E; discriminate E
       end.
Qed.

Lemma stop_when_stopped w : running w = false -> stop w = (Ok false, w, []).
Proof.
  intros Hr. unfold stop. rewrite bind_eq. simpl. rewrite Hr. reflexivity.
Qed.

Lemma start_when_running w : running w = true -> start w = (Ok false, w, []).
Proof.
  intros Hr. unfold start. rewrite bind_eq. simpl. rewrite Hr. reflexivity.
Qed.

(** C7: [start()] on a running bot and [stop()] on a stopped bot return
    [False] and do nothing else: no worker is spawned, nothing is sent;
    so of two [stop()] in a row the second does nothing, and together
    they call cancel-all at most once and neither raises. *)
Theorem C7_repeated_control_calls_do_nothing :
  (forall w, running w = true -> start w = (Ok false, w, []))
  /\ (forall w, running w = false -> stop w = (Ok false, w, []))
  /\ (forall w,
        let first := stop w in
        let second := stop (final first) in
        (exists b, result first = Ok b)
        /\ second = (Ok false, final first, [])
        /\ cancel_all_calls (calls_of first ++ calls_of second) <= 1).
Proof.
  split; [exact start_when_running |].
  split; [exact stop_when_stopped |].
  intros w first second. subst first second.
  destruct (running w) eqn:Hr.
  - destruct (stop_when_running w Hr) as (R1 & R2 & R3).
    rewrite (stop_when_stopped _ R2).
    split; [eauto |]. split; [reflexivity |].
    rewrite R3. simpl. lia.
  - rewrite (stop_when_stopped w Hr). simpl.
    rewrite (stop_when_stopped w Hr).
    split; [eauto |]. split; [reflexivity |]. simpl. lia.
Qed.

Lemma C7_witness :
  start (running_bot outage default_config)
  = (Ok false, running_bot outage default_config, [])
  /\ stop (fresh_client outage default_config)
     = (Ok false, fresh_client outage default_config, []).
Proof.
  destruct C7_repeated_control_calls_do_nothing as (H1 & H2 & _).
  split; [apply H1 | apply H2]; reflexivity.
Defined.

(** C10: [stop()] on a running bot returns [True] and leaves the bot
    stopped whatever becomes of the cancel-all request, an exception
    included: the outcome of the request only shows in the calls. *)
Theorem C10_stop_survives_cancel_failure :
  forall w,
    running w = true ->
    result (stop w) = Ok true
    /\ running (final (stop w)) = false
    /\ calls_of (stop w)
       = [(CallCancelAll SYMBOL,
           result (cancel_all_orders SYMBOL (set_running false w)))].
Proof. exact stop_when_running. Qed.

Lemma C10_witness :
  let w := running_bot outage default_config in
  result (stop w) = Ok true
  /\ running (final (stop w)) = false
  /\ calls_of (stop w) = [(CallCancelAll SYMBOL, Raise RequestFailed)].
Proof.
  intros w.
  exact (C10_stop_survives_cancel_failure w eq_refl).
Defined.

(* ================================================================= *)
(** ** What stops the schedule *)

Lemma steady_refl w : steady w w [].
Proof. repeat split; auto. Qed.

Lemma steady_trans w w1 w2 t1 t2 :
  steady w w1 t1 -> steady w1 w2 t2 -> steady w w2 (t1 ++ t2).
Proof.
  intros (S1 & T1 & C1 & R1) (S2 & T2 & C2 & R2).
  repeat split; try congruence.
  intros Hq. rewrite R2, R1; auto.
  intros n. rewrite S1. apply Hq.
Qed.

Lemma frame_steady w w' t : frame w w' -> steady w w' t.
Proof. intros []. repeat split; auto. Qed.

Lemma within_steady P {A} (c : M A) :
  Respects (within P) c -> Respects steady c.
Proof. intros H w. apply frame_steady, H. Qed.

Lemma steady_create_order symbol side order_type quantity price :
  Respects steady (create_order symbol side order_type quantity price).
Proof.
  intros w.
  destruct (create_order symbol side order_type quantity price w)
    as [[r w'] t] eqn:H.
  apply create_order_run in H as [F _]. apply frame_steady, F.
Qed.

Lemma steady_modify (f : World -> World) :
  (forall w, stop_lands (f w) = stop_lands w
             /\ telegram_sender (f w) = telegram_sender w
             /\ cfg (f w) = cfg w
             /\ running (f w) = running w) ->
  Respects steady (modify f).
Proof.
  intros H w. simpl. destruct (H w) as (? & ? & ? & ?). repeat split; auto.
Qed.

Lemma steady_emit e : Respects steady (emit e).
Proof. intros w. simpl. repeat split; auto. Qed.

Ltac steady_tac :=
  respects_with steady_refl steady_trans
    ltac:(first
            [ simple apply steady_create_order
            | simple apply steady_emit
            | simple apply steady_modify; intros ?; simpl; auto
            | simple apply (within_steady not_create);
              first [ simple apply within_decide_price
                    | simple apply within_check_and_cancel_order
                    | simple apply within_cancel_order
                    | simple apply within_sleep
                    | simple apply within_random
                    | simple apply within_notify ] ]).

Lemma steady_trade_once : Respects steady trade_once.
Proof. unfold trade_once, TRADE_AMOUNT. steady_tac. Qed.

Lemma steady_execute_trade_failed e : Respects steady (execute_trade_failed e).
Proof.
  unfold execute_trade_failed, cancel_known_orders, cancel_if_known. steady_tac.
Qed.

Lemma steady_wait_slices n : Respects steady (wait_slices n).
Proof. induction n as [| n IH]; simpl; steady_tac. Qed.

Lemma steady_randint a b : Respects steady (randint a b).
Proof. unfold randint. steady_tac. Qed.

Lemma never_raises_modify f : never_raises (modify f).
Proof. intros w. simpl. eauto. Qed.

Lemma never_raises_notify n : never_raises (notify n).
Proof. intros w. rewrite notify_eq. simpl. eauto. Qed.

Lemma never_raises_sleep seconds : never_raises (sleep seconds).
Proof. intros w. simpl. eauto. Qed.

Lemma cancel_known_orders_never_raises : never_raises cancel_known_orders.
Proof. apply never_raises_try_except. intros e. apply never_raises_ret. Qed.

Lemma execute_trade_failed_never_raises e : never_raises (execute_trade_failed e).
Proof.
  unfold execute_trade_failed.
  apply never_raises_bind; [apply cancel_known_orders_never_raises | intros _].
  apply never_raises_bind; [apply never_raises_notify | intros _].
  apply never_raises_ret.
Qed.

(** No exception leaves a cycle. *)
Lemma execute_trade_never_raises : never_raises execute_trade.
Proof.
  unfold execute_trade.
  apply never_raises_bind; [apply never_raises_modify | intros _].
  apply never_raises_bind; [apply never_raises_modify | intros _].
  apply never_raises_try_except, execute_trade_failed_never_raises.
Qed.

Lemma loop_body_never_raises : never_raises loop_body.
Proof. apply never_raises_try_except. intros e. apply never_raises_sleep. Qed.

Lemma trade_once_returns w b w' t :
  trade_once w = (Ok b, w', t) -> b = true.
Proof.
  intros H. unfold trade_once in H.
  apply bind_inv in H as [(price & w2 & t1 & t2 & _ & H & _) | (e & _ & ?)];
    discriminate.
Qed.

(** The guard passed: whatever happens next in the cycle, [running] is
    not touched, and a cycle that fails says so. *)
Lemma execute_trade_guard_passes w :
  quiet w ->
  result (_check_balances (cycle_entry w)) = Ok true ->
  running (final (execute_trade w)) = running w
  /\ telegram_sender (final (execute_trade w)) = telegram_sender w
  /\ stop_lands (final (execute_trade w)) = stop_lands w
  /\ cfg (final (execute_trade w)) = cfg w
  /\ (result (execute_trade w) = Ok false ->
      telegram_sender w = true ->
      exists e, In (EvNotify (MsgTradeError e)) (events (execute_trade w))).
Proof.
  intros Hq Hg.
  destruct (execute_trade w) as [[r w'] t] eqn:H. simpl.
  rewrite execute_trade_eq in H.
  assert (Hq0 : quiet (cycle_entry w)) by exact Hq.
  apply try_except_inv in H as [(b & H & ->) | (e & w1 & t1 & t2 & H1 & H & ->)].
  - unfold execute_trade_body in H.
    apply bind_inv in H as [(enough & w2 & t1 & t2 & H1 & H & ->) | (e & _ & ?)];
      [| discriminate].
    rewrite H1 in Hg. simpl in Hg. injection Hg as ->. simpl in H.
    pose proof (within_steady _ _ within_check_balances (cycle_entry w)) as S1.
    pose proof (steady_trade_once w2) as S2.
    rewrite H1 in S1. rewrite H in S2. simpl in S1, S2.
    pose proof (steady_trans _ _ _ _ _ S1 S2) as (A & B & C & D).
    simpl in *.
    repeat split; auto.
    intros Hb. injection Hb as ->.
    apply trade_once_returns in H. discriminate.
  - unfold execute_trade_body in H1.
    apply bind_inv in H1 as [(enough & w2 & t3 & t4 & H2 & H1 & ->) | (e' & H1 & _)].
    + rewrite H2 in Hg. simpl in Hg. injection Hg as ->. simpl in H1.
      pose proof (within_steady _ _ within_check_balances (cycle_entry w)) as S1.
      pose proof (steady_trade_once w2) as S2.
      pose proof (steady_execute_trade_failed e w1) as S3.
      rewrite H2 in S1. rewrite H1 in S2. rewrite H in S3. simpl in S1, S2, S3.
      pose proof (steady_trans _ _ _ _ _ (steady_trans _ _ _ _ _ S1 S2) S3)
        as (A & B & C & D).
      simpl in *.
      repeat split; auto.
      intros _ Ht. exists e.
      assert (Tw1 : telegram_sender w1 = true).
      { destruct S1 as (_ & T1 & _). destruct S2 as (_ & T2 & _).
        simpl in T1. congruence. }
      unfold execute_trade_failed in H.
      apply bind_inv in H as [(u & w3 & t5 & t6 & H3 & H & ->) | (e' & H & ?)].
      * pose proof (steady_execute_trade_failed e w1) as _.
        assert (Tw3 : telegram_sender w3 = true).
        { assert (R : Respects steady cancel_known_orders)
            by (unfold cancel_known_orders, cancel_if_known; steady_tac).
          pose proof (R w1) as (_ & T & _). rewrite H3 in T. simpl in T.
          congruence. }
        apply bind_inv in H as [(u' & w4 & t7 & t8 & H4 & H & ->) | (e' & H & ?)].
        -- rewrite notify_eq, Tw3 in H4. injection H4 as _ _ <-.
           apply in_or_app. right. apply in_or_app. right.
           apply in_or_app. left. left. reflexivity.
        -- rewrite notify_eq in H. discriminate.
      * destruct (cancel_known_orders_never_raises w1) as [u Hu].
        rewrite H in Hu. discriminate.
    + apply check_balances_run in H1 as ((b & Hb) & _). discriminate.
Qed.

Lemma trading_loop_exits fuel w :
  running w = false -> trading_loop fuel w = (Ok LoopExited, w, []).
Proof.
  intros Hr. destruct fuel; cbn [trading_loop]; rewrite bind_eq; simpl;
    rewrite Hr; reflexivity.
Qed.

Lemma trading_loop_step fuel w :
  running w = true ->
  trading_loop (S fuel) w
  = prepend (events (loop_body w)) (trading_loop fuel (final (loop_body w))).
Proof.
  intros Hr. cbn [trading_loop]. rewrite bind_eq. simpl. rewrite Hr.
  rewrite prepend_nil, bind_eq.
  destruct (loop_body_never_raises w) as [u ->]. reflexivity.
Qed.

Lemma respects_run R {A} (c : M A) w r w' t :
  Respects R c -> c w = (r, w', t) -> R w w' t.
Proof. intros H E. specialize (H w). rewrite E in H. exact H. Qed.

Lemma sleep_steady seconds : Respects steady (sleep seconds).
Proof. apply (within_steady not_create), within_sleep. Qed.

(** A turn of the loop whose cycle left [running] set ends with
    [running] still set, whether the wait went through or the turn
    ended in the five seconds of the error path. *)
Lemma loop_body_keeps_running w :
  quiet w ->
  running (final (execute_trade w)) = true ->
  stop_lands (final (execute_trade w)) = stop_lands w ->
  result (loop_body w) = Ok tt /\ running (final (loop_body w)) = true.
Proof.
  intros Hq Hr Hs.
  destruct (loop_body w) as [[r w'] t] eqn:H. simpl.
  unfold loop_body in H. split_run H.
  all: repeat match goal with
         | H : execute_trade _ = _ |- _ =>
             rewrite H in Hr, Hs; simpl in Hr, Hs; clear H
         | H : randint _ _ _ = _ |- _ =>
             apply (respects_run steady _ _ _ _ _ (steady_randint _ _)) in H
         | H : wait_slices _ _ = _ |- _ =>
             apply (respects_run steady _ _ _ _ _ (steady_wait_slices _)) in H
         | H : sleep _ _ = (?r, _, _) |- _ =>
             assert (r = Ok tt) by (unfold sleep in H; congruence);
             apply (respects_run steady _ _ _ _ _ (sleep_steady _)) in H
         end.
  all: try congruence.
  all: repeat match goal with
         | S1 : steady ?a ?b _, S2 : steady ?b ?c _ |- _ =>
             pose proof (steady_trans _ _ _ _ _ S1 S2); clear S1 S2
         end.
  all: match goal with
       | u : unit |- _ => destruct u
       | _ => idtac
       end.
  all: split; [congruence || reflexivity |].
  all: try assumption.
  all: match goal with
       | S : steady ?a ?b _ |- running ?b = true =>
           destruct S as (_ & _ & _ & D); rewrite D; [assumption |];
           intros n; rewrite Hs; apply Hq
       end.
Qed.

Lemma loop_body_after_halt w :
  result (_check_balances (cycle_entry w)) = Ok false ->
  loop_body w
  = (Ok tt, final (execute_trade w), events (execute_trade w)).
Proof.
  intros Hg. unfold loop_body. rewrite try_except_eq, bind_eq.
  rewrite (execute_trade_guard_fails w Hg). simpl.
  rewrite bind_eq. simpl. unfold prepend, ret. simpl.
  rewrite !app_nil_r. reflexivity.
Qed.

Lemma check_balances_false_iff w :
  result (_check_balances w) = Ok false <-> balance_low_or_unread w.
Proof.
  unfold _check_balances, balance_low_or_unread.
  rewrite try_except_eq, bind_eq.
  destruct (get_specific_balance QUOTE_CURRENCY w) as [[[usdt | e] w1] t1];
    simpl; [| tauto].
  rewrite bind_eq. simpl.
  destruct (fl_ltb (Finite usdt) (MIN_USDT_BALANCE (cfg w1))) eqn:E1; simpl.
  - tauto.
  - rewrite bind_eq.
    destruct (get_specific_balance TOKEN_NAME w1) as [[[token | e] w2] t2];
      simpl; [| tauto].
    rewrite bind_eq. simpl.
    destruct (fl_ltb (Finite token) (MIN_TOKEN_BALANCE (cfg w2))) eqn:E2; simpl.
    + tauto.
    + split; [discriminate |]. intros [H | H]; discriminate.
Qed.

(** C2, as stated, fails: the schedule also stops when the balances
    cannot be read.  With the exchange out of reach no balance is found
    under its floor, since none is read, and still the cycle clears
    [running] and the worker loop ends. *)
Lemma C2_counterexample_unread_balance_stops_the_loop :
  let w := running_bot outage default_config in
  quiet w
  /\ result (get_specific_balance QUOTE_CURRENCY (cycle_entry w))
     = Raise RequestFailed
  /\ running (final (execute_trade w)) = false
  /\ result (trading_loop 1 w) = Ok LoopExited.
Proof.
  intros w.
  split; [intros n; reflexivity |].
  split; [vm_compute; reflexivity |].
  split; vm_compute; reflexivity.
Qed.

(** C2 (amended): a cycle never raises, and with no [stop()] from
    outside it clears [running] exactly when the balance guard does not
    pass, which is when a balance is under its floor or cannot be read;
    the worker loop then ends with that cycle, before any order.  When
    the guard passes, whatever fails later in the cycle is caught there
    and reported, and the loop goes on to its next turn with [running]
    still set. *)
Theorem C2_only_the_balance_guard_stops_the_loop :
  forall w,
    running w = true ->
    quiet w ->
    let cycle := execute_trade w in
    (exists b, result cycle = Ok b)
    /\ (running (final cycle) = false <-> balance_low_or_unread (cycle_entry w))
    /\ (balance_low_or_unread (cycle_entry w) ->
        result cycle = Ok false
        /\ (forall id, ~ opened (calls_of cycle) id)
        /\ forall fuel,
             result (trading_loop (S fuel) w) = Ok LoopExited
             /\ events (trading_loop (S fuel) w) = events cycle)
    /\ (~ balance_low_or_unread (cycle_entry w) ->
        (result cycle = Ok false ->
         telegram_sender w = true ->
         exists e, In (EvNotify (MsgTradeError e)) (events cycle))
        /\ result (loop_body w) = Ok tt
        /\ running (final (loop_body w)) = true
        /\ forall fuel,
             trading_loop (S fuel) w
             = prepend (events (loop_body w))
                       (trading_loop fuel (final (loop_body w)))).
Proof.
  intros w Hr Hq cycle. subst cycle.
  assert (Hhalt : balance_low_or_unread (cycle_entry w) ->
                  running (final (execute_trade w)) = false
                  /\ result (execute_trade w) = Ok false
                  /\ (forall id, ~ opened (calls_of (execute_trade w)) id)
                  /\ forall fuel,
                       result (trading_loop (S fuel) w) = Ok LoopExited
                       /\ events (trading_loop (S fuel) w)
                          = events (execute_trade w)).
  { intros Hg. apply check_balances_false_iff in Hg.
    pose proof (execute_trade_guard_fails w Hg) as E. simpl in E.
    split; [rewrite E; reflexivity |].
    split; [rewrite E; reflexivity |].
    split.
    - intros id. unfold calls_of. rewrite E. simpl.
      rewrite api_events_app.
      destruct (_check_balances (cycle_entry w)) as [[r w1] t1] eqn:Hc.
      apply check_balances_run in Hc as (_ & _ & N). simpl.
      rewrite api_events_notice, app_nil_r. apply opened_not_create, N.
    - intros fuel. rewrite (trading_loop_step fuel w Hr).
      rewrite (loop_body_after_halt w Hg). simpl.
      rewrite trading_loop_exits by (rewrite E; reflexivity).
      simpl. rewrite app_nil_r. auto. }
  assert (Hgo : ~ balance_low_or_unread (cycle_entry w) ->
                running (final (execute_trade w)) = true
                /\ (result (execute_trade w) = Ok false ->
                    telegram_sender w = true ->
                    exists e, In (EvNotify (MsgTradeError e))
                                 (events (execute_trade w)))
                /\ result (loop_body w) = Ok tt
                /\ running (final (loop_body w)) = true).
  { intros Hg.
    assert (Hp : result (_check_balances (cycle_entry w)) = Ok true).
    { destruct (check_balances_never_raises (cycle_entry w)) as [[] Hb];
        [exact Hb |].
      apply check_balances_false_iff in Hb. contradiction. }
    destruct (execute_trade_guard_passes w Hq Hp) as (R1 & R2 & R3 & R4 & R5).
    rewrite Hr in R1.
    destruct (loop_body_keeps_running w Hq R1 R3) as [L1 L2]. auto. }
  split; [apply execute_trade_never_raises |].
  split.
  - split.
    + intros Hf.
      destruct (check_balances_never_raises (cycle_entry w)) as [[] Hb].
      * assert (Hn : ~ balance_low_or_unread (cycle_entry w)).
        { intros Hg. apply check_balances_false_iff in Hg. congruence. }
        destruct (Hgo Hn) as (R & _). congruence.
      * apply check_balances_false_iff. exact Hb.
    + intros Hg. apply (Hhalt Hg).
  - split.
    + intros Hg. destruct (Hhalt Hg) as (_ & R2 & R3 & R4). auto.
    + intros Hg. destruct (Hgo Hg) as (_ & R2 & R3 & R4).
      repeat split; auto.
      intros fuel. apply trading_loop_step, Hr.
Qed.

Lemma C2_witness :
  let w := running_bot funded default_config in
  result (execute_trade w) = Ok false
  /\ running (final (execute_trade w)) = true
  /\ running (final (loop_body w)) = true.
Proof.
  intros w.
  destruct (C2_only_the_balance_guard_stops_the_loop w eq_refl (fun _ => eq_refl))
    as (_ & H1 & _ & H2).
  assert (Hn : ~ balance_low_or_unread (cycle_entry w)).
  { intros Hg. apply H1 in Hg. vm_compute in Hg. discriminate. }
  destruct (H2 Hn) as (_ & _ & R & _).
  split; [vm_compute; reflexivity |].
  split; [vm_compute; reflexivity | exact R].
Defined.

(* ================================================================= *)
(** ** Where the worker sleeps *)

Lemma sleeps_app t1 t2 : sleeps (t1 ++ t2) = sleeps t1 ++ sleeps t2.
Proof.
  induction t1 as [| e t1 IH]; simpl; [reflexivity |].
  destruct e; simpl; rewrite IH; reflexivity.
Qed.

Lemma paced_refl w : paced w w [].
Proof. constructor. Qed.

Lemma paced_trans w w1 w2 t1 t2 :
  paced w w1 t1 -> paced w1 w2 t2 -> paced w w2 (t1 ++ t2).
Proof.
  unfold paced. intros H1 H2. rewrite sleeps_app. apply Forall_app. auto.
Qed.

Lemma paced_sleep seconds : pace seconds -> Respects paced (sleep seconds).
Proof. intros H w. unfold paced. simpl. constructor; [exact H | constructor]. Qed.

Lemma paced_silent {A} (c : M A) :
  (forall w, sleeps (events (c w)) = []) -> Respects paced c.
Proof. intros H w. unfold paced. rewrite H. constructor. Qed.

Lemma paced_send method endpoint params signed :
  Respects paced (send method endpoint params signed).
Proof. apply paced_silent. intros w. destruct method; reflexivity. Qed.

Lemma paced_modify f : Respects paced (modify f).
Proof. apply paced_silent. reflexivity. Qed.

Lemma paced_random : Respects paced random.
Proof. apply paced_silent. reflexivity. Qed.

Lemma paced_notify n : Respects paced (notify n).
Proof.
  apply paced_silent. intros w. rewrite notify_eq. simpl.
  destruct (telegram_sender w); reflexivity.
Qed.

Lemma paced_reset_on_success response : Respects paced (reset_on_success response).
Proof.
  apply paced_silent. intros w. unfold reset_on_success.
  destruct response as [r |]; [| reflexivity].
  destruct (status_code r =? 200)%Z; reflexivity.
Qed.

Lemma paced_api c request : Respects paced request -> Respects paced (api c request).
Proof.
  intros H w. unfold paced. rewrite api_eq. simpl. rewrite sleeps_app. simpl.
  rewrite app_nil_r. apply H.
Qed.

Lemma pace_one : pace 1.
Proof. left. reflexivity. Qed.

Lemma pace_five : pace 5.
Proof. right. left. reflexivity. Qed.

Lemma pace_power k : pace (2 ^ Z.of_nat k).
Proof. right. right. exists k. reflexivity. Qed.

Ltac paced_leaf :=
  first [ simple apply paced_send
        | simple apply paced_modify
        | simple apply paced_random
        | simple apply paced_notify
        | simple apply paced_reset_on_success
        | simple apply paced_sleep;
          first [ exact pace_one | exact pace_five | simple apply pace_power ] ].

Lemma paced_handle_request_fuel fuel method endpoint params signed :
  Respects paced (handle_request_fuel fuel method endpoint params signed).
Proof.
  induction fuel as [| fuel IH]; simpl.
  - apply (respects_raise _ paced_refl).
  - unfold handle_request_body, on_response, on_request_exception,
      retry_after_backoff.
    respects_with paced_refl paced_trans paced_leaf.
Qed.

Lemma paced_handle_request method endpoint params signed :
  Respects paced (_handle_request method endpoint params signed).
Proof. intros w. apply paced_handle_request_fuel. Qed.

Ltac paced_tac :=
  respects_with paced_refl paced_trans
    ltac:(first [ paced_leaf
                | simple apply paced_api; simple apply paced_handle_request ]).

Lemma paced_check_balances : Respects paced _check_balances.
Proof.
  unfold _check_balances, get_specific_balance, get_balances, get_account_info.
  paced_tac.
Qed.

Lemma paced_decide_price : Respects paced _decide_price.
Proof.
  unfold _decide_price, choose_price, get_bid_ask, get_orderbook, uniform.
  paced_tac.
Qed.

Lemma paced_cancel_order symbol order_id :
  Respects paced (cancel_order symbol order_id).
Proof. unfold cancel_order. paced_tac. Qed.

Lemma paced_check_and_cancel_order symbol order_id :
  Respects paced (check_and_cancel_order symbol order_id).
Proof.
  unfold check_and_cancel_order, cancel_quietly, get_order_status.
  respects_with paced_refl paced_trans
    ltac:(first [ simple apply paced_cancel_order
                | paced_leaf
                | simple apply paced_api; simple apply paced_handle_request ]).
Qed.

Lemma paced_execute_trade : Respects paced execute_trade.
Proof.
  unfold execute_trade, execute_trade_body, execute_trade_failed,
    cancel_known_orders, cancel_if_known, trade_once, TRADE_AMOUNT, create_order.
  respects_with paced_refl paced_trans
    ltac:(first [ simple apply paced_check_balances
                | simple apply paced_decide_price
                | simple apply paced_check_and_cancel_order
                | simple apply paced_cancel_order
                | paced_leaf
                | simple apply paced_api; simple apply paced_handle_request ]).
Qed.










(* ================================================================= *)
(** ** The gateway, whatever the exchange answers *)

(** One activation of [_handle_request] either ends after its attempt,
    or bumps the counter, sleeps and hands over to the recursive call. *)
Lemma body_shape again method endpoint params signed w :
  method <> OtherMethod ->
  contained again ->
  let r := handle_request_body again method endpoint params signed w in
  let http := EvHttp method endpoint params signed (net w (sent w)) in
  (events r = [http]
   /\ (retry_count (final r) = 0 \/ retry_count (final r) = retry_count w))
  \/ (retry_count w < max_retries w
      /\ events r
         = http :: EvSleep (2 ^ Z.of_nat (S (retry_count w)))
                :: events (again (after_backoff w))
      /\ (retry_count (final r) = 0
          \/ final r = final (again (after_backoff w)))).
Proof.
  intros Hm Hc. unfold_body.
  destruct method; try congruence;
    destruct (net w (sent w)) as [| [status b]] eqn:En; simpl.
  all: repeat match goal with
         | |- context [if ?c then _ else _] => destruct c eqn:?; simpl
         | |- context [match ?b with BodyEmpty => _ | _ => _ end] =>
             destruct b; simpl
         end.
  all: try match goal with
           | H : false = true |- _ => discriminate H
           | H : true = false |- _ => discriminate H
           end.
  all: try (left; split; [reflexivity | auto]; fail).
  all: right.
  all: match goal with
       | E : (retry_count ?v <? max_retries ?v)%nat = true |- _ =>
           apply Nat.ltb_lt in E
       | E : _ && (retry_count ?v <? max_retries ?v)%nat = true |- _ =>
           apply andb_prop in E; destruct E as [_ E]; apply Nat.ltb_lt in E
       end.
  all: (split; [assumption |]).
  all: match goal with
       | |- context [events (?f ?w')] =>
           pose proof (Hc w') as Hc';
           destruct (f w') as [[[a | e] w2] t2]; simpl in *;
           rewrite ?app_nil_r;
           try rewrite (Hc' e eq_refl); simpl; rewrite ?app_nil_r;
           (split; [reflexivity | auto])
       end.
Qed.

Lemma after_backoff_fields w :
  net (after_backoff w) = net w
  /\ sent (after_backoff w) = S (sent w)
  /\ retry_count (after_backoff w) = S (retry_count w)
  /\ max_retries (after_backoff w) = max_retries w.
Proof.
  unfold after_backoff. destruct (stop_lands w (slept w)); simpl; auto.
Qed.

Lemma backoff_delays_cons from count :
  backoff_delays from (S count)
  = (2 ^ Z.of_nat (S from))%Z :: backoff_delays (S from) count.
Proof. reflexivity. Qed.

Lemma handle_request_bounded_upto k :
  forall method endpoint params signed w,
    method <> OtherMethod ->
    max_retries w - retry_count w <= k ->
    let r := _handle_request method endpoint params signed w in
    exists n,
      n <= max_retries w - retry_count w
      /\ sleeps (events r) = backoff_delays (retry_count w) n
      /\ attempts (events r) = S n
      /\ (retry_count (final r) = 0
          \/ retry_count (final r) = retry_count w + n).
Proof.
  induction k as [| k IH]; intros method endpoint params signed w Hm Hk r;
    subst r; rewrite handle_request_unfold;
    destruct (body_shape (_handle_request method endpoint params signed)
                method endpoint params signed w Hm
                (contained_handle_request method endpoint params signed))
      as [[He Hc] | (Hlt & He & Hc)].
  - exists 0. rewrite He. simpl. rewrite Nat.add_0_r. repeat split; auto. lia.
  - lia.
  - exists 0. rewrite He. simpl. rewrite Nat.add_0_r. repeat split; auto. lia.
  - destruct (after_backoff_fields w) as (Hn & Hs & Hr & Hx).
    destruct (IH method endpoint params signed (after_backoff w) Hm)
      as (n & Hle & S1 & S2 & S3); [lia |].
    exists (S n). rewrite He. simpl. rewrite S1, S2, Hr.
    rewrite Hr, Hx in Hle.
    split; [lia |]. split; [reflexivity |]. split; [reflexivity |].
    destruct Hc as [Hc | Hc]; [auto |].
    rewrite Hc. rewrite Hr in S3. destruct S3 as [S3 | S3]; [auto | right; lia].
Qed.

(** X1: whatever the exchange answers, a call to the gateway makes at
    most [max_retries - retry_count + 1] attempts; between two attempts
    it sleeps, and the sleeps are the powers of two that follow the
    counter it started with; the counter ends at zero or where the last
    retry left it, never beyond [max_retries] if it started within. *)
Theorem X1_gateway_attempts_are_bounded :
  forall method endpoint params signed w,
    method <> OtherMethod ->
    let r := _handle_request method endpoint params signed w in
    exists n,
      n <= max_retries w - retry_count w
      /\ sleeps (events r) = backoff_delays (retry_count w) n
      /\ attempts (events r) = S n
      /\ (retry_count w <= max_retries w ->
          retry_count (final r) <= max_retries w).
Proof.
  intros method endpoint params signed w Hm r.
  destruct (handle_request_bounded_upto _ method endpoint params signed w Hm
              (Nat.le_refl _)) as (n & Hle & S1 & S2 & S3).
  exists n. repeat split; auto. intros Hc.
  fold r in S3. destruct S3 as [-> | ->]; lia.
Qed.

Lemma X1_witness :
  let r := _handle_request GET "depth" [] false
             (fresh_client (fun n => if (n <? 2)%nat then Failed
                                     else answers (JObj []))
                           default_config) in
  exists n,
    n <= 3 - 0
    /\ sleeps (events r) = backoff_delays 0 n
    /\ attempts (events r) = S n
    /\ (0 <= 3 -> retry_count (final r) <= 3).
Proof.
  apply (X1_gateway_attempts_are_bounded GET "depth" [] false
           (fresh_client (fun n => if (n <? 2)%nat then Failed else answers (JObj []))
                         default_config)).
  discriminate.
Defined.

(** X2: a call that meets [k] transient failures, within the retries
    the counter leaves it, and then a 200 answer returns the document of
    that answer after [k] back-off sleeps, and leaves the counter at
    zero. *)
Theorem X2_gateway_recovers_after_transient_failures :
  forall k method endpoint params signed w j,
    method <> OtherMethod ->
    retry_count w + k <= max_retries w ->
    (forall n, n < k -> transient (net w (sent w + n)) = true) ->
    net w (sent w + k) = answers j ->
    let r := _handle_request method endpoint params signed w in
    result r = Ok j
    /\ sleeps (events r) = backoff_delays (retry_count w) k
    /\ attempts (events r) = S k
    /\ retry_count (final r) = 0.
Proof.
  intros k. induction k as [| k IH]; intros method endpoint params signed w j Hm Hk Ht Hj r;
    subst r.
  - rewrite Nat.add_0_r in Hj.
    rewrite (handle_request_answers _ _ _ _ _ j Hm Hj). simpl. auto.
  - rewrite handle_request_unfold.
    rewrite body_retry; auto using contained_handle_request; try lia.
    2:{ specialize (Ht 0). rewrite Nat.add_0_r in Ht. apply Ht. lia. }
    destruct (after_backoff_fields w) as (Hn & Hs & Hr & Hx).
    destruct (IH method endpoint params signed (after_backoff w) j Hm)
      as (R1 & R2 & R3 & R4).
    + rewrite Hr, Hx. lia.
    + intros n Hlt. rewrite Hn, Hs.
      replace (S (sent w) + n) with (sent w + S n) by lia. apply Ht. lia.
    + rewrite Hn, Hs. replace (S (sent w) + k) with (sent w + S k) by lia.
      exact Hj.
    + simpl. rewrite R1, R2, R3, R4, Hr. auto.
Qed.



Lemma X2_witness :
  let r := _handle_request GET "depth" [] false
             (fresh_client (fun n => if (n <? 2)%nat then Failed
                                     else answers (JObj []))
                           default_config) in
  result r = Ok (JObj [])
  /\ sleeps (events r) = [2; 4]%Z
  /\ attempts (events r) = 3
  /\ retry_count (final r) = 0.
Proof.
  apply (X2_gateway_recovers_after_transient_failures 2 GET "depth" [] false
           (fresh_client (fun n => if (n <? 2)%nat then Failed else answers (JObj []))
                         default_config) (JObj [])).
  - discriminate.
  - simpl. unfold MAX_RETRIES. lia.
  - intros n Hn. destruct n as [| [| n]]; [reflexivity | reflexivity | lia].
  - reflexivity.
Defined.

(** X3: an answer whose status is neither 200 nor one of 429, 500, 502,
    503, 504, with a body that is empty or JSON, ends the call at once:
    one attempt, no sleep, the counter untouched.  The exception carries
    [error_data]: the body of the answer when there is one, and the
    status only when the body is empty. *)
Theorem X3_gateway_refusal_is_final :
  forall method endpoint params signed w status b,
    method <> OtherMethod ->
    net w (sent w) = Answered (mkResponse status b) ->
    status <> 200%Z ->
    retryable status = false ->
    b <> BodyText ->
    error_data (mkResponse status b)
    = Ok (match b with BodyJson j => ErrBody j | _ => ErrStatus status end)
    /\ forall data,
         error_data (mkResponse status b) = Ok data ->
         _handle_request method endpoint params signed w
         = (Raise (ApiError data), set_sent (S (sent w)) w,
            [EvHttp method endpoint params signed (net w (sent w))]).
Proof.
  intros method endpoint params signed w status b Hm Hn Hs Hr Hb.
  split; [destruct b; try congruence; reflexivity |].
  intros data Hd.
  rewrite handle_request_unfold. unfold_body.
  apply Z.eqb_neq in Hs.
  destruct method; try congruence; rewrite Hn; simpl; rewrite Hs;
    unfold error_data in *; simpl in *;
    destruct b; try congruence; simpl; injection Hd as <-;
    rewrite Hr; reflexivity.
Qed.

Lemma X3_witness :
  _handle_request POST "order" [] true
    (fresh_client (fun _ => rejected) default_config)
  = (Raise (ApiError (ErrBody (JObj [("code", JNum 30005)]))),
     set_sent 1 (fresh_client (fun _ => rejected) default_config),
     [EvHttp POST "order" [] true rejected]).
Proof.
  apply (X3_gateway_refusal_is_final POST "order" [] true
           (fresh_client (fun _ => rejected) default_config)
           400%Z (BodyJson (JObj [("code", JNum 30005)]))).
  - discriminate.
  - reflexivity.
  - discriminate.
  - reflexivity.
  - discriminate.
  - reflexivity.
Defined.

(** X4: the retries that one failing call used are missing from the
    next: when a call met only transient failures, the call that follows
    it, as long as the failures last, makes a single attempt and raises
    without any sleep. *)
Theorem X4_exhausted_retries_are_not_given_back :
  forall method endpoint params signed method' endpoint' params' signed' w,
    method <> OtherMethod ->
    method' <> OtherMethod ->
    retry_count w <= max_retries w ->
    (forall n, sent w <= n -> transient (net w n) = true) ->
    let first := _handle_request method endpoint params signed w in
    let second := _handle_request method' endpoint' params' signed' (final first) in
    retry_count (final first) = max_retries w
    /\ (exists e, result second = Raise e)
    /\ attempts (events second) = 1
    /\ sleeps (events second) = [].
Proof.
  intros method endpoint params signed method' endpoint' params' signed' w
    Hm Hm' Hc Ht first second.
  destruct (persistent_failure (max_retries w - retry_count w)
              method endpoint params signed w Hm eq_refl Ht)
    as (_ & _ & A1 & C1).
  fold first in A1, C1.
  pose proof (gate_handle_request method endpoint params signed w) as [F _].
  fold first in F.
  assert (Hmax : max_retries (final first) = max_retries w) by apply F.
  assert (Hnet : net (final first) = net w) by apply F.
  assert (Hsent : sent w <= sent (final first)) by apply F.
  split; [lia |].
  destruct (persistent_failure 0 method' endpoint' params' signed' (final first)
              Hm') as (R1 & R2 & R3 & _).
  - rewrite Hmax, C1. lia.
  - intros n Hle. rewrite Hnet. apply Ht. lia.
  - fold second in R1, R2, R3. split; [eauto |]. split; [exact R3 |].
    rewrite R2. reflexivity.
Qed.

Lemma X4_witness :
  let first := _handle_request GET "account" [] true
                 (fresh_client outage default_config) in
  let second := _handle_request GET "depth" [] false (final first) in
  retry_count (final first) = 3
  /\ (exists e, result second = Raise e)
  /\ attempts (events second) = 1
  /\ sleeps (events second) = [].
Proof.
  apply (X4_exhausted_retries_are_not_given_back
           GET "account" [] true GET "depth" [] false
           (fresh_client outage default_config)).
  - discriminate.
  - discriminate.
  - simpl. lia.
  - intros n _. reflexivity.
Defined.

(* ================================================================= *)
(** ** The price, whatever the book shows *)

Lemma raw_price_in_band (c : Config) (lo hi bid ask r : Q) :
  band c lo hi ->
  (lo <= hi)%Q ->
  (0 <= r <= 1)%Q ->
  exists q, raw_price c bid ask r = Finite q /\ (lo <= q <= hi)%Q.
Proof.
  intros [Hlo Hhi] Hband Hr. unfold raw_price.
  destruct (in_band c bid ask) eqn:E.
  - unfold in_band in E. rewrite Hlo, Hhi in E.
    apply andb_prop in E as [Eb Ea].
    apply between_iff in Eb. apply between_iff in Ea.
    eexists. split; [reflexivity |].
    assert (E1 : (bid + (ask - bid) * r - lo
                  == (1 - r) * (bid - lo) + r * (ask - lo))%Q)
      by ring.
    assert (E2 : (hi - (bid + (ask - bid) * r)
                  == (1 - r) * (hi - bid) + r * (hi - ask))%Q)
      by ring.
    assert (P1 : (0 <= (1 - r) * (bid - lo))%Q)
      by (apply Qmult_le_0_compat; lra).
    assert (P2 : (0 <= r * (ask - lo))%Q)
      by (apply Qmult_le_0_compat; lra).
    assert (P3 : (0 <= (1 - r) * (hi - bid))%Q)
      by (apply Qmult_le_0_compat; lra).
    assert (P4 : (0 <= r * (hi - ask))%Q)
      by (apply Qmult_le_0_compat; lra).
    lra.
  - rewrite Hlo, Hhi, fl_clamp_finite.
    eexists. split; [reflexivity |]. apply clamp_in_band, Hband.
Qed.

(** X5: with a band of two finite numbers, positive and in order, whose
    sum stays under the overflow threshold of the doubles, whatever the
    exchange answers to the order-book request the price that
    [_decide_price] returns is a finite number within half of 1e-8 of
    the band, and inside the band when the ends of the band are
    multiples of 1e-8. *)
Theorem X5_decided_price_stays_in_band :
  forall w lo hi,
    band (cfg w) lo hi ->
    (0 < lo <= hi)%Q ->
    (lo + hi < FLOAT_OVERFLOW)%Q ->
    (forall n, 0 <= rnd w n <= 1)%Q ->
    exists price,
      result (_decide_price w) = Ok (Finite price)
      /\ (lo - (1 # 2) / pow10 8 <= price <= hi + (1 # 2) / pow10 8)%Q
      /\ (on_grid lo -> on_grid hi -> (lo <= price <= hi)%Q).
Proof.
  intros w lo hi Hb [Hpos Hband] Hsum Hr.
  pose proof (pow10_pos 8) as Hp.
  assert (Hhalf : (0 <= (1 # 2) / pow10 8)%Q).
  { apply Qle_shift_div_l; [exact Hp | lra]. }
  destruct (get_bid_ask SYMBOL w) as [[[[bid ask] | e] w1] t1] eqn:H.
  - pose proof (within_get_bid_ask SYMBOL w) as [F _]. rewrite H in F. simpl in F.
    destruct (raw_price_in_band (cfg w) lo hi bid ask (rnd w1 (drawn w1))
                Hb Hband) as (q & Eq & Hq).
    { rewrite (frame_rnd _ _ F). apply Hr. }
    exists (py_round q 8).
    split; [rewrite (decide_price_from_quote _ _ _ _ _ H), Eq; reflexivity |].
    pose proof (py_round_near q 8).
    split; [lra |]. intros G1 G2. split.
    + apply py_round_ge_grid; tauto.
    + apply py_round_le_grid; tauto.
  - exists ((lo + hi) / 2)%Q.
    destruct Hb as [Hlo Hhi].
    split.
    + rewrite (decide_price_fallback_run _ _ _ _ H), Hlo, Hhi. simpl.
      rewrite fl_of_sum_finite; [reflexivity |].
      assert (0 < FLOAT_OVERFLOW)%Q by (vm_compute; reflexivity).
      lra.
    + assert (E : ((lo + hi) / 2 == (lo + hi) * (1 # 2))%Q) by field.
      rewrite E. split; [lra |]. intros _ _. lra.
Qed.

Lemma X5_witness :
  exists price,
    result (_decide_price fine_quote) = Ok (Finite price)
    /\ (10 - (1 # 2) / pow10 8 <= price <= 12 + (1 # 2) / pow10 8)%Q
    /\ (on_grid 10 -> on_grid 12 -> (10 <= price <= 12)%Q).
Proof.
  apply (X5_decided_price_stays_in_band fine_quote 10 12).
  - split; reflexivity.
  - lra.
  - vm_compute. reflexivity.
  - intros n. simpl. lra.
Defined.

Lemma top_price_empty book side levels :
  dict_get book side JNull = Ok levels ->
  truthy levels = false ->
  top_price book side = Ok 0%Q.
Proof. intros H T. unfold top_price. rewrite H, T. reflexivity. Qed.

Lemma get_bid_ask_answer symbol w book bid ask :
  net w (sent w) = answers book ->
  top_price book "bids" = Ok bid ->
  top_price book "asks" = Ok ask ->
  get_bid_ask symbol w
  = (Ok (bid, ask), set_retry_count 0 (set_sent (S (sent w)) w),
     [EvHttp GET "depth"
        [("symbol", JStr symbol); ("limit", JNum (inject_Z 1))] false
        (answers book);
      EvApi (CallDepth symbol 1) (Ok book)]).
Proof.
  intros Hn Hb Ha. unfold get_bid_ask, get_orderbook.
  rewrite bind_eq, api_eq.
  rewrite (handle_request_answers _ _ _ _ _ book) by (auto; discriminate).
  simpl. rewrite bind_eq. unfold lift at 1. rewrite Hb. simpl.
  rewrite bind_eq. unfold lift at 1. rewrite Ha. reflexivity.
Qed.

(** X6: when the order book comes back with no bid and no ask, both
    quotes read as 0, and with a band of finite numbers that starts
    above 0 the price decided is the lower end of the band, rounded to 8
    decimals. *)
Theorem X6_empty_book_gives_the_minimum_price :
  forall w book bids asks lo hi,
    net w (sent w) = answers book ->
    dict_get book "bids" JNull = Ok bids -> truthy bids = false ->
    dict_get book "asks" JNull = Ok asks -> truthy asks = false ->
    band (cfg w) lo hi ->
    (0 < lo <= hi)%Q ->
    result (get_bid_ask SYMBOL w) = Ok (0%Q, 0%Q)
    /\ result (_decide_price w) = Ok (Finite (py_round lo 8)).
Proof.
  intros w book bids asks lo hi Hn Hb Tb Ha Ta [Hlo Hhi] [Hpos Hband].
  pose proof (get_bid_ask_answer SYMBOL w book 0%Q 0%Q Hn
                (top_price_empty _ _ _ Hb Tb) (top_price_empty _ _ _ Ha Ta)) as H.
  split; [rewrite H; reflexivity |].
  rewrite (decide_price_from_quote _ _ _ _ _ H).
  f_equal. unfold raw_price, in_band, between. rewrite Hlo, Hhi. simpl.
  assert (E1 : Qle_bool lo 0 = false).
  { destruct (Qle_bool lo 0) eqn:E; [| reflexivity].
    apply Qle_bool_iff in E. lra. }
  rewrite E1. simpl. rewrite fl_clamp_finite. simpl. do 2 f_equal.
  unfold py_min, py_max.
  destruct (Qlt_bool _ hi) eqn:E2.
  - destruct (Qlt_bool lo _) eqn:E3; [| reflexivity].
    apply Qlt_bool_iff in E3. ring_simplify in E3. lra.
  - apply Qlt_bool_false_iff in E2. ring_simplify in E2. lra.
Qed.

Lemma X6_witness :
  let w := fresh_client (fun _ => answers (JObj [("bids", JArr []); ("asks", JArr [])]))
                        default_config in
  result (get_bid_ask SYMBOL w) = Ok (0%Q, 0%Q)
  /\ result (_decide_price w) = Ok (Finite (py_round 10 8)).
Proof.
  intros w.
  apply (X6_empty_book_gives_the_minimum_price w
           (JObj [("bids", JArr []); ("asks", JArr [])]) (JArr []) (JArr [])
           10 12);
    try reflexivity.
  - split; reflexivity.
  - lra.
Defined.

(* ================================================================= *)
(** ** Reconciliation of one order *)

(** X7: [check_and_cancel_order] never raises.  It reports the order
    filled only after a status answer that says FILLED, and then sends
    no cancel and returns the executed quantity of that answer; when it
    reports the order not filled it has asked to cancel it; and when the
    status query itself failed it returns quantity and price 0. *)
Theorem X7_reconciliation_outcomes :
  forall symbol order_id w,
    let r := check_and_cancel_order symbol order_id w in
    exists filled qty price,
      result r = Ok (filled, qty, price)
      /\ (filled = true ->
          exists answer status,
            calls_of r = [(CallOrderStatus symbol order_id, Ok answer)]
            /\ dict_get answer "status" JNull = Ok status
            /\ eq_str status "FILLED" = true
            /\ float_field answer "executedQty" = Ok qty
            /\ float_field answer "price" = Ok price)
      /\ (filled = false -> cancel_requested (calls_of r) order_id)
      /\ (forall e,
            In (CallOrderStatus symbol order_id, Raise e) (calls_of r) ->
            filled = false /\ qty = 0%Q /\ price = 0%Q).
Proof.
  intros symbol order_id w r. subst r. unfold calls_of.
  destruct (check_and_cancel_order symbol order_id w) as [[r w'] t] eqn:H.
  simpl. unfold check_and_cancel_order in H. split_run H.
  all: rewrite ?api_events_app.
  all: repeat match goal with
         | H : get_order_status _ _ _ = _ |- _ =>
             apply get_order_status_run in H as [_ ?]
         | H : cancel_order _ _ _ = _ |- _ =>
             apply cancel_order_run in H as [_ ?]
         | H : cancel_quietly _ _ _ = _ |- _ =>
             let Hq := fresh "Hq" in
             apply cancel_quietly_run in H as [Hq [? ?]];
             try discriminate Hq
         | H : api_events _ = _ |- _ => rewrite H; clear H
         end.
  all: simpl.
  all: do 3 eexists; split; [reflexivity |].
  all: split; [first [ discriminate
                     | intros _; do 2 eexists; repeat split; eassumption ] |].
  all: split; [first [ discriminate
                     | intros _; do 2 eexists; simpl;
                       solve [repeat (first [left; reflexivity | right])] ] |].
  all: intros ? Hin; simpl in Hin;
    repeat match goal with
      | H : _ \/ _ |- _ => destruct H
      | H : False |- _ => destruct H
      | H : (_, _) = (_, _) |- _ => inversion H; clear H; subst
      end; auto.
Qed.
(* ================================================================= *)
(** ** A cycle with the configuration as it is *)

Lemma requests_app t1 t2 : requests (t1 ++ t2) = requests t1 ++ requests t2.
Proof.
  induction t1 as [| e t1 IH]; simpl; [reflexivity |].
  destruct e; simpl; rewrite IH; reflexivity.
Qed.

Section Asks.

Variable P : Method * string -> Prop.

Lemma asks_refl w : asks P w w [].
Proof. constructor. Qed.

Lemma asks_trans w w1 w2 t1 t2 :
  asks P w w1 t1 -> asks P w1 w2 t2 -> asks P w w2 (t1 ++ t2).
Proof.
  unfold asks. intros H1 H2. rewrite requests_app. apply Forall_app. auto.
Qed.

Lemma asks_silent {A} (c : M A) :
  (forall w, requests (events (c w)) = []) -> Respects (asks P) c.
Proof. intros H w. unfold asks. rewrite H. constructor. Qed.

Lemma asks_sleep seconds : Respects (asks P) (sleep seconds).
Proof. apply asks_silent. reflexivity. Qed.

Lemma asks_modify f : Respects (asks P) (modify f).
Proof. apply asks_silent. reflexivity. Qed.

Lemma asks_random : Respects (asks P) random.
Proof. apply asks_silent. reflexivity. Qed.

Lemma asks_notify n : Respects (asks P) (notify n).
Proof.
  apply asks_silent. intros w. rewrite notify_eq. simpl.
  destruct (telegram_sender w); reflexivity.
Qed.

Lemma asks_reset_on_success response : Respects (asks P) (reset_on_success response).
Proof.
  apply asks_silent. intros w. unfold reset_on_success.
  destruct response as [r |]; [| reflexivity].
  destruct (status_code r =? 200)%Z; reflexivity.
Qed.

Lemma asks_send method endpoint params signed :
  P (method, endpoint) -> Respects (asks P) (send method endpoint params signed).
Proof.
  intros H w. unfold send, asks.
  destruct method; simpl; repeat constructor; exact H.
Qed.

Ltac asks_tac :=
  respects_with asks_refl asks_trans
    ltac:(first [ simple apply asks_sleep | simple apply asks_modify
                | simple apply asks_random | simple apply asks_notify
                | simple apply asks_reset_on_success
                | simple apply asks_send; assumption ]).

Lemma asks_handle_request_body again method endpoint params signed :
  P (method, endpoint) ->
  Respects (asks P) again ->
  Respects (asks P) (handle_request_body again method endpoint params signed).
Proof.
  intros Hp Ha.
  unfold handle_request_body, on_response, on_request_exception,
    retry_after_backoff.
  asks_tac.
Qed.

Lemma asks_handle_request_fuel fuel method endpoint params signed :
  P (method, endpoint) ->
  Respects (asks P) (handle_request_fuel fuel method endpoint params signed).
Proof.
  intros Hp. induction fuel as [| fuel IH]; simpl.
  - apply (respects_raise _ asks_refl).
  - apply asks_handle_request_body; assumption.
Qed.

(** Whatever the gateway sends for a request, and sends again, is that
    request. *)
Lemma asks_handle_request method endpoint params signed :
  P (method, endpoint) ->
  Respects (asks P) (_handle_request method endpoint params signed).
Proof. intros Hp w. apply asks_handle_request_fuel, Hp. Qed.

Lemma asks_api c request : Respects (asks P) request -> Respects (asks P) (api c request).
Proof.
  intros H w. unfold asks. rewrite api_eq. simpl. rewrite requests_app. simpl.
  rewrite app_nil_r. apply H.
Qed.

End Asks.

Ltac reads_tac :=
  respects_with (asks_refl reads) (asks_trans reads)
    ltac:(first [ simple apply asks_sleep | simple apply asks_modify
                | simple apply asks_random | simple apply asks_notify
                | simple apply asks_api; simple apply asks_handle_request;
                  first [ left; reflexivity | right; reflexivity ] ]).

Lemma reads_check_balances : Respects (asks reads) _check_balances.
Proof.
  unfold _check_balances, get_specific_balance, get_balances, get_account_info.
  reads_tac.
Qed.

Lemma reads_decide_price : Respects (asks reads) _decide_price.
Proof.
  unfold _decide_price, choose_price, get_bid_ask, get_orderbook, uniform.
  reads_tac.
Qed.

Lemma reads_wait_slices n : Respects (asks reads) (wait_slices n).
Proof. induction n as [| n IH]; simpl; reads_tac. Qed.

(** The lookup of the quantity ends every trade, after the price. *)
Lemma trade_once_raises w :
  exists price,
    result (_decide_price w) = Ok price
    /\ trade_once w
       = (Raise AttributeError, final (_decide_price w),
          events (_decide_price w)).
Proof.
  destruct (decide_price_never_raises w) as [price Hp]. exists price.
  split; [exact Hp |].
  unfold trade_once. rewrite bind_eq.
  destruct (_decide_price w) as [[r w1] t1]. simpl in *. subst r.
  unfold TRADE_AMOUNT, raise, prepend. simpl. rewrite app_nil_r. reflexivity.
Qed.

(** The guard answered [True]: the price is decided, the lookup of the
    quantity raises, no order id is known to the [except] clause, and
    the cycle reports the error and is over. *)
Lemma execute_trade_guard_passed w :
  result (_check_balances (cycle_entry w)) = Ok true ->
  let checked := _check_balances (cycle_entry w) in
  let priced := _decide_price (final checked) in
  execute_trade w =
  (Ok false, final priced,
   events checked ++ events priced
   ++ (if telegram_sender w then [EvNotify (MsgTradeError AttributeError)]
       else [])).
Proof.
  intros H checked priced. subst checked priced.
  rewrite execute_trade_eq, try_except_eq.
  unfold execute_trade_body. rewrite bind_eq.
  pose proof (within_check_balances (cycle_entry w)) as [F1 _].
  destruct (_check_balances (cycle_entry w)) as [[r w1] t1]. simpl in *.
  subst r. simpl.
  destruct (trade_once_raises w1) as (price & _ & ->).
  pose proof (within_decide_price w1) as [F2 _].
  destruct (_decide_price w1) as [[r2 w2] t2]. simpl in *.
  assert (Hb : buy_order_id w2 = JNull)
    by (rewrite (frame_buy_order_id _ _ F2), (frame_buy_order_id _ _ F1);
        reflexivity).
  assert (Hs : sell_order_id w2 = JNull)
    by (rewrite (frame_sell_order_id _ _ F2), (frame_sell_order_id _ _ F1);
        reflexivity).
  assert (Ht : telegram_sender w2 = telegram_sender w)
    by (rewrite (frame_telegram_sender _ _ F2), (frame_telegram_sender _ _ F1);
        reflexivity).
  unfold execute_trade_failed, cancel_known_orders, cancel_if_known.
  rewrite bind_eq, try_except_eq, bind_eq. simpl.
  rewrite Hb. simpl. rewrite ?bind_eq. simpl. rewrite Hs. simpl.
  rewrite ?bind_eq, notify_eq, Ht. simpl.
  unfold prepend, ret. simpl. rewrite ?app_nil_r, <- ?app_assoc.
  reflexivity.
Qed.

Lemma execute_trade_cases w :
  result (_check_balances (cycle_entry w)) = Ok false
  \/ result (_check_balances (cycle_entry w)) = Ok true.
Proof.
  destruct (check_balances_never_raises (cycle_entry w)) as [[] H]; auto.
Qed.

Lemma reads_execute_trade : Respects (asks reads) execute_trade.
Proof.
  intros w. unfold asks.
  pose proof (reads_check_balances (cycle_entry w)) as R1.
  pose proof (reads_decide_price (final (_check_balances (cycle_entry w)))) as R2.
  unfold asks in R1, R2.
  destruct (execute_trade_cases w) as [H | H].
  - rewrite (execute_trade_guard_fails w H). simpl.
    rewrite requests_app. apply Forall_app. split; [exact R1 |].
    destruct (telegram_sender _); constructor.
  - rewrite (execute_trade_guard_passed w H). simpl.
    rewrite !requests_app. apply Forall_app. split; [exact R1 |].
    apply Forall_app. split; [exact R2 |].
    destruct (telegram_sender _); constructor.
Qed.

Lemma reads_loop_body : Respects (asks reads) loop_body.
Proof.
  unfold loop_body, randint.
  respects_with (asks_refl reads) (asks_trans reads)
    ltac:(first [ simple apply reads_execute_trade
                | simple apply reads_wait_slices
                | simple apply asks_sleep
                | simple apply asks_random ]).
Qed.

Lemma reads_trading_loop fuel : Respects (asks reads) (trading_loop fuel).
Proof.
  induction fuel as [| fuel IH]; cbn [trading_loop];
    respects_with (asks_refl reads) (asks_trans reads)
      ltac:(simple apply reads_loop_body).
Qed.

Lemma uncounted_refl w : uncounted w w [].
Proof. reflexivity. Qed.

Lemma uncounted_trans w w1 w2 t1 t2 :
  uncounted w w1 t1 -> uncounted w1 w2 t2 -> uncounted w w2 (t1 ++ t2).
Proof. unfold uncounted. congruence. Qed.

Lemma uncounted_within P {A} (c : M A) :
  Respects (within P) c -> Respects uncounted c.
Proof. intros H w. destruct (H w) as [F _]. apply (frame_trade_count _ _ F). Qed.

Lemma uncounted_modify (f : World -> World) :
  (forall w, trade_count (f w) = trade_count w) -> Respects uncounted (modify f).
Proof. intros H w. apply H. Qed.

Ltac uncounted_tac :=
  respects_with uncounted_refl uncounted_trans
    ltac:(first
            [ simple apply uncounted_modify; intros ?; reflexivity
            | simple apply (uncounted_within not_create);
              first [ simple apply within_check_balances
                    | simple apply within_decide_price
                    | simple apply within_cancel_order
                    | simple apply within_sleep
                    | simple apply within_random
                    | simple apply within_notify ] ]).

Lemma uncounted_wait_slices n : Respects uncounted (wait_slices n).
Proof. induction n as [| n IH]; simpl; uncounted_tac. Qed.

Lemma uncounted_execute_trade : Respects uncounted execute_trade.
Proof.
  unfold execute_trade, execute_trade_body, trade_once, TRADE_AMOUNT,
    execute_trade_failed, cancel_known_orders, cancel_if_known.
  uncounted_tac.
Qed.

Lemma uncounted_loop_body : Respects uncounted loop_body.
Proof.
  unfold loop_body, randint.
  respects_with uncounted_refl uncounted_trans
    ltac:(first [ simple apply uncounted_execute_trade
                | simple apply uncounted_wait_slices
                | simple apply (uncounted_within not_create);
                  first [ simple apply within_sleep
                        | simple apply within_random ] ]).
Qed.

Lemma uncounted_trading_loop fuel : Respects uncounted (trading_loop fuel).
Proof.
  induction fuel as [| fuel IH]; cbn [trading_loop];
    respects_with uncounted_refl uncounted_trans
      ltac:(simple apply uncounted_loop_body).
Qed.

(** X8: with [config.py] as it is, no cycle completes.  A trade decides
    its price and then raises [AttributeError] at the lookup of
    [config.TRADE_AMOUNT], before the first order is built.  So
    [execute_trade] returns [False] every time: when the balance guard
    passes, what the cycle does is the guard, the price decision and the
    report of that error, with no order to cancel in between.  The count
    of trades stays where it was, over any number of turns of the worker
    loop. *)
Theorem X8_no_cycle_completes :
  (forall w,
     exists price,
       result (_decide_price w) = Ok price
       /\ result (trade_once w) = Raise AttributeError)
  /\ (forall w,
        let r := execute_trade w in
        let checked := _check_balances (cycle_entry w) in
        result r = Ok false
        /\ trade_count (final r) = trade_count w
        /\ (result checked = Ok true ->
            events r
            = events checked
              ++ events (_decide_price (final checked))
              ++ (if telegram_sender w
                  then [EvNotify (MsgTradeError AttributeError)]
                  else [])))
  /\ (forall fuel w,
        trade_count (final (trading_loop fuel w)) = trade_count w).
Proof.
  split.
  { intros w. destruct (trade_once_raises w) as (price & Hp & E).
    exists price. rewrite E. auto. }
  split.
  - intros w r checked. subst r checked.
    split.
    + destruct (execute_trade_cases w) as [H | H].
      * rewrite (execute_trade_guard_fails w H). reflexivity.
      * rewrite (execute_trade_guard_passed w H). reflexivity.
    + split; [apply uncounted_execute_trade |].
      intros H. rewrite (execute_trade_guard_passed w H). reflexivity.
  - intros fuel w. apply uncounted_trading_loop.
Qed.

Lemma X8_witness :
  let w := running_bot funded default_config in
  result (_check_balances (cycle_entry w)) = Ok true
  /\ result (execute_trade w) = Ok false
  /\ In (EvNotify (MsgTradeError AttributeError)) (events (execute_trade w)).
Proof.
  intros w.
  destruct X8_no_cycle_completes as (_ & H & _).
  destruct (H w) as (R & _ & E).
  assert (G : result (_check_balances (cycle_entry w)) = Ok true)
    by (vm_compute; reflexivity).
  split; [exact G |]. split; [exact R |].
  rewrite (E G). apply in_or_app. right. apply in_or_app. right.
  left. reflexivity.
Defined.

(** X9: the worker sends no order to the exchange.  Every HTTP request
    of a cycle, and of any number of turns of the worker loop, counting
    each request that the gateway sends again, is a GET of the account
    or of the order book: no POST and no DELETE leaves the worker, and no
    call of a cycle opens an order. *)
Theorem X9_worker_sends_no_order :
  (forall w, Forall reads (requests (events (execute_trade w))))
  /\ (forall fuel w, Forall reads (requests (events (trading_loop fuel w))))
  /\ (forall w id, ~ opened (calls_of (execute_trade w)) id).
Proof.
  split; [exact reads_execute_trade |].
  split; [intros fuel w; apply reads_trading_loop |].
  intros w id. unfold calls_of.
  pose proof (within_check_balances (cycle_entry w)) as [_ N1].
  pose proof (within_decide_price (final (_check_balances (cycle_entry w))))
    as [_ N2].
  destruct (execute_trade_cases w) as [H | H].
  - rewrite (execute_trade_guard_fails w H). simpl.
    rewrite api_events_app, api_events_notice, app_nil_r.
    apply opened_not_create, N1.
  - rewrite (execute_trade_guard_passed w H). simpl.
    rewrite !api_events_app.
    replace (api_events (if telegram_sender w
                         then [EvNotify (MsgTradeError AttributeError)]
                         else []))
      with (@nil (ApiCall * Res Json)) by (destruct (telegram_sender w); reflexivity).
    rewrite app_nil_r. apply opened_not_create.
    apply Forall_app. split; assumption.
Qed.

Lemma X9_witness :
  let sent := requests (events (execute_trade (running_bot funded default_config))) in
  Forall reads sent
  /\ sent = [(GET, "account"); (GET, "account"); (GET, "depth")].
Proof.
  intros sent. split.
  - apply (proj1 X9_worker_sends_no_order).
  - vm_compute. reflexivity.
Defined.

(* ================================================================= *)
(** ** The worker between two cycles *)

Lemma trading_loop_never_raises fuel : never_raises (trading_loop fuel).
Proof.
  induction fuel as [| fuel IH]; intros w; destruct (running w) eqn:Hr;
    try (rewrite (trading_loop_exits _ w Hr); simpl; eauto; fail).
  - cbn [trading_loop]. rewrite bind_eq. simpl. rewrite Hr. simpl. eauto.
  - rewrite (trading_loop_step fuel w Hr). unfold prepend. simpl.
    apply IH.
Qed.

Lemma start_never_raises : never_raises start.
Proof.
  intros w. unfold start. rewrite bind_eq. simpl.
  destruct (running w); simpl; [eauto |].
  rewrite bind_eq.
  destruct (check_balances_never_raises w) as [[] ->]; simpl;
    rewrite !bind_eq, ?notify_eq; simpl; rewrite ?bind_eq, ?notify_eq; simpl;
    eauto.
Qed.

Lemma stop_never_raises : never_raises stop.
Proof.
  intros w. destruct (running w) eqn:Hr.
  - destruct (stop_when_running w Hr) as (R & _). eauto.
  - rewrite (stop_when_stopped w Hr). simpl. eauto.
Qed.

(** X10: no exception leaves [start()], [stop()], a cycle or the worker
    loop: each returns normally, whatever the exchange answers and
    whatever the settings are. *)
Theorem X10_engine_entry_points_never_raise :
  never_raises start
  /\ never_raises stop
  /\ never_raises execute_trade
  /\ forall fuel, never_raises (trading_loop fuel).
Proof.
  split; [exact start_never_raises |].
  split; [exact stop_never_raises |].
  split; [exact execute_trade_never_raises | exact trading_loop_never_raises].
Qed.

Lemma wait_slices_quiet n :
  forall w,
    running w = true ->
    quiet w ->
    result (wait_slices n w) = Ok tt
    /\ events (wait_slices n w) = repeat (EvSleep 1) n
    /\ running (final (wait_slices n w)) = true.
Proof.
  induction n as [| n IH]; intros w Hr Hq; simpl.
  - auto.
  - rewrite bind_eq. simpl. rewrite Hr. simpl.
    rewrite bind_eq. unfold sleep at 1 2 3. simpl. rewrite (Hq (slept w)).
    destruct (IH (set_slept (S (slept w)) w) Hr Hq) as (R1 & R2 & R3).
    rewrite R1, R2. simpl. auto.
Qed.

Lemma randint_in_range (a b : Z) (r : Q) :
  (a <= b)%Z ->
  (0 <= r)%Q -> (r < 1)%Q ->
  (a <= a + Qfloor (r * inject_Z (b - a + 1)) <= b)%Z.
Proof.
  intros Hab H0 H1.
  assert (Hn : (0 < inject_Z (b - a + 1))%Q).
  { change 0%Q with (inject_Z 0). rewrite <- Zlt_Qlt. lia. }
  assert (Hlo : (inject_Z 0 <= r * inject_Z (b - a + 1))%Q).
  { change (inject_Z 0) with 0%Q. apply Qmult_le_0_compat; lra. }
  assert (Hhi : (r * inject_Z (b - a + 1) < inject_Z (b - a + 1))%Q).
  { assert (E : (inject_Z (b - a + 1) == 1 * inject_Z (b - a + 1))%Q) by ring.
    rewrite E at 2. apply Qmult_lt_compat_r; assumption. }
  apply Qfloor_resp_le in Hlo. rewrite Qfloor_Z in Hlo.
  pose proof (Qfloor_le (r * inject_Z (b - a + 1))) as Hfl.
  assert (Hf : (inject_Z (Qfloor (r * inject_Z (b - a + 1)))
                < inject_Z (b - a + 1))%Q) by lra.
  rewrite <- Zlt_Qlt in Hf. lia.
Qed.

Lemma randint_eq a b w :
  randint a b w
  = if (b <? a)%Z then (Raise ValueError, w, [])
    else (Ok (a + Qfloor (rnd w (drawn w) * inject_Z (b - a + 1)))%Z,
          set_drawn (S (drawn w)) w, []).
Proof. unfold randint. destruct (b <? a)%Z; reflexivity. Qed.

(** X11: after a cycle that leaves the bot running, with no [stop()]
    on its way, the worker draws a whole number of seconds between
    [MIN_INTERVAL] and [MAX_INTERVAL] and sleeps it in one-second
    slices before the next cycle; with [MIN_INTERVAL] above
    [MAX_INTERVAL] the draw raises and the turn ends with the five
    seconds of the error path instead. *)
Theorem X11_wait_between_cycles :
  forall w,
    let cycle := execute_trade w in
    let lo := MIN_INTERVAL (cfg (final cycle)) in
    let hi := MAX_INTERVAL (cfg (final cycle)) in
    let r := rnd (final cycle) (drawn (final cycle)) in
    running (final cycle) = true ->
    quiet (final cycle) ->
    ((lo <= hi)%Z -> (0 <= r)%Q -> (r < 1)%Q ->
     exists wait_time : Z,
       (lo <= wait_time <= hi)%Z
       /\ events (loop_body w)
          = events cycle ++ repeat (EvSleep 1) (Z.to_nat wait_time)
       /\ running (final (loop_body w)) = true)
    /\ ((hi < lo)%Z ->
        events (loop_body w) = events cycle ++ [EvSleep 5]).
Proof.
  intros w cycle lo hi r Hr Hq. subst cycle lo hi r.
  unfold loop_body. rewrite try_except_eq, bind_eq.
  destruct (execute_trade_never_raises w) as [b Hb].
  destruct (execute_trade w) as [[rc w1] t1]. simpl in *. subst rc.
  rewrite bind_eq. simpl. rewrite Hr. rewrite bind_eq, randint_eq.
  split.
  - intros Hle H0 H1.
    assert (E : (MAX_INTERVAL (cfg w1) <? MIN_INTERVAL (cfg w1))%Z = false)
      by (apply Z.ltb_ge; lia).
    rewrite E.
    pose proof (randint_in_range _ _ _ Hle H0 H1) as Hw.
    set (wait_time := (_ + Qfloor _)%Z) in *.
    exists wait_time. split; [exact Hw |].
    destruct (wait_slices_quiet (Z.to_nat wait_time)
                (set_drawn (S (drawn w1)) w1) Hr Hq) as (R1 & R2 & R3).
    simpl. unfold prepend. rewrite R1. simpl. rewrite R2, R3. auto.
  - intros Hlt.
    assert (E : (MAX_INTERVAL (cfg w1) <? MIN_INTERVAL (cfg w1))%Z = true)
      by (apply Z.ltb_lt; lia).
    rewrite E. simpl. rewrite app_nil_r. reflexivity.
Qed.

Lemma X11_witness :
  let w := running_bot funded default_config in
  exists wait_time : Z,
    (30 <= wait_time <= 50)%Z
    /\ events (loop_body w)
       = events (execute_trade w) ++ repeat (EvSleep 1) (Z.to_nat wait_time)
    /\ running (final (loop_body w)) = true.
Proof.
  intros w.
  assert (Hr : running (final (execute_trade w)) = true)
    by (vm_compute; reflexivity).
  assert (Hq : quiet (final (execute_trade w))).
  { intros n.
    pose proof (execute_trade_guard_passes w (fun _ => eq_refl)) as G.
    destruct G as (_ & _ & G & _); [vm_compute; reflexivity |].
    rewrite G. reflexivity. }
  destruct (X11_wait_between_cycles w Hr Hq) as [H _].
  assert (Hc : cfg (final (execute_trade w)) = default_config).
  { pose proof (execute_trade_guard_passes w (fun _ => eq_refl)) as G.
    destruct G as (_ & _ & _ & G & _); [vm_compute; reflexivity |].
    exact G. }
  assert (Hd : rnd (final (execute_trade w)) (drawn (final (execute_trade w)))
               = 0%Q).
  { pose proof (paced_execute_trade w) as _.
    assert (F : rnd (final (execute_trade w)) = rnd w).
    { vm_compute. reflexivity. }
    rewrite F. reflexivity. }
  rewrite Hc, Hd in H. simpl in H.
  apply H; [lia | lra | lra].
Defined.

(* ================================================================= *)
(** ** Starting the bot *)

Lemma within_account_check_balances :
  Respects (within account_only) _check_balances.
Proof.
  unfold _check_balances, get_specific_balance, get_balances, get_account_info.
  respects_with (within_refl account_only) (within_trans account_only)
    ltac:(simple apply within_api;
          [reflexivity | simple apply gate_handle_request]).
Qed.

Lemma workers_spawned_app t1 t2 :
  workers_spawned (t1 ++ t2) = workers_spawned t1 + workers_spawned t2.
Proof.
  induction t1 as [| e t1 IH]; simpl; [reflexivity |].
  destruct e; simpl; rewrite IH; reflexivity.
Qed.

Lemma unspawned_refl w : unspawned w w [].
Proof. reflexivity. Qed.

Lemma unspawned_trans w w1 w2 t1 t2 :
  unspawned w w1 t1 -> unspawned w1 w2 t2 -> unspawned w w2 (t1 ++ t2).
Proof.
  unfold unspawned. intros H1 H2. rewrite workers_spawned_app, H1, H2.
  reflexivity.
Qed.

Lemma unspawned_api c request :
  Respects gate request -> Respects unspawned (api c request).
Proof.
  intros H w. unfold unspawned. rewrite api_eq. simpl.
  rewrite workers_spawned_app. simpl. rewrite Nat.add_0_r.
  destruct (H w) as [_ L].
  induction L as [| e t He _ IH]; simpl; [reflexivity |].
  destruct e; simpl in *; try contradiction; exact IH.
Qed.

Lemma check_balances_spawns_nothing : Respects unspawned _check_balances.
Proof.
  unfold _check_balances, get_specific_balance, get_balances, get_account_info.
  respects_with unspawned_refl unspawned_trans
    ltac:(simple apply unspawned_api; simple apply gate_handle_request).
Qed.

(** X12: [start()] returns [True] exactly when the bot was stopped and
    the balance guard passed; it then sets [running] and starts one
    worker.  Otherwise it starts none and leaves [running] as it was.
    Either way its only requests are for the account: it submits and
    cancels nothing. *)
Theorem X12_start_spawns_one_worker_or_none :
  forall w,
    let r := start w in
    (result r = Ok true
     <-> running w = false /\ result (_check_balances w) = Ok true)
    /\ (result r = Ok true ->
        running (final r) = true /\ workers_spawned (events r) = 1)
    /\ (result r = Ok false ->
        running (final r) = running w /\ workers_spawned (events r) = 0)
    /\ Forall (fun cr => fst cr = CallAccount) (calls_of r).
Proof.
  intros w r. subst r. unfold calls_of.
  destruct (running w) eqn:Hr.
  { rewrite (start_when_running w Hr). simpl.
    repeat split; try discriminate; auto.
    intros [H _]. discriminate. }
  pose proof (within_account_check_balances w) as [F N].
  pose proof (check_balances_spawns_nothing w) as Hs. unfold unspawned in Hs.
  destruct (check_balances_never_raises w) as [b Hb].
  unfold start. rewrite bind_eq. simpl. rewrite Hr. simpl.
  rewrite bind_eq, Hb.
  assert (Fr : running (final (_check_balances w)) = false).
  { destruct (running (final (_check_balances w))) eqn:E; [| reflexivity].
    rewrite (frame_running_down _ _ F E) in Hr. discriminate. }
  destruct b; simpl; rewrite !bind_eq, ?notify_eq; simpl;
    rewrite ?bind_eq, ?notify_eq; simpl;
    rewrite ?app_nil_r, ?api_events_app, ?workers_spawned_app, Hs;
    destruct (telegram_sender (final (_check_balances w))); simpl;
    rewrite ?app_nil_r.
  all: repeat split; try discriminate; auto; try tauto.
  all: try (intros [_ H]; discriminate H).
Qed.

(* ================================================================= *)
(** ** Balances of assets listed twice or not at all *)

Lemma total_balance_unlisted hs symbol :
  Forall (fun h : Holding => fst (fst h) <> symbol) hs ->
  total_balance hs symbol = 0%Q.
Proof.
  unfold total_balance. intros H. generalize 0%Q.
  induction H as [| [[name f] l] hs Hne _ IH]; intros q; simpl; [reflexivity |].
  simpl in Hne. apply String.eqb_neq in Hne. rewrite Hne. apply IH.
Qed.

(** X13: the balance read for an asset is free plus locked of the last
    entry that lists it, and 0 when no entry of the account answer lists
    it; so with a floor above 0 on the quote currency (as floats compare:
    a positive number or [inf]), an account that
    does not list the quote currency does not pass the balance guard. *)
Theorem X13_balance_of_listed_and_unlisted_assets :
  forall w account hs symbol,
    net w (sent w) = answers account ->
    account_lists account hs ->
    (forall before free locked after,
       hs = before ++ (symbol, free, locked) :: after ->
       Forall (fun h : Holding => fst (fst h) <> symbol) after ->
       result (get_specific_balance symbol w) = Ok (free + locked)%Q)
    /\ (Forall (fun h : Holding => fst (fst h) <> symbol) hs ->
        result (get_specific_balance symbol w) = Ok 0%Q)
    /\ (Forall (fun h : Holding => fst (fst h) <> QUOTE_CURRENCY) hs ->
        fl_ltb (Finite 0) (MIN_USDT_BALANCE (cfg w)) = true ->
        result (_check_balances w) = Ok false).
Proof.
  intros w account hs symbol Hn Hl.
  split; [| split].
  - intros before free locked after -> Ha.
    rewrite (get_specific_balance_total _ _ _ _ Hn Hl). simpl.
    rewrite (total_balance_listed_once _ _ _ _ _ Ha). reflexivity.
  - intros Hu. rewrite (get_specific_balance_total _ _ _ _ Hn Hl). simpl.
    rewrite (total_balance_unlisted _ _ Hu). reflexivity.
  - intros Hu Hpos.
    unfold _check_balances. rewrite try_except_eq, bind_eq.
    rewrite (get_specific_balance_total _ _ _ _ Hn Hl). simpl.
    rewrite !bind_eq. simpl.
    rewrite (total_balance_unlisted _ _ Hu).
    rewrite Hpos. reflexivity.
Qed.

Lemma X13_witness :
  let account :=
    JObj [("balances",
           JArr [JObj [("asset", JStr "CREPE"); ("free", JStr "1");
                       ("locked", JStr "2")];
                 JObj [("asset", JStr "CREPE"); ("free", JStr "700");
                       ("locked", JStr "0.5")]])] in
  let w := fresh_client (fun _ => answers account) default_config in
  result (get_specific_balance "CREPE" w) = Ok (700 + (5 # 10))%Q
  /\ result (get_specific_balance "USDT" w) = Ok 0%Q
  /\ result (_check_balances w) = Ok false.
Proof.
  intros account w.
  assert (Hl : account_lists account
                 [("CREPE", 1%Q, 2%Q); ("CREPE", 700%Q, (5 # 10)%Q)]).
  { eexists. split; [reflexivity |].
    repeat constructor; eexists; split; reflexivity. }
  destruct (X13_balance_of_listed_and_unlisted_assets w account _ "CREPE"
              eq_refl Hl) as (H1 & _ & H3).
  destruct (X13_balance_of_listed_and_unlisted_assets w account _ "USDT"
              eq_refl Hl) as (_ & H2 & _).
  split; [| split].
  - apply (H1 [("CREPE", 1%Q, 2%Q)] 700%Q (5 # 10)%Q []); [reflexivity |].
    constructor.
  - apply H2. repeat constructor; discriminate.
  - apply H3; [repeat constructor; discriminate | reflexivity].
Defined.
(* ================================================================= *)
(** ** What gets signed *)

Lemma string_leb_trans (s1 s2 s3 : string) :
  String.leb s1 s2 = true -> String.leb s2 s3 = true -> String.leb s1 s3 = true.
Proof.
  unfold String.leb. revert s2 s3.
  induction s1 as [| a s1 IH]; intros [| b s2] [| c s3]; simpl;
    try congruence; try reflexivity.
  unfold Ascii.compare.
  destruct (N.compare_spec (N_of_ascii a) (N_of_ascii b)) as [E1 | L1 | G1];
    destruct (N.compare_spec (N_of_ascii b) (N_of_ascii c)) as [E2 | L2 | G2];
    destruct (N.compare_spec (N_of_ascii a) (N_of_ascii c)) as [E3 | L3 | G3];
    try congruence; try lia; try reflexivity.
  apply IH.
Qed.

#[local] Instance item_le_trans : Transitive item_le.
Proof. intros x y z. unfold item_le. apply string_leb_trans. Qed.

#[local] Instance item_le_total : Total item_le.
Proof. intros x y. unfold item_le. apply String.leb_total. Qed.

Lemma dict_value_unique (p : list (string * Json)) k v1 v2 :
  NoDup (map fst p) -> In (k, v1) p -> In (k, v2) p -> v1 = v2.
Proof.
  induction p as [| [k' v'] p IH]; simpl; [contradiction |].
  intros Hn H1 H2. apply NoDup_cons in Hn as [Hk Hn].
  destruct H1 as [E1 | H1], H2 as [E2 | H2]; try congruence.
  - exfalso. apply Hk. injection E1 as -> ->.
    apply list_elem_of_In. apply (in_map fst) in H2. exact H2.
  - exfalso. apply Hk. injection E2 as -> ->.
    apply list_elem_of_In. apply (in_map fst) in H1. exact H1.
  - auto.
Qed.

Lemma sorted_items_unique (p1 p2 : list (string * Json)) :
  NoDup (map fst p1) ->
  Permutation p1 p2 ->
  sorted_items p1 = sorted_items p2.
Proof.
  intros Hn Hp. unfold sorted_items.
  apply (StronglySorted_unique_strong item_le).
  - intros [k1 v1] [k2 v2] H1 H2 L1 L2. unfold item_le in *. simpl in *.
    assert (k1 = k2) by (apply String.leb_antisym; assumption). subst k2.
    rewrite merge_sort_Permutation in H1, H2.
    rewrite <- Hp in H2.
    f_equal.
    apply list_elem_of_In in H1, H2.
    exact (dict_value_unique _ _ _ _ Hn H1 H2).
  - apply StronglySorted_merge_sort; apply _.
  - apply StronglySorted_merge_sort; apply _.
  - rewrite !merge_sort_Permutation. exact Hp.
Qed.

Lemma dict_set_in k v d : In (k, v) (dict_set k v d).
Proof.
  induction d as [| [k' v'] d IH]; simpl; [auto |].
  destruct (String.eqb k k'); simpl; auto.
Qed.

Lemma dict_set_keeps k v d k' v' :
  k' <> k -> In (k', v') d -> In (k', v') (dict_set k v d).
Proof.
  intros Hne. induction d as [| [k0 v0] d IH]; simpl; [contradiction |].
  intros [E | H].
  - injection E as -> ->.
    destruct (String.eqb_spec k k'); [congruence | left; reflexivity].
  - destruct (String.eqb k k0); simpl; auto.
Qed.

Lemma dict_set_keys k v d k' :
  In k' (map fst (dict_set k v d)) -> k' = k \/ In k' (map fst d).
Proof.
  induction d as [| [k0 v0] d IH]; simpl.
  - intros [E | []]. auto.
  - destruct (String.eqb_spec k k0) as [-> | Hne]; simpl.
    + intros [E | H]; auto.
    + intros [E | H]; [auto |]. destruct (IH H); auto.
Qed.

Lemma in_sorted_items kv params : In kv (sorted_items params) <-> In kv params.
Proof.
  unfold sorted_items. rewrite <- !list_elem_of_In.
  rewrite merge_sort_Permutation. reflexivity.
Qed.

Section SigningFacts.
Variable str_of : Json -> string.
Variable hmac_sha256 : string -> string -> string.

(** X14: the string that is signed lists the parameters in the order of
    their keys, whatever the order in which the dict received them; two
    dicts with the same items get the same signature. *)
Theorem X14_signature_ignores_insertion_order :
  forall api_secret (p1 p2 : list (string * Json)),
    NoDup (map fst p1) ->
    Permutation p1 p2 ->
    StronglySorted item_le (sorted_items p1)
    /\ query_string str_of p1 = query_string str_of p2
    /\ _get_signature str_of hmac_sha256 api_secret p1
       = _get_signature str_of hmac_sha256 api_secret p2.
Proof.
  intros api_secret p1 p2 Hn Hp.
  split; [apply StronglySorted_merge_sort; apply _ |].
  unfold _get_signature, query_string, signed_parts.
  rewrite (sorted_items_unique p1 p2 Hn Hp). auto.
Qed.

(** X15: the signing block writes the signature into the dict that it
    was given, so when [_handle_request] signs the same dict again, as
    its retry does, the signature of the first pass is one of the
    parameters that the second pass signs; on the first pass of a dict
    that came without one, no parameter named [signature] is signed. *)
Theorem X15_a_second_signing_signs_the_first_signature :
  forall api_secret t1 t2 (params : list (string * Json)),
    let stamped1 :=
      dict_set "recvWindow" (JNum 5000)
               (dict_set "timestamp" (JNum (inject_Z t1)) params) in
    let signature1 := _get_signature str_of hmac_sha256 api_secret stamped1 in
    let first := sign_params str_of hmac_sha256 api_secret t1 params in
    let stamped2 :=
      dict_set "recvWindow" (JNum 5000)
               (dict_set "timestamp" (JNum (inject_Z t2)) first) in
    let second := sign_params str_of hmac_sha256 api_secret t2 first in
    In ("signature", JStr signature1) first
    /\ In ("signature=" ++ str_of (JStr signature1))%string
          (signed_parts str_of stamped2)
    /\ In ("signature",
           JStr (hmac_sha256 api_secret (query_string str_of stamped2))) second
    /\ (~ In "signature" (map fst params) ->
        ~ In "signature" (map fst stamped1)).
Proof.
  intros api_secret t1 t2 params stamped1 signature1 first stamped2 second.
  assert (H1 : In ("signature", JStr signature1) first) by apply dict_set_in.
  split; [exact H1 |]. split; [| split].
  - unfold signed_parts.
    apply (in_map (fun kv => (fst kv ++ "=" ++ str_of (snd kv))%string)
                  _ ("signature", JStr signature1)).
    apply in_sorted_items. unfold stamped2.
    apply dict_set_keeps; [discriminate |].
    apply dict_set_keeps; [discriminate | exact H1].
  - apply dict_set_in.
  - intros Hn H. unfold stamped1 in H.
    apply dict_set_keys in H as [E | H]; [discriminate |].
    apply dict_set_keys in H as [E | H]; [discriminate | auto].
Qed.
End SigningFacts.

Lemma X14_witness :
  let render := fun v : Json => match v with JStr s => s | _ => "" end in
  let mac := fun key text : string => (key ++ ":" ++ text)%string in
  _get_signature render mac "k"
    [("symbol", JStr "CREPE_USDT"); ("orderId", JStr "B1")]
  = _get_signature render mac "k"
      [("orderId", JStr "B1"); ("symbol", JStr "CREPE_USDT")].
Proof.
  intros render mac.
  apply (X14_signature_ignores_insertion_order render mac "k").
  - simpl. apply NoDup_cons. split; [| apply NoDup_singleton].
    rewrite list_elem_of_singleton. discriminate.
  - apply perm_swap.
Defined.

Lemma X15_witness :
  let render := fun v : Json => match v with JStr s => s | _ => "" end in
  let mac := fun key text : string => (key ++ ":" ++ text)%string in
  ~ In "signature"
       (map fst (dict_set "recvWindow" (JNum 5000)
                   (dict_set "timestamp" (JNum (inject_Z 1))
                             [("symbol", JStr "CREPE_USDT")]))).
Proof.
  intros render mac.
  apply (X15_a_second_signing_signs_the_first_signature render mac "k" 1 2
           [("symbol", JStr "CREPE_USDT")]).
  simpl. intros [E | []]. discriminate.
Defined.

(* ================================================================= *)
(** ** The ledger *)

Section Ledger.
Variable dumps : list (string * Json) -> string.
Variable now : string.

(** X16: [save_trade] adds one row at the end of the table, with the
    next id, when it returns [True], and leaves the database as it was
    when it returns [False]; the rows that were there are never touched.
    It returns [False] whenever a value of the dict is a [datetime]. *)
Theorem X16_save_trade_appends_or_leaves :
  forall trade_data db,
    let outcome := save_trade dumps now trade_data db in
    (fst outcome = true ->
     exists row,
       new_row dumps now trade_data db = Ok row
       /\ row_id row = (last_id db + 1)%Z
       /\ trades (snd outcome) = trades db ++ [row]
       /\ last_id (snd outcome) = row_id row)
    /\ (fst outcome = false -> snd outcome = db)
    /\ ((exists k iso, In (k, PDatetime iso) trade_data) ->
        fst outcome = false).
Proof.
  intros trade_data db outcome. subst outcome. unfold save_trade.
  destruct (db_opens db) eqn:Ho; simpl.
  2:{ repeat split; auto; discriminate. }
  assert (Hs : (exists k iso, In (k, PDatetime iso) trade_data) ->
               serializable trade_data = Raise TypeError).
  { intros (k & iso & Hin).
    induction trade_data as [| [k' v'] d IH]; simpl in *; [contradiction |].
    destruct v' as [j | iso']; [| reflexivity].
    destruct Hin as [E | Hin]; [discriminate |].
    rewrite (IH Hin). reflexivity. }
  destruct (new_row dumps now trade_data db) as [row | e] eqn:Hr; simpl.
  - split; [| split]; try discriminate.
    + intros _. exists row. repeat split; auto.
      unfold new_row in Hr.
      repeat match type of Hr with
        | res_bind ?r _ = Ok _ =>
            destruct r eqn:?; simpl in Hr; [| discriminate Hr]
        end.
      injection Hr as <-. reflexivity.
    + intros Hd. unfold new_row in Hr. rewrite (Hs Hd) in Hr. discriminate.
  - repeat split; auto; discriminate.
Qed.

(** X17: the dict that [execute_trade] hands to [save_trade] carries
    its timestamp as a [datetime], which [json.dumps] refuses: whatever
    the cycle recorded, [save_trade] returns [False] and the table keeps
    the rows it had. *)
Theorem X17_the_row_of_a_cycle_is_not_stored :
  forall (td : TradeData) db,
    save_trade dumps now (trade_data now td) db = (false, db).
Proof.
  intros td db. unfold save_trade.
  destruct (db_opens db); reflexivity.
Qed.
End Ledger.

Lemma X16_witness :
  let dumps := fun _ : list (string * Json) => "{}" in
  let db := {| db_opens := true; trades := []; last_id := 7 |} in
  let outcome :=
    save_trade dumps "2024-01-01T00:00:00"
      [("timestamp", PJson (JStr "2024-01-01T00:00:00"));
       ("price", PJson (JNum 11)); ("filled_quantity", PJson (JNum 60))] db in
  exists row,
    row_id row = 8%Z
    /\ row_quantity row = JNum 0
    /\ trades (snd outcome) = [row].
Proof.
  intros dumps db outcome.
  destruct (X16_save_trade_appends_or_leaves dumps "2024-01-01T00:00:00"
              [("timestamp", PJson (JStr "2024-01-01T00:00:00"));
               ("price", PJson (JNum 11)); ("filled_quantity", PJson (JNum 60))]
              db) as (H & _).
  destruct (H eq_refl) as (row & Hr & Hi & Ht & _).
  exists row. split; [exact Hi |]. split; [| exact Ht].
  vm_compute in Hr. injection Hr as <-. reflexivity.
Defined.

(* ================================================================= *)
(** ** Reasoning about handlers *)

Lemma h_bind_eq {A B} (c : H A) (k : A -> H B) d :
  h_bind c k d
  = match fst (c d) with
    | Ok a => k a (snd (c d))
    | Raise e => (Raise e, snd (c d))
    end.
Proof. unfold h_bind. destruct (c d) as [[a | e] d1]; reflexivity. Qed.

Lemma h_try_eq {A} (c : H A) caught (h : Exn -> H A) d :
  h_try c caught h d
  = match fst (c d) with
    | Ok a => c d
    | Raise e => if caught e then h e (snd (c d)) else c d
    end.
Proof. unfold h_try. destruct (c d) as [[a | e] d1]; reflexivity. Qed.

Section Keeps.
Variable R : Desk -> Desk -> Prop.
Hypothesis R_refl : forall d, R d d.
Hypothesis R_trans : forall d d1 d2, R d d1 -> R d1 d2 -> R d d2.

Lemma keeps_ret {A} (a : A) : Keeps R (h_ret a).
Proof. intros d. apply R_refl. Qed.

Lemma keeps_raise {A} (e : Exn) : Keeps R (@h_raise A e).
Proof. intros d. apply R_refl. Qed.

Lemma keeps_lift {A} (r : Res A) : Keeps R (h_lift r).
Proof. intros d. apply R_refl. Qed.

Lemma keeps_get : Keeps R h_get.
Proof. intros d. apply R_refl. Qed.

Lemma keeps_bind {A B} (c : H A) (k : A -> H B) :
  Keeps R c -> (forall a, Keeps R (k a)) -> Keeps R (h_bind c k).
Proof.
  intros Hc Hk d. rewrite h_bind_eq.
  destruct (fst (c d)) as [a | e]; simpl; [| apply Hc].
  eapply R_trans; [apply Hc | apply Hk].
Qed.

Lemma keeps_try {A} (c : H A) caught (h : Exn -> H A) :
  Keeps R c -> (forall e, Keeps R (h e)) -> Keeps R (h_try c caught h).
Proof.
  intros Hc Hh d. rewrite h_try_eq.
  destruct (fst (c d)) as [a | e]; [apply Hc |].
  destruct (caught e); [| apply Hc].
  eapply R_trans; [apply Hc | apply Hh].
Qed.
End Keeps.

(** Closes goals [Keeps R c] by the structure of [c]; the leaves are
    left to [tac]. *)
Ltac keeps_with Hr Ht tac :=
  repeat first
    [ assumption
    | lazymatch goal with
      | |- Keeps _ (h_ret _) => apply (keeps_ret _ Hr)
      | |- Keeps _ (h_raise _) => apply (keeps_raise _ Hr)
      | |- Keeps _ (h_lift _) => apply (keeps_lift _ Hr)
      | |- Keeps _ h_get => apply (keeps_get _ Hr)
      | |- Keeps _ (h_bind _ _) => apply (keeps_bind _ Ht); [| intros ?]
      | |- Keeps _ (h_try _ _ _) => apply (keeps_try _ Ht); [| intros ?]
      | |- Keeps _ (if ?b then _ else _) => destruct b
      | |- Keeps _ (match ?x with _ => _ end) => destruct x
      end
    | solve [tac] ].

Lemma untouched_refl d : untouched d d.
Proof. repeat split. Qed.

Lemma untouched_trans d d1 d2 : untouched d d1 -> untouched d1 d2 -> untouched d d2.
Proof.
  intros (A1 & B1 & C1 & D1) (A2 & B2 & C2 & D2).
  repeat split; congruence.
Qed.

Lemma untouched_telegram o : Keeps untouched (telegram o).
Proof.
  intros d. unfold telegram. destruct (tg_down d (tg_calls d)); repeat split.
Qed.

Ltac untouched_tac :=
  keeps_with untouched_refl untouched_trans
    ltac:(first [ simple apply untouched_telegram ]).

Lemma untouched_quietly_send user t : Keeps untouched (quietly (send_to user t)).
Proof. unfold quietly, send_to. untouched_tac. Qed.

Lemma untouched_send_each users t : Keeps untouched (send_each users t).
Proof.
  induction users as [| user users IH]; simpl;
    keeps_with untouched_refl untouched_trans
      ltac:(simple apply untouched_quietly_send).
Qed.

Lemma h_never_raises_quietly (c : H unit) d : fst (quietly c d) = Ok tt.
Proof.
  unfold quietly. rewrite h_try_eq.
  destruct (c d) as [[[] | e] d1]; reflexivity.
Qed.

Lemma send_each_returns users t d : fst (send_each users t d) = Ok tt.
Proof.
  revert d. induction users as [| user users IH]; intros d; simpl;
    [reflexivity |].
  rewrite h_bind_eq, h_never_raises_quietly. apply IH.
Qed.

(** The new entries of the outbox of [send_each]: one message to some
    of the users, in order. *)
Lemma send_each_outbox users t d :
  exists reached,
    sublist reached users
    /\ outbox (snd (send_each users t d))
       = outbox d ++ map (fun user => Send user t) reached.
Proof.
  revert d. induction users as [| user users IH]; intros d; simpl.
  - exists []. split; [constructor | rewrite app_nil_r; reflexivity].
  - rewrite h_bind_eq, h_never_raises_quietly.
    destruct (IH (snd (quietly (send_to user t) d))) as (reached & Hs & Ho).
    rewrite Ho.
    unfold quietly, send_to, telegram. rewrite h_try_eq. simpl.
    destruct (tg_down d (tg_calls d)); simpl.
    + exists reached. split; [apply sublist_cons; exact Hs | reflexivity].
    + exists (user :: reached).
      split; [apply sublist_skip; exact Hs |].
      simpl. rewrite <- app_assoc. reflexivity.
Qed.

Section Sending.
Variable visit : gset Z -> list Z.
Hypothesis visit_elements : forall s, visit s ≡ₚ elements s.

(** X18: [send_message] never raises, whatever Telegram does; it leaves
    the engine, the settings and the connected users as they were; and
    what it sends is the text, to the chat it was given or else to
    connected users, each at most once. *)
Theorem X18_send_message_never_raises :
  forall t chat d,
    let r := send_message visit t chat d in
    fst r = Ok tt
    /\ untouched d (snd r)
    /\ exists reached,
         outbox (snd r) = outbox d ++ map (fun user => Send user t) reached
         /\ NoDup reached
         /\ forall user,
              In user reached ->
              chat = Some user \/ user ∈ connected_users d.
Proof.
  intros t chat d r. subst r. unfold send_message. rewrite h_bind_eq. simpl.
  assert (Hall :
    fst (send_each (visit (connected_users d)) t d) = Ok tt
    /\ untouched d (snd (send_each (visit (connected_users d)) t d))
    /\ exists reached,
         outbox (snd (send_each (visit (connected_users d)) t d))
         = outbox d ++ map (fun user => Send user t) reached
         /\ NoDup reached
         /\ forall user,
              In user reached -> chat = Some user \/ user ∈ connected_users d).
  { split; [apply send_each_returns |].
    split; [apply untouched_send_each |].
    destruct (send_each_outbox (visit (connected_users d)) t d)
      as (reached & Hs & Ho).
    exists reached. split; [exact Ho |].
    assert (Hn : NoDup (visit (connected_users d))).
    { rewrite visit_elements. apply NoDup_elements. }
    split; [eapply sublist_NoDup; eassumption |].
    intros user Hin. right.
    apply elem_of_elements. rewrite <- visit_elements.
    apply list_elem_of_In in Hin.
    exact (elem_of_sublist _ _ _ Hin Hs). }
  destruct chat as [c |]; [| exact Hall].
  destruct (Z.eqb_spec c 0) as [-> | Hc]; simpl; [exact Hall |].
  split; [apply h_never_raises_quietly |].
  split; [apply untouched_quietly_send |].
  unfold quietly, send_to, telegram. rewrite h_try_eq. simpl.
  destruct (tg_down d (tg_calls d)); simpl.
  - exists []. simpl. rewrite app_nil_r.
    split; [reflexivity |]. split; [apply NoDup_nil_2 |].
    intros user [].
  - exists [c]. split; [reflexivity |]. split; [apply NoDup_singleton |].
    intros user [<- | []]. auto.
Qed.
End Sending.

Lemma X18_witness :
  let d := set_connected_users {[5%Z]} (front_desk (fresh_client outage default_config)) in
  fst (send_message elements (TxtError ValueError) None d) = Ok tt.
Proof.
  intros d.
  apply (X18_send_message_never_raises elements (fun s => reflexivity _)
           (TxtError ValueError) None d).
Defined.

(* ================================================================= *)
(** ** Who is let in *)

Lemma at_most_admitted_refl message d : at_most_admitted message d d.
Proof. repeat split; auto; set_solver. Qed.

Lemma at_most_admitted_trans message d d1 d2 :
  at_most_admitted message d d1 -> at_most_admitted message d1 d2 ->
  at_most_admitted message d d2.
Proof.
  intros (A1 & B1 & C1 & D1 & E1 & F1) (A2 & B2 & C2 & D2 & E2 & F2).
  repeat split; try congruence; [set_solver | set_solver | auto].
Qed.

Lemma untouched_at_most_admitted message {A} (c : H A) :
  Keeps untouched c -> Keeps (at_most_admitted message) c.
Proof.
  intros Hc d. destruct (Hc d) as (A1 & B1 & C1 & D1).
  repeat split; auto; rewrite D1; [set_solver | set_solver | auto].
Qed.

Lemma connect_eq message d :
  connect message d
  = if (size (connected_users d) <? 6)%nat
       || bool_decide (from_id message ∈ connected_users d)
    then (Ok true,
          set_connected_users ({[from_id message]} ∪ connected_users d) d)
    else (match fst (reply_to message TxtFull d) with
          | Ok _ => Ok false
          | Raise e => Raise e
          end, snd (reply_to message TxtFull d)).
Proof.
  unfold connect. rewrite h_bind_eq. simpl.
  destruct ((size (connected_users d) <? 6)%nat
            || bool_decide (from_id message ∈ connected_users d)).
  - reflexivity.
  - rewrite h_bind_eq. destruct (reply_to message TxtFull d) as [[[] | e] d1];
      reflexivity.
Qed.

Lemma at_most_admitted_connect message : Keeps (at_most_admitted message) (connect message).
Proof.
  intros d. rewrite connect_eq.
  destruct ((size (connected_users d) <? 6)%nat
            || bool_decide (from_id message ∈ connected_users d)) eqn:E; simpl.
  - repeat split; simpl; auto; try set_solver.
    intros Hsize. apply orb_prop in E as [E | E].
    + apply Nat.ltb_lt in E.
      pose proof (size_union_alt {[from_id message]} (connected_users d)) as Hu.
      rewrite size_singleton in Hu.
      pose proof (subseteq_size (connected_users d ∖ {[from_id message]})
                    (connected_users d)) as Hd.
      assert (connected_users d ∖ {[from_id message]} ⊆ connected_users d)
        by set_solver.
      specialize (Hd ltac:(assumption)). lia.
    + apply bool_decide_eq_true in E.
      replace ({[from_id message]} ∪ connected_users d) with (connected_users d)
        by set_solver.
      exact Hsize.
  - apply (untouched_at_most_admitted message _ (untouched_telegram _)).
Qed.

Section Authorization.
Variable ADMIN_USERS : list UserRef.
Variable AUTHORIZED_USERS : list UserRef.
Variable lower : string -> string.

Abbreviation is_authorized := (_is_authorized ADMIN_USERS AUTHORIZED_USERS lower).

Lemma at_most_admitted_look_up entries message otherwise :
  Keeps (at_most_admitted message) otherwise ->
  Keeps (at_most_admitted message) (look_up lower entries message otherwise).
Proof.
  intros Ho. induction entries as [| [id | name] entries IH]; simpl.
  - exact Ho.
  - destruct (id =? from_id message)%Z;
      [apply at_most_admitted_connect | exact IH].
  - destruct (from_username message) as [username |].
    + destruct (String.eqb (lower name) (lower username));
        [apply at_most_admitted_connect | exact IH].
    + apply keeps_raise, at_most_admitted_refl.
Qed.

Lemma at_most_admitted_is_authorized message :
  Keeps (at_most_admitted message) (is_authorized message).
Proof.
  unfold _is_authorized.
  apply (keeps_try _ (at_most_admitted_trans message)).
  - apply at_most_admitted_look_up, at_most_admitted_look_up.
    unfold reply_to.
    keeps_with (at_most_admitted_refl message) (at_most_admitted_trans message)
      ltac:(simple apply (untouched_at_most_admitted message);
            simple apply untouched_telegram).
  - intros e. unfold reply_to.
    keeps_with (at_most_admitted_refl message) (at_most_admitted_trans message)
      ltac:(simple apply (untouched_at_most_admitted message);
            simple apply untouched_telegram).
Qed.

Abbreviation Admits' := (Admits lower).

Lemma admits_connect message listed :
  Exists (names_sender lower message) listed ->
  Admits' message listed (connect message).
Proof.
  intros Hl d. rewrite connect_eq.
  destruct ((size (connected_users d) <? 6)%nat
            || bool_decide (from_id message ∈ connected_users d)); simpl.
  - intros _. split; [exact Hl | set_solver].
  - destruct (fst (reply_to message TxtFull d)); discriminate.
Qed.

Lemma admits_refusal message listed t :
  Admits' message listed (reply_to message t;;; h_ret false).
Proof.
  intros d. rewrite h_bind_eq.
  destruct (fst (reply_to message t d)); discriminate.
Qed.

Lemma admits_more message before listed c :
  Admits' message listed c -> Admits' message (before ++ listed) c.
Proof.
  intros Hc d Hr. destruct (Hc d Hr) as [He Hin].
  split; [apply Exists_app; right; exact He | exact Hin].
Qed.

Lemma admits_look_up entries message rest otherwise :
  Admits' message rest otherwise ->
  Admits' message (entries ++ rest) (look_up lower entries message otherwise).
Proof.
  intros Ho. induction entries as [| [id | name] entries IH]; simpl.
  - exact Ho.
  - destruct (Z.eqb_spec id (from_id message)) as [E | _].
    + apply admits_connect. apply Exists_cons_hd. exact E.
    + apply (admits_more message [UserId id]). exact IH.
  - destruct (from_username message) as [username |] eqn:Hu.
    + destruct (String.eqb_spec (lower name) (lower username)) as [E | _].
      * apply admits_connect. apply Exists_cons_hd. simpl. eauto.
      * apply (admits_more message [UserName name]). exact IH.
    + intros d. discriminate.
Qed.

Lemma admits_is_authorized message :
  Admits' message (ADMIN_USERS ++ AUTHORIZED_USERS) (is_authorized message).
Proof.
  intros d. unfold _is_authorized. rewrite h_try_eq.
  pose proof (admits_look_up ADMIN_USERS message (AUTHORIZED_USERS ++ [])
                (look_up lower AUTHORIZED_USERS message
                   (reply_to message TxtNoPermission;;; h_ret false))
                (admits_look_up AUTHORIZED_USERS message [] _
                   (admits_refusal message [] TxtNoPermission)) d) as Ha.
  rewrite app_nil_r in Ha.
  destruct (look_up lower ADMIN_USERS message
              (look_up lower AUTHORIZED_USERS message
                 (reply_to message TxtNoPermission;;; h_ret false)) d)
    as [[b | e] d1].
  - exact Ha.
  - simpl. rewrite h_bind_eq.
    destruct (fst (reply_to message TxtAuthFailed d1)); discriminate.
Qed.

(** X19: [_is_authorized] never lets the connected users grow past six:
    it adds at most the sender, and only while fewer than six users are
    connected or the sender is one of them already; it leaves the engine
    and the settings alone. *)
Theorem X19_at_most_six_connected_users :
  forall message d,
    let r := _is_authorized ADMIN_USERS AUTHORIZED_USERS lower message d in
    engine (snd r) = engine d
    /\ amount_usdt (snd r) = amount_usdt d
    /\ connected_users d ⊆ connected_users (snd r)
    /\ connected_users (snd r) ⊆ {[from_id message]} ∪ connected_users d
    /\ (size (connected_users d) <= 6 -> size (connected_users (snd r)) <= 6).
Proof.
  intros message d r. subst r.
  destruct (at_most_admitted_is_authorized message d)
    as (A1 & B1 & C1 & D1 & E1 & F1).
  auto.
Qed.

(** X20: [_is_authorized] answers [True] only to a sender whom an entry
    of [ADMIN_USERS] or [AUTHORIZED_USERS] names, by id or by user name
    without regard to case, and the sender is then among the connected
    users; a sender whom no entry names is never added. *)
Theorem X20_only_listed_users_are_admitted :
  forall message d,
    let r := is_authorized message d in
    (fst r = Ok true ->
     Exists (names_sender lower message) (ADMIN_USERS ++ AUTHORIZED_USERS)
     /\ from_id message ∈ connected_users (snd r))
    /\ (~ Exists (names_sender lower message) (ADMIN_USERS ++ AUTHORIZED_USERS) ->
        connected_users (snd r) = connected_users d).
Proof.
  intros message d r. subst r.
  split; [apply admits_is_authorized |].
  intros Hn.
  assert (Hl : forall entries otherwise,
             ~ Exists (names_sender lower message) entries ->
             Keeps untouched otherwise ->
             Keeps untouched (look_up lower entries message otherwise)).
  { intros entries otherwise Hne Ho.
    induction entries as [| [id | name] entries IH]; simpl.
    - exact Ho.
    - destruct (Z.eqb_spec id (from_id message)) as [E | _].
      + exfalso. apply Hne. apply Exists_cons_hd. exact E.
      + apply IH. intros He. apply Hne. apply Exists_cons_tl. exact He.
    - destruct (from_username message) as [username |] eqn:Hu.
      + destruct (String.eqb_spec (lower name) (lower username)) as [E | _].
        * exfalso. apply Hne. apply Exists_cons_hd. simpl. eauto.
        * apply IH. intros He. apply Hne. apply Exists_cons_tl. exact He.
      + apply keeps_raise, untouched_refl. }
  assert (K : Keeps untouched (is_authorized message)).
  { unfold _is_authorized.
    apply (keeps_try _ untouched_trans).
    - apply Hl; [intros He; apply Hn, Exists_app; auto |].
      apply Hl; [intros He; apply Hn, Exists_app; auto |].
      unfold reply_to. untouched_tac.
    - intros e. unfold reply_to. untouched_tac. }
  apply K.
Qed.

(** X21: a sender without a user name is turned away as soon as the
    scan of [ADMIN_USERS] meets a name, since comparing names raises:
    unless the sender's id stands before the first name of
    [ADMIN_USERS], [_is_authorized] does not answer [True], whatever
    [AUTHORIZED_USERS] holds, and its reply is that the check failed. *)
Theorem X21_no_user_name_no_entry :
  forall message d before name after,
    from_username message = None ->
    ADMIN_USERS = before ++ UserName name :: after ->
    ~ In (UserId (from_id message)) before ->
    let r := is_authorized message d in
    fst r <> Ok true
    /\ untouched d (snd r)
    /\ (tg_down d (tg_calls d) = false ->
        fst r = Ok false
        /\ outbox (snd r) = outbox d ++ [Reply message TxtAuthFailed]).
Proof.
  intros message d before name after Hu Ha Hb r. subst r.
  assert (Hl : forall otherwise,
             look_up lower ADMIN_USERS message otherwise d
             = (Raise AttributeError, d)).
  { intros otherwise. rewrite Ha. clear Ha.
    induction before as [| [id | name'] before IH]; simpl; rewrite ?Hu;
      try reflexivity.
    destruct (Z.eqb_spec id (from_id message)) as [E | _].
    - exfalso. apply Hb. left. rewrite E. reflexivity.
    - apply IH. intros Hin. apply Hb. right. exact Hin. }
  unfold _is_authorized. rewrite h_try_eq, Hl. simpl.
  rewrite h_bind_eq. unfold reply_to, telegram. simpl.
  destruct (tg_down d (tg_calls d)); simpl.
  - split; [discriminate |]. split; [repeat split | discriminate].
  - split; [discriminate |]. split; [repeat split | auto].
Qed.
End Authorization.

Lemma X21_witness :
  let message := {| from_id := 7; from_username := None; text := "555";
                    chat_id := 7 |} in
  let d := front_desk (fresh_client outage default_config) in
  fst (_is_authorized [UserId 1; UserName "boss"] [UserId 7] (fun s => s)
                      message d)
  = Ok false.
Proof.
  intros message d.
  apply (X21_no_user_name_no_entry [UserId 1; UserName "boss"] [UserId 7]
           (fun s => s) message d [UserId 1] "boss" []).
  - reflexivity.
  - reflexivity.
  - intros [E | []]. discriminate.
  - reflexivity.
Defined.

(* ================================================================= *)
(** ** Who is an administrator *)

Section Administrators.
Variable ADMIN_USERS : list UserRef.
Variable lower : string -> string.
Variable isdigit : string -> bool.
Variable int_of_str : string -> Res Z.
(** [int] on a str raises nothing but [ValueError]. *)
Hypothesis int_raises : forall s e, int_of_str s = Raise e -> e = ValueError.

Abbreviation is_admin := (_is_admin ADMIN_USERS lower isdigit int_of_str).
Abbreviation admin_entry := (names_admin lower isdigit int_of_str).

Lemma admin_by_id_spec entries user_id :
  (admin_by_id isdigit int_of_str entries user_id = Ok true
   /\ exists entry,
        In entry entries /\ entry_id isdigit int_of_str entry = Ok (Some user_id))
  \/ (admin_by_id isdigit int_of_str entries user_id = Ok false
      /\ forall entry,
           In entry entries ->
           entry_id isdigit int_of_str entry <> Ok (Some user_id)).
Proof.
  induction entries as [| entry entries IH]; simpl.
  - right. split; [reflexivity | intros entry []].
  - assert (Hskip :
      entry_id isdigit int_of_str entry <> Ok (Some user_id) ->
      (admin_by_id isdigit int_of_str entries user_id = Ok true
       /\ exists entry0,
            (entry = entry0 \/ In entry0 entries)
            /\ entry_id isdigit int_of_str entry0 = Ok (Some user_id))
      \/ (admin_by_id isdigit int_of_str entries user_id = Ok false
          /\ forall entry0,
               entry = entry0 \/ In entry0 entries ->
               entry_id isdigit int_of_str entry0 <> Ok (Some user_id))).
    { intros Hne. destruct IH as [(R & e0 & Hin & He) | (R & Hall)].
      - left. split; [exact R | eauto].
      - right. split; [exact R |]. intros e0 [<- | Hin]; auto. }
    destruct (entry_id isdigit int_of_str entry) as [[id |] | e] eqn:E.
    + destruct (Z.eqb_spec user_id id) as [-> | Hne].
      * left. split; [reflexivity | eauto].
      * apply Hskip. congruence.
    + apply Hskip. discriminate.
    + assert (e = ValueError).
      { destruct entry as [id | name]; simpl in E; [discriminate |].
        destruct (isdigit name); [| discriminate].
        destruct (int_of_str name) eqn:Ei; [discriminate |].
        injection E as <-. eapply int_raises, Ei. }
      subst e. apply Hskip. discriminate.
Qed.

Lemma admin_by_name_spec entries username_lower :
  admin_by_name lower entries username_lower = true
  <-> exists name, In (UserName name) entries /\ lower name = username_lower.
Proof.
  induction entries as [| [id | name] entries IH]; simpl.
  - split; [discriminate | intros (name & [] & _)].
  - rewrite IH. split; intros (name & Hin & E); exists name.
    + auto.
    + destruct Hin as [E' | Hin]; [discriminate | auto].
  - destruct (String.eqb_spec (lower name) username_lower) as [E | Hne].
    + split; [eauto | reflexivity].
    + rewrite IH. split; intros (name' & Hin & E); exists name'.
      * auto.
      * destruct Hin as [E' | Hin]; [| auto]. congruence.
Qed.

(** X22: [_is_admin] answers [True] exactly when an entry of
    [ADMIN_USERS] names the sender, by an id the entry reads as or by
    the sender's user name without regard to case, and it then sends
    nothing; otherwise its only act is the reply that the command is for
    administrators, and it answers [False] when that reply goes
    through. *)
Theorem X22_who_is_an_administrator :
  forall message d,
    let r := is_admin message d in
    (fst r = Ok true <-> Exists (admin_entry message) ADMIN_USERS)
    /\ (fst r = Ok true -> snd r = d)
    /\ untouched d (snd r)
    /\ (fst r <> Ok true ->
        tg_down d (tg_calls d) = false ->
        fst r = Ok false
        /\ outbox (snd r) = outbox d ++ [Reply message TxtAdminOnly]).
Proof.
  intros message d r. subst r. unfold _is_admin. rewrite h_bind_eq.
  unfold h_lift at 1 2. simpl.
  destruct (admin_by_id_spec ADMIN_USERS (from_id message))
    as [(R & entry & Hin & He) | (R & Hall)]; rewrite R; simpl.
  { split; [| split; [reflexivity | split; [apply untouched_refl |]]].
    - split; [intros _ | reflexivity].
      apply List.Exists_exists. exists entry. split; [exact Hin | left; exact He].
    - intros Hf. congruence. }
  set (by_name :=
         match from_username message with
         | Some username =>
             if negb (String.eqb username "")
             then admin_by_name lower ADMIN_USERS (lower username)
             else false
         | None => false
         end).
  assert (Hn : by_name = true
               <-> exists name username,
                     In (UserName name) ADMIN_USERS
                     /\ from_username message = Some username
                     /\ username <> ""
                     /\ lower name = lower username).
  { unfold by_name. destruct (from_username message) as [username |].
    - destruct (String.eqb_spec username "") as [E0 | Hne]; simpl.
      + split; [discriminate |].
        intros (name & u & _ & Hs & Hu & _). injection Hs as Hs. congruence.
      + rewrite admin_by_name_spec. split.
        * intros (name & Hin & E). exists name, username. auto.
        * intros (name & u & Hin & Hs & _ & E). injection Hs as Hs.
          subst u. eauto.
    - split; [discriminate | intros (name & u & _ & Hu & _); discriminate]. }
  assert (Hiff : by_name = true <-> Exists (admin_entry message) ADMIN_USERS).
  { rewrite Hn, List.Exists_exists. split.
    - intros (name & username & Hin & Hu & Hne & E).
      exists (UserName name). split; [exact Hin |].
      right. exists name, username. auto.
    - intros (entry & Hin & He).
      destruct He as [He | (name & username & He & Hu & Hne & E)].
      + destruct (Hall entry Hin He).
      + subst entry. exists name, username. auto. }
  destruct by_name; simpl.
  - split; [tauto |]. split; [reflexivity |]. split; [apply untouched_refl |].
    intros Hf. congruence.
  - rewrite h_bind_eq. unfold reply_to, telegram. simpl.
    destruct (tg_down d (tg_calls d)); simpl.
    + split; [split; [discriminate | intros He; apply Hiff in He; discriminate] |].
      split; [discriminate |]. split; [repeat split | discriminate].
    + split; [split; [discriminate | intros He; apply Hiff in He; discriminate] |].
      split; [discriminate |]. split; [repeat split | auto].
Qed.
End Administrators.

Lemma X22_witness :
  let message := {| from_id := 7; from_username := Some "Boss"; text := "000";
                    chat_id := 7 |} in
  let d := front_desk (fresh_client outage default_config) in
  let shout := fun s : string => if String.eqb s "boss" then "BOSS"
                                 else if String.eqb s "Boss" then "BOSS" else s in
  fst (_is_admin [UserId 1; UserName "boss"] shout (fun _ => false)
                 (fun _ => Raise ValueError) message d)
  = Ok true.
Proof.
  intros message d shout.
  apply (X22_who_is_an_administrator [UserId 1; UserName "boss"] shout
           (fun _ => false) (fun _ => Raise ValueError)
           (fun s e (E : Raise ValueError = Raise e) =>
              eq_sym (f_equal (fun r => match r with
                                        | Raise x => x
                                        | Ok _ => ValueError
                                        end) E))
           message d).
  apply Exists_cons_tl, Exists_cons_hd.
  right. exists "boss", "Boss". repeat split. discriminate.
Defined.

(* ================================================================= *)
(** ** The commands that write the settings *)

Lemma guarded_refl d : guarded d d.
Proof.
  repeat split. exists []. rewrite app_nil_r. split; [reflexivity | constructor].
Qed.

Lemma guarded_trans d d1 d2 : guarded d d1 -> guarded d1 d2 -> guarded d d2.
Proof.
  intros (A1 & B1 & C1 & n1 & O1 & F1) (A2 & B2 & C2 & n2 & O2 & F2).
  repeat split; try congruence.
  exists (n1 ++ n2). rewrite O2, O1, <- app_assoc.
  split; [reflexivity | apply Forall_app; auto].
Qed.

Lemma guarded_reply message t : Keeps guarded (reply_to message t).
Proof.
  intros d. unfold reply_to, telegram. destruct (tg_down d (tg_calls d)); simpl.
  - repeat split. exists []. simpl. rewrite app_nil_r.
    split; [reflexivity | constructor].
  - repeat split. eexists. split; [reflexivity | repeat constructor].
Qed.

Lemma guarded_connect message : Keeps guarded (connect message).
Proof.
  intros d. rewrite connect_eq.
  destruct ((size (connected_users d) <? 6)%nat
            || bool_decide (from_id message ∈ connected_users d)); simpl.
  - repeat split. exists []. rewrite app_nil_r. split; [reflexivity | constructor].
  - apply guarded_reply.
Qed.

Section Guard.
Variable ADMIN_USERS : list UserRef.
Variable AUTHORIZED_USERS : list UserRef.
Variable lower : string -> string.
Variable isdigit : string -> bool.
Variable int_of_str : string -> Res Z.
Variable visit : gset Z -> list Z.
Variable split : string -> list string.
Variable strip : string -> string.
Variable float_of_str : string -> Res PyFloat.
Hypothesis int_raises : forall s e, int_of_str s = Raise e -> e = ValueError.

Abbreviation is_authorized' := (_is_authorized ADMIN_USERS AUTHORIZED_USERS lower).
Abbreviation is_admin' := (_is_admin ADMIN_USERS lower isdigit int_of_str).
Abbreviation admin_entry' := (names_admin lower isdigit int_of_str).
Abbreviation for_admin' :=
  (for_admin ADMIN_USERS AUTHORIZED_USERS lower isdigit int_of_str).

Lemma guarded_look_up entries message otherwise :
  Keeps guarded otherwise ->
  Keeps guarded (look_up lower entries message otherwise).
Proof.
  intros Ho. induction entries as [| [id | name] entries IH]; simpl.
  - exact Ho.
  - destruct (id =? from_id message)%Z; [apply guarded_connect | exact IH].
  - destruct (from_username message) as [username |].
    + destruct (String.eqb (lower name) (lower username));
        [apply guarded_connect | exact IH].
    + apply keeps_raise, guarded_refl.
Qed.

Lemma guarded_is_authorized message : Keeps guarded (is_authorized' message).
Proof.
  unfold _is_authorized.
  apply (keeps_try _ guarded_trans).
  - apply guarded_look_up, guarded_look_up.
    keeps_with guarded_refl guarded_trans ltac:(simple apply guarded_reply).
  - intros e.
    keeps_with guarded_refl guarded_trans ltac:(simple apply guarded_reply).
Qed.

(** Someone whom no entry names as an administrator gets [False] or an
    exception from [_is_admin], and a reply at most. *)
Lemma is_admin_refuses message d :
  ~ Exists (admin_entry' message) ADMIN_USERS ->
  fst (is_admin' message d) <> Ok true
  /\ guarded d (snd (is_admin' message d)).
Proof.
  intros Hn. unfold _is_admin. rewrite h_bind_eq. unfold h_lift at 1 2. simpl.
  destruct (admin_by_id_spec isdigit int_of_str int_raises ADMIN_USERS
              (from_id message)) as [(R & entry & Hin & He) | (R & Hall)];
    rewrite R; simpl.
  { exfalso. apply Hn. apply List.Exists_exists. exists entry.
    split; [exact Hin | left; exact He]. }
  match goal with
  | |- context [if ?b then _ else _] => destruct b eqn:Hb
  end.
  - exfalso. apply Hn.
    destruct (from_username message) as [username |] eqn:Hu; [| discriminate].
    destruct (String.eqb_spec username "") as [E0 | Hne]; simpl in Hb;
      [discriminate |].
    apply admin_by_name_spec in Hb as (name & Hin & E).
    apply List.Exists_exists. exists (UserName name). split; [exact Hin |].
    right. exists name, username. auto.
  - rewrite h_bind_eq.
    pose proof (guarded_reply message TxtAdminOnly d) as G.
    destruct (reply_to message TxtAdminOnly d) as [[[] | e] d1]; simpl in *;
      split; [discriminate | exact G | discriminate | exact G].
Qed.

Lemma for_admin_refuses message body d :
  ~ Exists (admin_entry' message) ADMIN_USERS ->
  guarded d (snd (for_admin' message body d)).
Proof.
  intros Hn. unfold for_admin. rewrite h_bind_eq.
  pose proof (guarded_is_authorized message d) as G1.
  destruct (is_authorized' message d) as [[[] | e] d1]; simpl in *;
    try exact G1.
  rewrite h_bind_eq.
  destruct (is_admin_refuses message d1 Hn) as [Hr G2].
  destruct (is_admin' message d1) as [[[] | e] d2]; simpl in *;
    try congruence; eapply guarded_trans; eassumption.
Qed.

(** X23: for a sender whom no entry of [ADMIN_USERS] names, the
    commands for administrators change nothing: the five settings
    commands, the start command and its confirmation, and the emergency
    stop leave the engine and every setting as they were and register no
    next step, whatever the text of the message. *)
Theorem X23_commands_for_administrators_only :
  forall message d,
    ~ Exists (admin_entry' message) ADMIN_USERS ->
    Forall (fun handler : Message -> H unit => guarded d (snd (handler message d)))
      [handle_interval_setting_impl ADMIN_USERS AUTHORIZED_USERS lower isdigit
         int_of_str visit split;
       handle_price_setting_impl ADMIN_USERS AUTHORIZED_USERS lower isdigit
         int_of_str visit split float_of_str;
       handle_amount_setting_impl ADMIN_USERS AUTHORIZED_USERS lower isdigit
         int_of_str visit split float_of_str;
       handle_min_usdt_setting_impl ADMIN_USERS AUTHORIZED_USERS lower isdigit
         int_of_str visit split float_of_str;
       handle_min_token_setting_impl ADMIN_USERS AUTHORIZED_USERS lower isdigit
         int_of_str visit split float_of_str;
       handle_777_impl ADMIN_USERS AUTHORIZED_USERS lower isdigit int_of_str;
       process_start_confirmation_impl ADMIN_USERS AUTHORIZED_USERS lower
         isdigit int_of_str visit strip;
       handle_000_impl ADMIN_USERS lower isdigit int_of_str].
Proof.
  intros message d Hn.
  repeat (apply Forall_cons; split);
    try (apply for_admin_refuses; exact Hn); try apply Forall_nil_2.
  unfold handle_000_impl. rewrite h_bind_eq.
  destruct (is_admin_refuses message d Hn) as [Hr G].
  destruct (is_admin' message d) as [[[] | e] d1]; simpl in *;
    try congruence; exact G.
Qed.
End Guard.

Lemma only_value_error (s : string) (e : Exn) :
  (fun _ : string => @Raise Z ValueError) s = Raise e -> e = ValueError.
Proof. intros E. injection E as <-. reflexivity. Qed.

Lemma X23_witness :
  let message := {| from_id := 9; from_username := Some "eve";
                    text := "interval 1 2"; chat_id := 9 |} in
  let d := front_desk (fresh_client outage default_config) in
  guarded d
    (snd (handle_interval_setting_impl [UserId 1] [UserId 9] (fun s => s)
            (fun _ => false) (fun _ => Raise ValueError) elements
            (fun _ => ["interval"; "1"; "2"]) message d)).
Proof.
  intros message d.
  pose proof (X23_commands_for_administrators_only
                [UserId 1] [UserId 9] (fun s => s) (fun _ => false)
                (fun _ => Raise ValueError) elements
                (fun _ => ["interval"; "1"; "2"]) (fun s => s)
                (fun _ => Raise ValueError) only_value_error
                message d) as X.
  apply (Forall_inv (X ltac:(
    intros He; apply Exists_cons in He as [[He | He] | He];
    [ discriminate He
    | destruct He as (n & u & He & _); discriminate He
    | inversion He ]))).
Defined.

(* ================================================================= *)
(** ** Settings stay well formed *)

Ltac keeps_with_eqn Hr Ht tac :=
  cbv zeta;
  repeat first
    [ assumption
    | lazymatch goal with
      | |- Keeps _ (h_ret _) => apply (keeps_ret _ Hr)
      | |- Keeps _ (h_raise _) => apply (keeps_raise _ Hr)
      | |- Keeps _ (h_lift _) => apply (keeps_lift _ Hr)
      | |- Keeps _ h_get => apply (keeps_get _ Hr)
      | |- Keeps _ (h_bind _ _) => apply (keeps_bind _ Ht); [| intros ?]
      | |- Keeps _ (h_try _ _ _) => apply (keeps_try _ Ht); [| intros ?]
      | |- Keeps _ (if ?b then _ else _) => destruct b eqn:?
      | |- Keeps _ (match ?x with _ => _ end) => destruct x
      end
    | solve [tac] ].

Lemma sound_refl d : sound d d.
Proof. intros Hw. exact Hw. Qed.

Lemma sound_trans d d1 d2 : sound d d1 -> sound d1 d2 -> sound d d2.
Proof. unfold sound. auto. Qed.

Lemma guarded_sound {A} (c : H A) : Keeps guarded c -> Keeps sound c.
Proof.
  intros Hc d Hw. destruct (Hc d) as (E1 & _ & E2 & _). rewrite E1, E2. exact Hw.
Qed.

Lemma untouched_sound {A} (c : H A) : Keeps untouched c -> Keeps sound c.
Proof.
  intros Hc d Hw. destruct (Hc d) as (E1 & _ & E2 & _). rewrite E1, E2. exact Hw.
Qed.

Lemma finite_refl d : finite d d.
Proof. intros Hw. exact Hw. Qed.

Lemma finite_trans d d1 d2 : finite d d1 -> finite d1 d2 -> finite d d2.
Proof. unfold finite. auto. Qed.

Lemma guarded_finite {A} (c : H A) : Keeps guarded c -> Keeps finite c.
Proof.
  intros Hc d Hw. destruct (Hc d) as (E1 & _ & E2 & _). rewrite E1, E2. exact Hw.
Qed.

Lemma untouched_finite {A} (c : H A) : Keeps untouched c -> Keeps finite c.
Proof.
  intros Hc d Hw. destruct (Hc d) as (E1 & _ & E2 & _). rewrite E1, E2. exact Hw.
Qed.

(** A value bound from [h_lift r] is what [r] holds. *)
Lemma keeps_bind_lift (R : Desk -> Desk -> Prop) {A B} (r : Res A)
    (k : A -> H B) :
  (forall d, R d d) ->
  (forall a, r = Ok a -> Keeps R (k a)) -> Keeps R (h_bind (h_lift r) k).
Proof.
  intros Hr Hk d. rewrite h_bind_eq. simpl.
  destruct r as [a | e]; [apply Hk; reflexivity | apply Hr].
Qed.

(** [min] and [max] of two floats never come out of order: the test
    [max < min] fails, also with a [nan] among them. *)
Lemma fl_max_min_ordered a b : fl_ltb (fl_max a b) (fl_min a b) = false.
Proof.
  destruct a as [x | | |], b as [y | | |]; try reflexivity;
    unfold fl_max, fl_min; simpl; try reflexivity;
    try (apply Qlt_bool_false_iff; lra).
  destruct (Qlt_bool x y) eqn:E1, (Qlt_bool y x) eqn:E2; simpl;
    [ apply Qlt_bool_iff in E1; apply Qlt_bool_iff in E2
    | apply Qlt_bool_iff in E1; apply Qlt_bool_false_iff in E2
    | apply Qlt_bool_false_iff in E1; apply Qlt_bool_iff in E2
    | apply Qlt_bool_false_iff in E1; apply Qlt_bool_false_iff in E2 ];
    apply Qlt_bool_false_iff; lra.
Qed.

Lemma fl_min_max_finite x y :
  exists lo hi,
    fl_min (Finite x) (Finite y) = Finite lo
    /\ fl_max (Finite x) (Finite y) = Finite hi.
Proof.
  unfold fl_min, fl_max. simpl.
  destruct (Qlt_bool y x), (Qlt_bool x y); eauto.
Qed.

(** Settings that are all finite are well formed exactly when they are
    in range. *)
Lemma in_range_iff c amount :
  in_range c amount <-> well_formed c amount /\ all_finite c amount.
Proof.
  unfold in_range, well_formed, all_finite. split.
  - intros (lo & hi & usdt & token & a & -> & -> & -> & -> & ->
            & H1 & H2 & H3 & H4 & H5 & H6 & H7).
    simpl. split; [| do 5 eexists; repeat split].
    repeat split; auto;
      first [ apply Qlt_bool_false_iff; lra
            | destruct (Qle_bool _ _) eqn:E; [| reflexivity];
              apply Qle_bool_iff in E; lra ].
  - intros [(P1 & P2 & I1 & I2 & B1 & B2 & Am)
              (lo & hi & usdt & token & a & E1 & E2 & E3 & E4 & E5)].
    rewrite E1, E2, E3, E4, E5 in *. simpl in *.
    exists lo, hi, usdt, token, a.
    apply Qlt_bool_false_iff in P2, B1, B2.
    assert (L1 : (0 < lo)%Q).
    { destruct (Qlt_le_dec 0 lo) as [L | L]; [exact L |].
      apply Qle_bool_iff in L. congruence. }
    assert (L2 : (0 < a)%Q).
    { destruct (Qlt_le_dec 0 a) as [L | L]; [exact L |].
      apply Qle_bool_iff in L. congruence. }
    repeat split; auto.
Qed.

Lemma sound_interval a b :
  (Z.min a b <? 5)%Z = false ->
  Keeps sound (write_config (with_interval (Z.min a b) (Z.max a b))).
Proof.
  intros E d (P1 & P2 & I1 & I2 & B1 & B2 & Am). apply Z.ltb_ge in E.
  assert (L : (Z.min a b <= Z.max a b)%Z) by lia.
  set (lo := Z.min a b) in *. set (hi := Z.max a b) in *.
  simpl. repeat split; auto.
Qed.

Lemma sound_price a b :
  fl_leb (fl_min a b) (Finite 0) = false ->
  Keeps sound (write_config (with_price (fl_min a b) (fl_max a b))).
Proof.
  intros E d (P1 & P2 & I1 & I2 & B1 & B2 & Am).
  pose proof (fl_max_min_ordered a b) as L.
  set (lo := fl_min a b) in *. set (hi := fl_max a b) in *.
  simpl. repeat split; auto.
Qed.

Lemma sound_amount amount :
  fl_leb amount (Finite 0) = false ->
  Keeps sound (h_modify (set_amount_usdt amount)).
Proof.
  intros E d (P1 & P2 & I1 & I2 & B1 & B2 & Am).
  simpl. repeat split; auto.
Qed.

Lemma sound_min_usdt v :
  fl_ltb v (Finite 0) = false -> Keeps sound (write_config (with_min_usdt v)).
Proof.
  intros E d (P1 & P2 & I1 & I2 & B1 & B2 & Am).
  simpl. repeat split; auto.
Qed.

Lemma sound_min_token v :
  fl_ltb v (Finite 0) = false -> Keeps sound (write_config (with_min_token v)).
Proof.
  intros E d (P1 & P2 & I1 & I2 & B1 & B2 & Am).
  simpl. repeat split; auto.
Qed.

Lemma finite_interval lo hi : Keeps finite (write_config (with_interval lo hi)).
Proof. intros d F. exact F. Qed.

Lemma finite_price a b :
  (exists x, a = Finite x) -> (exists y, b = Finite y) ->
  Keeps finite (write_config (with_price (fl_min a b) (fl_max a b))).
Proof.
  intros [x ->] [y ->] d (lo & hi & usdt & token & am & _ & _ & E3 & E4 & E5).
  destruct (fl_min_max_finite x y) as (lo' & hi' & El & Eh).
  exists lo', hi', usdt, token, am. simpl. rewrite El, Eh. auto.
Qed.

Lemma finite_amount amount :
  (exists x, amount = Finite x) ->
  Keeps finite (h_modify (set_amount_usdt amount)).
Proof.
  intros [x ->] d (lo & hi & usdt & token & am & E1 & E2 & E3 & E4 & _).
  exists lo, hi, usdt, token, x. simpl. auto.
Qed.

Lemma finite_min_usdt v :
  (exists x, v = Finite x) -> Keeps finite (write_config (with_min_usdt v)).
Proof.
  intros [x ->] d (lo & hi & usdt & token & am & E1 & E2 & _ & E4 & E5).
  exists lo, hi, x, token, am. simpl. auto.
Qed.

Lemma finite_min_token v :
  (exists x, v = Finite x) -> Keeps finite (write_config (with_min_token v)).
Proof.
  intros [x ->] d (lo & hi & usdt & token & am & E1 & E2 & E3 & _ & E5).
  exists lo, hi, usdt, x, am. simpl. auto.
Qed.

Section WellFormed.
Variable ADMIN_USERS : list UserRef.
Variable AUTHORIZED_USERS : list UserRef.
Variable lower : string -> string.
Variable isdigit : string -> bool.
Variable int_of_str : string -> Res Z.
Variable visit : gset Z -> list Z.
Variable split : string -> list string.
Variable float_of_str : string -> Res PyFloat.

Lemma untouched_is_admin message :
  Keeps guarded (_is_admin ADMIN_USERS lower isdigit int_of_str message).
Proof.
  unfold _is_admin.
  keeps_with guarded_refl guarded_trans ltac:(simple apply guarded_reply).
Qed.

Lemma sound_tell_others message t : Keeps sound (tell_others visit message t).
Proof.
  unfold tell_others.
  keeps_with sound_refl sound_trans
    ltac:(simple apply untouched_sound; simple apply untouched_send_each).
Qed.

Lemma finite_tell_others message t : Keeps finite (tell_others visit message t).
Proof.
  unfold tell_others.
  keeps_with finite_refl finite_trans
    ltac:(simple apply untouched_finite; simple apply untouched_send_each).
Qed.

Ltac sound_tac :=
  keeps_with_eqn sound_refl sound_trans
    ltac:(first
            [ simple apply guarded_sound;
              first [ simple apply guarded_reply
                    | simple apply guarded_is_authorized
                    | simple apply untouched_is_admin ]
            | simple apply sound_tell_others
            | simple apply sound_interval; assumption
            | simple apply sound_price; assumption
            | simple apply sound_amount; assumption
            | simple apply sound_min_usdt; assumption
            | simple apply sound_min_token; assumption ]).

Ltac finite_tac Hfin :=
  cbv zeta;
  repeat first
    [ assumption
    | lazymatch goal with
      | |- Keeps _ (h_ret _) => apply (keeps_ret _ finite_refl)
      | |- Keeps _ (h_raise _) => apply (keeps_raise _ finite_refl)
      | |- Keeps _ (h_bind (h_lift _) _) =>
          apply (keeps_bind_lift finite _ _ finite_refl); intros ? ?
      | |- Keeps _ (h_lift _) => apply (keeps_lift _ finite_refl)
      | |- Keeps _ h_get => apply (keeps_get _ finite_refl)
      | |- Keeps _ (h_bind _ _) => apply (keeps_bind _ finite_trans); [| intros ?]
      | |- Keeps _ (h_try _ _ _) => apply (keeps_try _ finite_trans); [| intros ?]
      | |- Keeps _ (if ?b then _ else _) => destruct b eqn:?
      | |- Keeps _ (match ?x with _ => _ end) => destruct x
      end
    | solve [ first
        [ simple apply guarded_finite;
          first [ simple apply guarded_reply
                | simple apply guarded_is_authorized
                | simple apply untouched_is_admin ]
        | simple apply finite_tell_others
        | simple apply finite_interval
        | simple apply finite_price; eapply Hfin; eassumption
        | simple apply finite_amount; eapply Hfin; eassumption
        | simple apply finite_min_usdt; eapply Hfin; eassumption
        | simple apply finite_min_token; eapply Hfin; eassumption ] ] ].

(** X24: the settings commands keep the settings as their own tests
    have them.  After any of the five, from any sender and with any
    text: the test [MIN_PRICE <= 0] still fails and so does
    [MAX_PRICE < MIN_PRICE], the interval still starts at 5 seconds or
    more and is ordered, the tests [< 0] on the two floors and [<= 0] on
    the amount still fail, if that was so before.  The tests are
    comparisons of floats, which a [nan] passes: so this is not yet a
    band above 0 in order.  It is one when the settings were finite
    numbers in range before and the numbers that the message spells are
    finite: then the band still starts above 0 and is ordered, the two
    floors are not negative and the amount is above 0. *)
Theorem X24_settings_stay_well_formed :
  forall message d,
    let handlers : list (Message -> H unit) :=
      [handle_interval_setting_impl ADMIN_USERS AUTHORIZED_USERS lower isdigit
         int_of_str visit split;
       handle_price_setting_impl ADMIN_USERS AUTHORIZED_USERS lower isdigit
         int_of_str visit split float_of_str;
       handle_amount_setting_impl ADMIN_USERS AUTHORIZED_USERS lower isdigit
         int_of_str visit split float_of_str;
       handle_min_usdt_setting_impl ADMIN_USERS AUTHORIZED_USERS lower isdigit
         int_of_str visit split float_of_str;
       handle_min_token_setting_impl ADMIN_USERS AUTHORIZED_USERS lower isdigit
         int_of_str visit split float_of_str] in
    (well_formed (cfg (engine d)) (amount_usdt d) ->
     Forall (fun handler =>
               well_formed (cfg (engine (snd (handler message d))))
                           (amount_usdt (snd (handler message d))))
            handlers)
    /\ (spells_finite split float_of_str message ->
        in_range (cfg (engine d)) (amount_usdt d) ->
        Forall (fun handler =>
                  in_range (cfg (engine (snd (handler message d))))
                           (amount_usdt (snd (handler message d))))
               handlers).
Proof.
  intros message d handlers. subst handlers.
  assert (K1 : Keeps sound
                 (handle_interval_setting_impl ADMIN_USERS AUTHORIZED_USERS
                    lower isdigit int_of_str visit split message)).
  { unfold handle_interval_setting_impl, for_admin, setting. sound_tac. }
  assert (K2 : Keeps sound
                 (handle_price_setting_impl ADMIN_USERS AUTHORIZED_USERS
                    lower isdigit int_of_str visit split float_of_str message)).
  { unfold handle_price_setting_impl, for_admin, setting. sound_tac. }
  assert (K3 : Keeps sound
                 (handle_amount_setting_impl ADMIN_USERS AUTHORIZED_USERS
                    lower isdigit int_of_str visit split float_of_str message)).
  { unfold handle_amount_setting_impl, set_one, for_admin, setting. sound_tac. }
  assert (K4 : Keeps sound
                 (handle_min_usdt_setting_impl ADMIN_USERS AUTHORIZED_USERS
                    lower isdigit int_of_str visit split float_of_str message)).
  { unfold handle_min_usdt_setting_impl, set_one, for_admin, setting. sound_tac. }
  assert (K5 : Keeps sound
                 (handle_min_token_setting_impl ADMIN_USERS AUTHORIZED_USERS
                    lower isdigit int_of_str visit split float_of_str message)).
  { unfold handle_min_token_setting_impl, set_one, for_admin, setting. sound_tac. }
  split.
  - intros Hw.
    repeat (apply Forall_cons; split); try apply Forall_nil_2.
    + apply K1, Hw.
    + apply K2, Hw.
    + apply K3, Hw.
    + apply K4, Hw.
    + apply K5, Hw.
  - intros Hfin Hin. apply in_range_iff in Hin as [Hw Hf].
    assert (F1 : Keeps finite
                   (handle_interval_setting_impl ADMIN_USERS AUTHORIZED_USERS
                      lower isdigit int_of_str visit split message)).
    { unfold handle_interval_setting_impl, for_admin, setting.
      finite_tac Hfin. }
    assert (F2 : Keeps finite
                   (handle_price_setting_impl ADMIN_USERS AUTHORIZED_USERS
                      lower isdigit int_of_str visit split float_of_str message)).
    { unfold handle_price_setting_impl, for_admin, setting. finite_tac Hfin. }
    assert (F3 : Keeps finite
                   (handle_amount_setting_impl ADMIN_USERS AUTHORIZED_USERS
                      lower isdigit int_of_str visit split float_of_str message)).
    { unfold handle_amount_setting_impl, set_one, for_admin, setting.
      finite_tac Hfin. }
    assert (F4 : Keeps finite
                   (handle_min_usdt_setting_impl ADMIN_USERS AUTHORIZED_USERS
                      lower isdigit int_of_str visit split float_of_str message)).
    { unfold handle_min_usdt_setting_impl, set_one, for_admin, setting.
      finite_tac Hfin. }
    assert (F5 : Keeps finite
                   (handle_min_token_setting_impl ADMIN_USERS AUTHORIZED_USERS
                      lower isdigit int_of_str visit split float_of_str message)).
    { unfold handle_min_token_setting_impl, set_one, for_admin, setting.
      finite_tac Hfin. }
    repeat (apply Forall_cons; split); try apply Forall_nil_2;
      apply in_range_iff; split.
    + apply K1, Hw.
    + apply F1, Hf.
    + apply K2, Hw.
    + apply F2, Hf.
    + apply K3, Hw.
    + apply F3, Hf.
    + apply K4, Hw.
    + apply F4, Hf.
    + apply K5, Hw.
    + apply F5, Hf.
Qed.
End WellFormed.
Lemma default_settings_in_range :
  in_range default_config (Finite 10).
Proof.
  exists 10%Q, 12%Q, 100%Q, 500%Q, 10%Q. simpl.
  repeat split; reflexivity || lra || lia.
Qed.

Lemma X24_witness :
  let d := front_desk (fresh_client outage default_config) in
  let from_admin := fun text =>
    {| from_id := 1; from_username := None; text := text; chat_id := 1 |} in
  let not_a_number :=
    snd (handle_price_setting_impl [UserId 1] [] (fun s => s) (fun _ => true)
           (fun _ => Raise ValueError) elements
           (fun _ => ["price"; "nan"; "5"])
           (fun s => if String.eqb s "nan" then Ok NaN else Ok (Finite 5))
           (from_admin "price nan 5") d) in
  let swapped :=
    snd (handle_price_setting_impl [UserId 1] [] (fun s => s) (fun _ => true)
           (fun _ => Raise ValueError) elements
           (fun _ => ["price"; "12"; "9"])
           (fun s => if String.eqb s "12" then Ok (Finite 12) else Ok (Finite 9))
           (from_admin "price 12 9") d) in
  (well_formed (cfg (engine not_a_number)) (amount_usdt not_a_number)
   /\ MIN_PRICE (cfg (engine not_a_number)) = NaN
   /\ MAX_PRICE (cfg (engine not_a_number)) = NaN)
  /\ (in_range (cfg (engine swapped)) (amount_usdt swapped)
      /\ band (cfg (engine swapped)) 9 12).
Proof.
  intros d from_admin not_a_number swapped.
  pose proof default_settings_in_range as Hin.
  split.
  - split; [| split; reflexivity].
    destruct (X24_settings_stay_well_formed [UserId 1] [] (fun s => s)
                (fun _ => true) (fun _ => Raise ValueError) elements
                (fun _ => ["price"; "nan"; "5"])
                (fun s => if String.eqb s "nan" then Ok NaN else Ok (Finite 5))
                (from_admin "price nan 5") d) as [H _].
    apply (Forall_inv (Forall_inv_tail (H (proj1 (proj1 (in_range_iff _ _) Hin))))).
  - split; [| split; reflexivity].
    destruct (X24_settings_stay_well_formed [UserId 1] [] (fun s => s)
                (fun _ => true) (fun _ => Raise ValueError) elements
                (fun _ => ["price"; "12"; "9"])
                (fun s => if String.eqb s "12" then Ok (Finite 12) else Ok (Finite 9))
                (from_admin "price 12 9") d) as [_ H].
    refine (Forall_inv (Forall_inv_tail (H _ Hin))).
    intros i v E. simpl in E.
    destruct (String.eqb _ _); injection E as <-; eauto.
Defined.

(* ================================================================= *)
(** ** What the interval command does *)

Lemma guarded_send_each users t : Keeps guarded (send_each users t).
Proof.
  induction users as [| user users IH]; simpl; unfold quietly, send_to;
    keeps_with guarded_refl guarded_trans
      ltac:(first [ exact IH
                  | intros d; unfold telegram;
                    destruct (tg_down d (tg_calls d)); simpl;
                    repeat split;
                    [ exists []; simpl; rewrite app_nil_r;
                      split; [reflexivity | constructor]
                    | eexists; split; [reflexivity | repeat constructor] ] ]).
Qed.

Lemma guarded_tell_others visit message t :
  Keeps guarded (tell_others visit message t).
Proof.
  unfold tell_others.
  keeps_with guarded_refl guarded_trans ltac:(simple apply guarded_send_each).
Qed.

Lemma h_try_bind_ok {A B} (c : H A) (k : A -> H B) caught h d a d1 :
  c d = (Ok a, d1) ->
  h_try (h_bind c k) caught h d = h_try (k a) caught h d1.
Proof. intros E. unfold h_try, h_bind. rewrite E. reflexivity. Qed.

Lemma engine_after_try (c : H unit) caught (h : Exn -> H unit) d :
  Keeps guarded c -> (forall e, Keeps guarded (h e)) ->
  engine (snd (h_try c caught h d)) = engine d.
Proof.
  intros Kc Kh.
  exact (proj1 (keeps_try guarded guarded_trans c caught h Kc Kh d)).
Qed.

Section IntervalCommand.
Variable ADMIN_USERS : list UserRef.
Variable AUTHORIZED_USERS : list UserRef.
Variable lower : string -> string.
Variable isdigit : string -> bool.
Variable int_of_str : string -> Res Z.
Variable visit : gset Z -> list Z.
Variable split : string -> list string.

(** X25: for a sender who passes both checks, the interval command
    with two numbers sets [MIN_INTERVAL] to the smaller and
    [MAX_INTERVAL] to the larger, in whichever order they were given and
    whatever becomes of the replies, provided the smaller is 5 or more;
    otherwise it leaves the settings as they were. *)
Theorem X25_interval_command :
  forall message d d1 word a b x y,
    _is_authorized ADMIN_USERS AUTHORIZED_USERS lower message d = (Ok true, d1) ->
    _is_admin ADMIN_USERS lower isdigit int_of_str message d1 = (Ok true, d1) ->
    split (text message) = [word; a; b] ->
    int_of_str a = Ok x ->
    int_of_str b = Ok y ->
    let r := handle_interval_setting_impl ADMIN_USERS AUTHORIZED_USERS lower
               isdigit int_of_str visit split message d in
    ((5 <= Z.min x y)%Z ->
     cfg (engine (snd r))
     = with_interval (Z.min x y) (Z.max x y) (cfg (engine d)))
    /\ ((Z.min x y < 5)%Z -> cfg (engine (snd r)) = cfg (engine d)).
Proof.
  intros message d d1 word a b x y Hauth Hadmin Hs Ha Hb r. subst r.
  pose proof (at_most_admitted_is_authorized ADMIN_USERS AUTHORIZED_USERS lower
                message d) as (E1 & _).
  rewrite Hauth in E1. simpl in E1.
  unfold handle_interval_setting_impl, for_admin.
  rewrite h_bind_eq, Hauth. simpl.
  rewrite h_bind_eq, Hadmin. simpl.
  unfold setting. rewrite Hs. simpl.
  rewrite (h_try_bind_ok _ _ _ _ d1 x d1)
    by (unfold h_lift; rewrite Ha; reflexivity).
  rewrite (h_try_bind_ok _ _ _ _ d1 y d1)
    by (unfold h_lift; rewrite Hb; reflexivity).
  set (lo := Z.min x y). set (hi := Z.max x y).
  assert (Kh : forall e : Exn,
             Keeps guarded
               (if is_value_error e
                then reply_to message (TxtNotNumber CmdInterval)
                else reply_to message (TxtError e))).
  { intros e. destruct (is_value_error e); apply guarded_reply. }
  split.
  - intros Hlo.
    assert (E : (lo <? 5)%Z = false) by (apply Z.ltb_ge; exact Hlo).
    rewrite E.
    rewrite (h_try_bind_ok _ _ _ _ d1 tt
               (set_engine (set_cfg (with_interval lo hi (cfg (engine d1)))
                                    (engine d1)) d1))
      by reflexivity.
    rewrite engine_after_try.
    + simpl. rewrite E1. reflexivity.
    + keeps_with guarded_refl guarded_trans
        ltac:(first [ simple apply guarded_reply
                    | simple apply guarded_tell_others ]).
    + exact Kh.
  - intros Hlo.
    assert (E : (lo <? 5)%Z = true) by (apply Z.ltb_lt; exact Hlo).
    rewrite E.
    rewrite engine_after_try; [rewrite E1; reflexivity | apply guarded_reply | exact Kh].
Qed.
End IntervalCommand.

Lemma X25_witness :
  let message := {| from_id := 1; from_username := None;
                    text := "interval 40 20"; chat_id := 1 |} in
  let d := front_desk (fresh_client outage default_config) in
  let after :=
    snd (handle_interval_setting_impl [UserId 1] [] (fun s => s)
           (fun _ => true) (fun s => if String.eqb s "40" then Ok 40%Z else Ok 20%Z)
           elements (fun _ => ["interval"; "40"; "20"]) message d) in
  cfg (engine after) = with_interval 20 40 default_config.
Proof.
  intros message d after.
  apply (X25_interval_command [UserId 1] [] (fun s => s) (fun _ => true)
           (fun s => if String.eqb s "40" then Ok 40%Z else Ok 20%Z)
           elements (fun _ => ["interval"; "40"; "20"])
           message d
           (set_connected_users ({[1%Z]} ∪ ∅) d) "interval" "40" "20" 40%Z 20%Z).
  - reflexivity.
  - reflexivity.
  - reflexivity.
  - reflexivity.
  - reflexivity.
  - simpl. lia.
Defined.

(* ================================================================= *)
(** ** What the handlers announce *)

Section Announces.
Variable P : Out -> Prop.

Lemma announces_refl d : announces P d d.
Proof. exists []. rewrite app_nil_r. split; [reflexivity | constructor]. Qed.

Lemma announces_same_outbox d d' : outbox d' = outbox d -> announces P d d'.
Proof.
  intros E. exists []. rewrite app_nil_r. split; [exact E | constructor].
Qed.

Lemma announces_trans d d1 d2 :
  announces P d d1 -> announces P d1 d2 -> announces P d d2.
Proof.
  intros (n1 & O1 & F1) (n2 & O2 & F2).
  exists (n1 ++ n2). rewrite O2, O1, <- app_assoc.
  split; [reflexivity | apply Forall_app; auto].
Qed.

Lemma announces_telegram o : P o -> Keeps (announces P) (telegram o).
Proof.
  intros Ho d. unfold telegram. destruct (tg_down d (tg_calls d)); simpl.
  - apply announces_same_outbox. reflexivity.
  - exists [o]. split; [reflexivity | repeat constructor; exact Ho].
Qed.

Lemma announces_on_engine {A} (c : M A) : Keeps (announces P) (on_engine c).
Proof.
  intros d. unfold on_engine. destruct (c (engine d)) as [[r w] t]. simpl.
  apply announces_same_outbox. reflexivity.
Qed.

Lemma announces_modify f :
  (forall d, outbox (f d) = outbox d) -> Keeps (announces P) (h_modify f).
Proof.
  intros Hf d. unfold h_modify. simpl. apply announces_same_outbox, Hf.
Qed.
End Announces.

(** Closes [Keeps (announces P) c] by the structure of [c], for the
    messages that [P] allows. *)
Ltac announces_tac P tac :=
  keeps_with (announces_refl P) (announces_trans P)
    ltac:(first
            [ simple apply announces_on_engine
            | unfold reply_to, send_to; simple apply announces_telegram;
              simpl; first [ exact I | congruence | tauto ]
            | simple apply announces_modify; intros ?; reflexivity
            | tac ]).

Section AnnouncesAuth.
Variable P : Out -> Prop.
Hypothesis P_reply : forall m t,
  match t with
  | TxtStatus _ | TxtConfirm _ | TxtStopped _ => True
  | _ => P (Reply m t)
  end.
Hypothesis P_send : forall u t,
  match t with
  | TxtStatus _ | TxtConfirm _ | TxtStopped _ => True
  | _ => P (Send u t)
  end.
Variable ADMIN_USERS : list UserRef.
Variable AUTHORIZED_USERS : list UserRef.
Variable lower : string -> string.
Variable isdigit : string -> bool.
Variable int_of_str : string -> Res Z.
Variable visit : gset Z -> list Z.

Lemma announces_plain_reply m t :
  match t with
  | TxtStatus _ | TxtConfirm _ | TxtStopped _ => False
  | _ => True
  end ->
  Keeps (announces P) (reply_to m t).
Proof.
  intros Ht. apply announces_telegram.
  pose proof (P_reply m t) as Hp. destruct t; try exact Hp; contradiction.
Qed.

Lemma announces_plain_send u t :
  match t with
  | TxtStatus _ | TxtConfirm _ | TxtStopped _ => False
  | _ => True
  end ->
  Keeps (announces P) (send_to u t).
Proof.
  intros Ht. apply announces_telegram.
  pose proof (P_send u t) as Hp. destruct t; try exact Hp; contradiction.
Qed.

Lemma announces_connect message : Keeps (announces P) (connect message).
Proof.
  intros d. rewrite connect_eq.
  destruct ((size (connected_users d) <? 6)%nat
            || bool_decide (from_id message ∈ connected_users d)); simpl.
  - apply announces_same_outbox. reflexivity.
  - apply announces_plain_reply. exact I.
Qed.

Lemma announces_look_up entries message otherwise :
  Keeps (announces P) otherwise ->
  Keeps (announces P) (look_up lower entries message otherwise).
Proof.
  intros Ho. induction entries as [| [id | name] entries IH]; simpl.
  - exact Ho.
  - destruct (id =? from_id message)%Z; [apply announces_connect | exact IH].
  - keeps_with (announces_refl P) (announces_trans P)
      ltac:(first [ simple apply announces_connect | exact IH ]).
Qed.

Lemma announces_is_authorized message :
  Keeps (announces P) (_is_authorized ADMIN_USERS AUTHORIZED_USERS lower message).
Proof.
  unfold _is_authorized.
  apply (keeps_try _ (announces_trans P)).
  - apply announces_look_up, announces_look_up.
    keeps_with (announces_refl P) (announces_trans P)
      ltac:(simple apply announces_plain_reply; exact I).
  - intros e.
    keeps_with (announces_refl P) (announces_trans P)
      ltac:(simple apply announces_plain_reply; exact I).
Qed.

Lemma announces_is_admin message :
  Keeps (announces P) (_is_admin ADMIN_USERS lower isdigit int_of_str message).
Proof.
  unfold _is_admin.
  keeps_with (announces_refl P) (announces_trans P)
    ltac:(simple apply announces_plain_reply; exact I).
Qed.

Lemma announces_send_each users t :
  match t with
  | TxtStatus _ | TxtConfirm _ | TxtStopped _ => False
  | _ => True
  end ->
  Keeps (announces P) (send_each users t).
Proof.
  intros Ht. induction users as [| user users IH]; simpl; unfold quietly;
    keeps_with (announces_refl P) (announces_trans P)
      ltac:(first [ exact IH | simple apply announces_plain_send; exact Ht ]).
Qed.
End AnnouncesAuth.

(* ================================================================= *)
(** ** The status command and the start command *)

(** [get_status] raises at the lookup of [config.TRADE_AMOUNT], whatever
    became of the balances. *)
Lemma get_status_raises w : result (get_status w) = Raise AttributeError.
Proof.
  unfold get_status, TRADE_AMOUNT, raise, bind, attempt, get_world, ret.
  destruct (get_specific_balance QUOTE_CURRENCY w) as [[[usdt | e] w1] t1]; simpl.
  - destruct (get_specific_balance TOKEN_NAME w1) as [[[token | e] w2] t2];
      reflexivity.
  - reflexivity.
Qed.

Lemma on_engine_eq {A} (c : M A) d :
  on_engine c d
  = (result (c (engine d)),
     mkDesk (connected_users d) (final (c (engine d)))
            (engine_log d ++ events (c (engine d))) (amount_usdt d)
            (outbox d) (tg_down d) (tg_calls d)).
Proof. unfold on_engine. destruct (c (engine d)) as [[r w] t]. reflexivity. Qed.

Lemma not_went_through_reply m t :
  match t with
  | TxtStatus _ | TxtConfirm _ | TxtStopped _ => True
  | _ => ~ went_through (Reply m t)
  end.
Proof. destruct t; simpl; tauto. Qed.

Lemma not_went_through_send u t :
  match t with
  | TxtStatus _ | TxtConfirm _ | TxtStopped _ => True
  | _ => ~ went_through (Send u t)
  end.
Proof. destruct t; simpl; tauto. Qed.

Section StatusAndStart.
Variable ADMIN_USERS : list UserRef.
Variable AUTHORIZED_USERS : list UserRef.
Variable lower : string -> string.
Variable isdigit : string -> bool.
Variable int_of_str : string -> Res Z.

Let handle_555 := handle_555_impl ADMIN_USERS AUTHORIZED_USERS lower.
Let handle_777 :=
  handle_777_impl ADMIN_USERS AUTHORIZED_USERS lower isdigit int_of_str.
Let asked := on_engine get_status.

(** The [try] block of the status command ends in the [AttributeError]
    of [get_status]. *)
Lemma status_text_raises message d :
  h_try
    (do* status := asked in
     do* _ := h_lift (py_item status "running") in
     do* settings := h_lift (dict_get status "settings" (JObj [])) in
     do* shown :=
       h_lift (read_items
                 [(status, "quote_currency"); (status, "usdt_balance");
                  (status, "token_name"); (status, "token_balance");
                  (settings, "min_interval"); (settings, "max_interval");
                  (settings, "min_price"); (settings, "max_price");
                  (settings, "trade_amount_usdt"); (status, "quote_currency");
                  (settings, "min_usdt_balance"); (status, "quote_currency");
                  (settings, "min_token_balance"); (status, "token_name");
                  (status, "trade_count"); (status, "total_volume");
                  (status, "token_name"); (status, "last_trade_time")]) in
     reply_to message (TxtStatus shown))
    any_exception
    (fun e => reply_to message (TxtStatusError e)) d
  = reply_to message (TxtStatusError AttributeError) (snd (asked d)).
Proof.
  rewrite h_try_eq, h_bind_eq. unfold asked. rewrite on_engine_eq.
  rewrite (get_status_raises (engine d)). reflexivity.
Qed.

(** The [try] block of the start command on a stopped bot ends in the
    [AttributeError] of [get_status]. *)
Lemma confirmation_text_raises message d :
  running (engine d) = false ->
  h_try
    (do* d0 := h_get in
     if running (engine d0) then reply_to message TxtAlreadyRunning
     else
       do* status := asked in
       do* settings := h_lift (dict_get status "settings" (JObj [])) in
       do* shown :=
         h_lift (read_items
                   [(settings, "min_interval"); (settings, "max_interval");
                    (settings, "min_price"); (settings, "max_price");
                    (settings, "trade_amount_usdt");
                    (settings, "min_usdt_balance");
                    (settings, "min_token_balance")]) in
       reply_to message (TxtConfirm shown);;;
       note (NextStep message))
    any_exception
    (fun e => reply_to message (TxtError e)) d
  = reply_to message (TxtError AttributeError) (snd (asked d)).
Proof.
  intros Hr.
  rewrite h_try_eq, h_bind_eq. unfold h_get at 1 2. simpl. rewrite Hr.
  rewrite h_bind_eq. unfold asked. rewrite on_engine_eq.
  rewrite (get_status_raises (engine d)). reflexivity.
Qed.

Lemma start_command_when_running message d :
  running (engine d) = true ->
  h_try
    (do* d0 := h_get in
     if running (engine d0) then reply_to message TxtAlreadyRunning
     else
       do* status := asked in
       do* settings := h_lift (dict_get status "settings" (JObj [])) in
       do* shown :=
         h_lift (read_items
                   [(settings, "min_interval"); (settings, "max_interval");
                    (settings, "min_price"); (settings, "max_price");
                    (settings, "trade_amount_usdt");
                    (settings, "min_usdt_balance");
                    (settings, "min_token_balance")]) in
       reply_to message (TxtConfirm shown);;;
       note (NextStep message))
    any_exception
    (fun e => reply_to message (TxtError e)) d
  = h_try (reply_to message TxtAlreadyRunning) any_exception
      (fun e => reply_to message (TxtError e)) d.
Proof.
  intros Hr. unfold h_try, h_bind, h_get. simpl. rewrite Hr. reflexivity.
Qed.

(** X26: the status command never sends the status and the start
    command never asks for the confirmation nor registers the handler
    of its answer.  [get_status] raises [AttributeError] at the lookup
    of [config.TRADE_AMOUNT], after the balances were read and before
    there is a dict to return; so for a sender who passes the checks the
    status command ends in its reply for that error, and so does the
    start command on a stopped bot. *)
Theorem X26_status_and_start_commands_do_not_go_through :
  forall message d,
    (forall w, result (get_status w) = Raise AttributeError)
    /\ announces (fun o => ~ went_through o) d (snd (handle_555 message d))
    /\ announces (fun o => ~ went_through o) d (snd (handle_777 message d))
    /\ (forall d1,
          _is_authorized ADMIN_USERS AUTHORIZED_USERS lower message d
          = (Ok true, d1) ->
          handle_555 message d
          = reply_to message (TxtStatusError AttributeError) (snd (asked d1)))
    /\ (forall d1 d2,
          _is_authorized ADMIN_USERS AUTHORIZED_USERS lower message d
          = (Ok true, d1) ->
          _is_admin ADMIN_USERS lower isdigit int_of_str message d1
          = (Ok true, d2) ->
          running (engine d2) = false ->
          handle_777 message d
          = reply_to message (TxtError AttributeError) (snd (asked d2))).
Proof.
  intros message d.
  set (P := fun o => ~ went_through o).
  assert (Hasked : forall d0, announces P d0 (snd (asked d0))).
  { intros d0. apply (announces_on_engine P _ d0). }
  assert (Hreply : forall t,
             match t with
             | TxtStatus _ | TxtConfirm _ | TxtStopped _ => False
             | _ => True
             end ->
             Keeps (announces P) (reply_to message t)).
  { intros t Ht.
    exact (announces_plain_reply P not_went_through_reply message t Ht). }
  assert (H555 : forall d1,
             _is_authorized ADMIN_USERS AUTHORIZED_USERS lower message d
             = (Ok true, d1) ->
             handle_555 message d
             = reply_to message (TxtStatusError AttributeError) (snd (asked d1))).
  { intros d1 Ha. unfold handle_555, handle_555_impl.
    rewrite h_bind_eq, Ha. simpl. apply status_text_raises. }
  assert (H777 : forall d1 d2,
             _is_authorized ADMIN_USERS AUTHORIZED_USERS lower message d
             = (Ok true, d1) ->
             _is_admin ADMIN_USERS lower isdigit int_of_str message d1
             = (Ok true, d2) ->
             running (engine d2) = false ->
             handle_777 message d
             = reply_to message (TxtError AttributeError) (snd (asked d2))).
  { intros d1 d2 Ha Hb Hr. unfold handle_777, handle_777_impl, for_admin.
    rewrite h_bind_eq, Ha. simpl. rewrite h_bind_eq, Hb. simpl.
    apply confirmation_text_raises. exact Hr. }
  pose proof (announces_is_authorized P not_went_through_reply ADMIN_USERS
                AUTHORIZED_USERS lower message d) as G1.
  split; [exact get_status_raises |].
  split; [| split; [| split; [exact H555 | exact H777]]].
  - destruct (_is_authorized ADMIN_USERS AUTHORIZED_USERS lower message d)
      as [[[] | e] d1] eqn:Ha.
    + rewrite (H555 d1 eq_refl).
      eapply announces_trans; [exact G1 |].
      eapply announces_trans; [apply Hasked |].
      apply Hreply. exact I.
    + unfold handle_555, handle_555_impl. rewrite h_bind_eq, Ha. exact G1.
    + unfold handle_555, handle_555_impl. rewrite h_bind_eq, Ha. exact G1.
  - destruct (_is_authorized ADMIN_USERS AUTHORIZED_USERS lower message d)
      as [[[] | e] d1] eqn:Ha.
    2, 3: unfold handle_777, handle_777_impl, for_admin;
      rewrite h_bind_eq, Ha; exact G1.
    pose proof (announces_is_admin P not_went_through_reply ADMIN_USERS lower
                  isdigit int_of_str message d1) as G2.
    destruct (_is_admin ADMIN_USERS lower isdigit int_of_str message d1)
      as [[[] | e] d2] eqn:Hb.
    2, 3: unfold handle_777, handle_777_impl, for_admin;
      rewrite h_bind_eq, Ha; simpl; rewrite h_bind_eq, Hb; simpl;
      eapply announces_trans; [exact G1 | exact G2].
    simpl in G1, G2.
    destruct (running (engine d2)) eqn:Hr.
    + replace (handle_777 message d)
        with (h_try (reply_to message TxtAlreadyRunning) any_exception
                (fun e => reply_to message (TxtError e)) d2)
        by (unfold handle_777, handle_777_impl, for_admin;
            rewrite h_bind_eq, Ha; simpl; rewrite h_bind_eq, Hb; simpl;
            symmetry; apply start_command_when_running; exact Hr).
      eapply announces_trans; [exact G1 |].
      eapply announces_trans; [exact G2 |].
      apply (keeps_try _ (announces_trans P)).
      * apply Hreply. exact I.
      * intros e. apply Hreply. exact I.
    + rewrite (H777 d1 d2 eq_refl Hb Hr).
      eapply announces_trans; [exact G1 |].
      eapply announces_trans; [exact G2 |].
      eapply announces_trans; [apply Hasked |].
      apply Hreply. exact I.
Qed.
End StatusAndStart.

Lemma X26_witness :
  let message := {| from_id := 1; from_username := None;
                    text := "555"; chat_id := 1 |} in
  let d := front_desk (fresh_client outage default_config) in
  outbox (snd (handle_555_impl [UserId 1] [] (fun s => s) message d))
  = [Reply message (TxtStatusError AttributeError)].
Proof.
  intros message d.
  destruct (X26_status_and_start_commands_do_not_go_through
              [UserId 1] [] (fun s => s) (fun _ => true)
              (fun _ => Raise ValueError) message d)
    as (_ & _ & _ & H555 & _).
  rewrite (H555 (set_connected_users ({[1%Z]} ∪ ∅) d) eq_refl).
  reflexivity.
Defined.

(* ================================================================= *)
(** ** The emergency stop *)

Lemma not_says_was_stopped_reply m t :
  match t with
  | TxtStatus _ | TxtConfirm _ | TxtStopped _ => True
  | _ => ~ says_was_stopped (Reply m t)
  end.
Proof. destruct t; simpl; tauto. Qed.

Lemma emergency_stop_run message (h : Exn -> H unit) d :
  h_try
    (do* d0 := h_get in
     let was_running := running (engine d0) in
     do* result := on_engine stop in
     if result then
       reply_to message (TxtStopped was_running);;;
       send_to (chat_id message) TxtCaution
     else reply_to message TxtStopFailed)
    any_exception h d
  = if running (engine d)
    then h_try (reply_to message (TxtStopped true);;;
                send_to (chat_id message) TxtCaution)
           any_exception h (snd (on_engine stop d))
    else h_try (reply_to message TxtStopFailed) any_exception h d.
Proof.
  unfold h_try, h_bind, h_get. simpl. rewrite on_engine_eq.
  destruct (running (engine d)) eqn:Hr.
  - destruct (stop_when_running _ Hr) as (R & _). rewrite R. reflexivity.
  - rewrite (stop_when_stopped _ Hr). simpl. rewrite app_nil_r.
    destruct d; reflexivity.
Qed.

Section EmergencyStop.
Variable ADMIN_USERS : list UserRef.
Variable lower : string -> string.
Variable isdigit : string -> bool.
Variable int_of_str : string -> Res Z.

Let handle_000 := handle_000_impl ADMIN_USERS lower isdigit int_of_str.

(** X27: after the emergency stop of an administrator the bot is
    stopped: a running bot went through [stop()], once; a stopped bot is
    left as it was and the administrator is told that the stop failed.
    No sender is ever told that the bot was stopped already. *)
Theorem X27_emergency_stop :
  forall message d,
    announces (fun o => ~ says_was_stopped o) d (snd (handle_000 message d))
    /\ (forall d1,
          _is_admin ADMIN_USERS lower isdigit int_of_str message d
          = (Ok true, d1) ->
          let d' := snd (handle_000 message d) in
          running (engine d') = false
          /\ engine d' = final (stop (engine d1))
          /\ engine_log d' = engine_log d1 ++ events (stop (engine d1))
          /\ (running (engine d1) = false ->
              engine d' = engine d1
              /\ announces
                   (fun o => o = Reply message TxtStopFailed
                             \/ o = Reply message (TxtError RequestException))
                   d1 d')).
Proof.
  intros message d.
  set (P := fun o => ~ says_was_stopped o).
  pose proof (announces_is_admin P not_says_was_stopped_reply ADMIN_USERS lower
                isdigit int_of_str message d) as G1.
  assert (Hh : forall e, Keeps guarded (reply_to message (TxtError e)))
    by (intros e; apply guarded_reply).
  assert (Hrun : Keeps guarded
                   (reply_to message (TxtStopped true);;;
                    send_to (chat_id message) TxtCaution)).
  { keeps_with guarded_refl guarded_trans
      ltac:(first [ simple apply guarded_reply
                  | unfold send_to; intros d0; unfold telegram;
                    destruct (tg_down d0 (tg_calls d0)); simpl; repeat split;
                    [ exists []; simpl; rewrite app_nil_r;
                      split; [reflexivity | constructor]
                    | eexists; split; [reflexivity | repeat constructor] ] ]). }
  subst P. split.
  - unfold handle_000, handle_000_impl. rewrite h_bind_eq.
    destruct (_is_admin ADMIN_USERS lower isdigit int_of_str message d)
      as [[[] | e] d1]; simpl in *; try exact G1.
    rewrite emergency_stop_run.
    eapply announces_trans; [exact G1 |].
    destruct (running (engine d1)).
    + eapply announces_trans; [apply (announces_on_engine _ stop d1) |].
      apply (keeps_try _ (announces_trans _)).
      * announces_tac (fun o => ~ says_was_stopped o) idtac.
      * intros e. announces_tac (fun o => ~ says_was_stopped o) idtac.
    + apply (keeps_try _ (announces_trans _)).
      * announces_tac (fun o => ~ says_was_stopped o) idtac.
      * intros e. announces_tac (fun o => ~ says_was_stopped o) idtac.
  - intros d1 Ha d'. subst d'.
    unfold handle_000, handle_000_impl. rewrite h_bind_eq, Ha. simpl.
    rewrite emergency_stop_run.
    destruct (running (engine d1)) eqn:Hr.
    + pose proof (keeps_try guarded guarded_trans _ any_exception _ Hrun Hh
                    (snd (on_engine stop d1))) as (E1 & E2 & _).
      rewrite E1, E2, on_engine_eq. simpl.
      destruct (stop_when_running _ Hr) as (_ & R & _).
      split; [exact R |].
      split; [reflexivity |].
      split; [reflexivity |].
      intros Hs. congruence.
    + pose proof (keeps_try guarded guarded_trans _ any_exception _
                    (guarded_reply message TxtStopFailed) Hh d1) as (E1 & E2 & _).
      rewrite E1, E2, (stop_when_stopped _ Hr). simpl. rewrite app_nil_r.
      split; [exact Hr |].
      split; [reflexivity |].
      split; [reflexivity |].
      intros _. split; [reflexivity |].
      unfold h_try, reply_to, telegram.
      destruct (tg_down d1 (tg_calls d1)); simpl.
      * destruct (tg_down d1 (S (tg_calls d1))); simpl.
        -- apply announces_same_outbox. reflexivity.
        -- exists [Reply message (TxtError RequestException)].
           split; [reflexivity | repeat constructor; right; reflexivity].
      * exists [Reply message TxtStopFailed].
        split; [reflexivity | repeat constructor; left; reflexivity].
Qed.
End EmergencyStop.

Lemma X27_witness :
  let message := {| from_id := 1; from_username := None;
                    text := "000"; chat_id := 1 |} in
  let d := front_desk (fresh_client outage default_config) in
  let d' := snd (handle_000_impl [UserId 1] (fun s => s) (fun _ => true)
                   (fun _ => Raise ValueError) message d) in
  running (engine d') = false
  /\ outbox d' = [Reply message TxtStopFailed].
Proof.
  intros message d d'.
  destruct (X27_emergency_stop [UserId 1] (fun s => s) (fun _ => true)
              (fun _ => Raise ValueError) message d) as (_ & Hadmin).
  destruct (Hadmin d eq_refl) as (Hr & _).
  split; [exact Hr | reflexivity].
Defined.

(* ================================================================= *)
(** ** The answer to the start command *)

Section StartConfirmation.
Variable ADMIN_USERS : list UserRef.
Variable AUTHORIZED_USERS : list UserRef.
Variable lower : string -> string.
Variable isdigit : string -> bool.
Variable int_of_str : string -> Res Z.
Variable visit : gset Z -> list Z.
Variable strip : string -> string.

(** X28: only the answer [1] starts the bot: with any other text, from
    any sender, the handler of the answer leaves the engine and the
    settings as they were, asks the exchange nothing and registers no
    next step; an administrator is told that the start was cancelled. *)
Theorem X28_only_the_answer_1_starts_the_bot :
  forall message d,
    strip (text message) <> "1" ->
    let d' := snd (process_start_confirmation_impl ADMIN_USERS AUTHORIZED_USERS
                     lower isdigit int_of_str visit strip message d) in
    guarded d d'
    /\ (forall d1 d2,
          _is_authorized ADMIN_USERS AUTHORIZED_USERS lower message d
          = (Ok true, d1) ->
          _is_admin ADMIN_USERS lower isdigit int_of_str message d1
          = (Ok true, d2) ->
          tg_down d2 (tg_calls d2) = false ->
          outbox d' = outbox d2 ++ [Reply message TxtCancelled]).
Proof.
  intros message d Hne d'. subst d'.
  apply String.eqb_neq in Hne.
  split.
  - revert d. change (Keeps guarded
                        (process_start_confirmation_impl ADMIN_USERS
                           AUTHORIZED_USERS lower isdigit int_of_str visit strip
                           message)).
    unfold process_start_confirmation_impl, for_admin. rewrite Hne.
    keeps_with guarded_refl guarded_trans
      ltac:(first [ simple apply guarded_reply
                  | simple apply guarded_is_authorized
                  | simple apply untouched_is_admin ]).
  - intros d1 d2 Ha Hb Hup.
    unfold process_start_confirmation_impl, for_admin.
    rewrite h_bind_eq, Ha. simpl. rewrite h_bind_eq, Hb. simpl.
    rewrite Hne. unfold h_try, reply_to, telegram. rewrite Hup. reflexivity.
Qed.
End StartConfirmation.

Lemma X28_witness :
  let message := {| from_id := 1; from_username := None;
                    text := "0"; chat_id := 1 |} in
  let d := front_desk (fresh_client outage default_config) in
  let d' := snd (process_start_confirmation_impl [UserId 1] [] (fun s => s)
                   (fun _ => true) (fun _ => Raise ValueError) elements
                   (fun s => s) message d) in
  engine d' = engine d /\ outbox d' = [Reply message TxtCancelled].
Proof.
  intros message d d'.
  destruct (X28_only_the_answer_1_starts_the_bot [UserId 1] [] (fun s => s)
              (fun _ => true) (fun _ => Raise ValueError) elements
              (fun s => s) message d ltac:(discriminate))
    as ((He & _) & Hout).
  split; [exact He |].
  exact (Hout (set_connected_users ({[1%Z]} ∪ ∅) d)
           (set_connected_users ({[1%Z]} ∪ ∅) d) eq_refl eq_refl eq_refl).
Defined.

(* ================================================================= *)
(** ** [retry_on_error] *)

Section RetryFacts.
Context {A : Type}.
Variable func : nat -> Res A.
Variable max_retries backoff delay : Z.
Hypothesis delay_ok : (0 <= delay)%Z.
Hypothesis backoff_ok : (0 <= backoff)%Z.

Let wait (k : nat) : Z := (delay * backoff ^ Z.of_nat k)%Z.

Lemma retry_loop_spec fuel :
  forall made,
    (Z.of_nat made + Z.of_nat fuel = max_retries)%Z ->
    (0 < fuel)%nat ->
    (forall k, (k < made)%nat -> exists e, func k = Raise e) ->
    match retry_loop func max_retries backoff fuel (Z.of_nat made)
            (wait made) made (map wait (seq 0 made)) with
    | (r, made', waits') =>
        (made < made')%nat
        /\ (Z.of_nat made' <= max_retries)%Z
        /\ waits' = map wait (seq 0 (pred made'))
        /\ (forall k, (S k < made')%nat -> exists e, func k = Raise e)
        /\ match r with
           | Ok None => False
           | Ok (Some a) => func (pred made') = Ok a
           | Raise e =>
               func (pred made') = Raise e /\ Z.of_nat made' = max_retries
           end
    end.
Proof.
  induction fuel as [| fuel IH]; intros made Hsum Hpos Hfail; [lia |].
  simpl.
  destruct (Z.ltb_spec (Z.of_nat made) max_retries) as [_ | Hge]; [| lia].
  destruct (func made) as [a | e] eqn:Hf.
  - simpl. repeat split; try lia; try exact Hf.
    intros k Hk. apply Hfail. lia.
  - destruct (Z.leb_spec max_retries (Z.of_nat made + 1)) as [Hlast | Hmore].
    + simpl. repeat split; try lia; try exact Hf.
      intros k Hk. apply Hfail. lia.
    + assert (Hw : (0 <= wait made)%Z).
      { unfold wait. apply Z.mul_nonneg_nonneg; [exact delay_ok |].
        apply Z.pow_nonneg. exact backoff_ok. }
      destruct (Z.ltb_spec (wait made) 0) as [Hneg | _]; [lia |].
      assert (E1 : (Z.of_nat made + 1 = Z.of_nat (S made))%Z) by lia.
      assert (E2 : (wait made * backoff = wait (S made))%Z).
      { unfold wait. rewrite Nat2Z.inj_succ, Z.pow_succ_r by lia. ring. }
      assert (E3 : map wait (seq 0 made) ++ [wait made]
                   = map wait (seq 0 (S made))).
      { rewrite seq_S, map_app. reflexivity. }
      rewrite E1, E2, E3.
      assert (Hfail' : forall k, (k < S made)%nat -> exists e0, func k = Raise e0).
      { intros k Hk. destruct (Nat.eq_dec k made) as [-> | Hne].
        - eauto.
        - apply Hfail. lia. }
      specialize (IH (S made) ltac:(lia) ltac:(lia) Hfail').
      destruct (retry_loop func max_retries backoff fuel (Z.of_nat (S made))
                  (wait (S made)) (S made) (map wait (seq 0 (S made))))
        as [[r made'] waits'].
      destruct IH as (H1 & H2 & H3 & H4 & H5).
      repeat split; try lia; assumption.
Qed.

(** The loop is over within [max_retries] turns: more fuel changes
    nothing. *)
Lemma retry_loop_fuel fuel :
  forall more retry_count current_delay made waits,
    (max_retries - retry_count <= Z.of_nat fuel)%Z ->
    retry_loop func max_retries backoff (fuel + more) retry_count
      current_delay made waits
    = retry_loop func max_retries backoff fuel retry_count current_delay
        made waits.
Proof.
  induction fuel as [| fuel IH]; intros more rc cd made waits Hle.
  - destruct more as [| more]; simpl; [reflexivity |].
    destruct (Z.ltb_spec rc max_retries); [lia | reflexivity].
  - simpl. destruct (rc <? max_retries)%Z; [| reflexivity].
    destruct (func made); [reflexivity |].
    destruct (max_retries <=? rc + 1)%Z; [reflexivity |].
    destruct (cd <? 0)%Z; [reflexivity |].
    apply IH. lia.
Qed.

(** X29: a function wrapped by [retry_on_error], with a delay and a
    multiplier that are not negative, is called at most [max_retries]
    times, until its first success, whose value is returned; when all
    [max_retries] calls failed the exception of the last one is raised.
    Between the calls the sleeps are [delay * backoff ^ k] for
    [k = 0, 1, ...].  With [max_retries] at 0 or under the function is
    not called at all and the result is [None]; otherwise the result is
    never [None] unless the function returned it.  A longer run of the
    loop gives nothing else. *)
Theorem X29_retry_on_error :
  match retry_on_error func max_retries backoff delay with
  | (r, made, waits) =>
      (Z.of_nat made <= Z.max 0 max_retries)%Z
      /\ waits = map wait (seq 0 (pred made))
      /\ (forall k, (S k < made)%nat -> exists e, func k = Raise e)
      /\ match r with
         | Ok None => (max_retries <= 0)%Z /\ made = O
         | Ok (Some a) => (0 < made)%nat /\ func (pred made) = Ok a
         | Raise e =>
             (0 < made)%nat /\ func (pred made) = Raise e
             /\ Z.of_nat made = max_retries
         end
  end
  /\ forall more,
       retry_loop func max_retries backoff (Z.to_nat max_retries + more)
         0 delay 0 []
       = retry_on_error func max_retries backoff delay.
Proof.
  split; [| intros more; apply retry_loop_fuel; lia].
  unfold retry_on_error.
  destruct (Z.to_nat max_retries) as [| fuel] eqn:Hfuel.
  - simpl. repeat split; lia.
  - pose proof (retry_loop_spec (S fuel) 0 ltac:(lia) ltac:(lia)
                  ltac:(intros k Hk; lia)) as Hspec.
    change (Z.of_nat 0) with 0%Z in Hspec. simpl (map _ (seq 0 0)) in Hspec.
    replace (wait 0) with delay in Hspec
      by (unfold wait; simpl; lia).
    destruct (retry_loop func max_retries backoff (S fuel) 0 delay 0 [])
      as [[r made] waits].
    destruct Hspec as (H1 & H2 & H3 & H4 & H5).
    split; [lia |]. split; [exact H3 |]. split; [exact H4 |].
    destruct r as [[a |] | e].
    + split; [lia | exact H5].
    + contradiction.
    + destruct H5 as [H5 H6]. split; [lia |]. split; assumption.
Qed.
End RetryFacts.

Lemma X29_witness :
  retry_on_error
    (fun k => if (k <? 2)%nat then Raise RequestException else Ok k) 5 2 1
  = (Ok (Some 2%nat), 3%nat, [1; 2]%Z).
Proof.
  pose proof (X29_retry_on_error
                (fun k => if (k <? 2)%nat then Raise RequestException else Ok k)
                5 2 1 ltac:(lia) ltac:(lia)) as [_ Hfuel].
  rewrite <- (Hfuel 0%nat). reflexivity.
Defined.

(* ================================================================= *)
(** ** [chunks] *)

Lemma range_up_stops fuel start stop step :
  (stop <= start)%Z -> range_up fuel start stop step = [].
Proof.
  intros Hle. destruct fuel as [| fuel]; simpl; [reflexivity |].
  destruct (Z.ltb_spec start stop); [lia | reflexivity].
Qed.

(** The [k]-th element of a range. *)
Lemma range_up_nth fuel :
  forall start stop step k j,
    nth_error (range_up fuel start stop step) k = Some j ->
    (j = start + Z.of_nat k * step)%Z /\ (j < stop)%Z.
Proof.
  induction fuel as [| fuel IH]; intros start stop step k j Hk; simpl in Hk.
  - destruct k; discriminate Hk.
  - destruct (Z.ltb_spec start stop) as [Hlt | _];
      [| destruct k; discriminate Hk].
    destruct k as [| k]; simpl in Hk.
    + injection Hk as <-. lia.
    + apply IH in Hk as [-> Hj]. lia.
Qed.

Lemma py_slice_chunk {A} (lst : list A) (i n : Z) :
  (0 <= i)%Z -> (0 < n)%Z ->
  py_slice lst i (i + n)
  = firstn (Z.to_nat n) (skipn (Z.to_nat i) lst).
Proof.
  intros Hi Hn. unfold py_slice, slice_bound.
  destruct (Z.ltb_spec i 0) as [Hneg | _]; [lia |].
  destruct (Z.ltb_spec (i + n) 0) as [Hneg | _]; [lia |].
  set (len := Z.of_nat (length lst)).
  assert (Hlen : length (skipn (Z.to_nat i) lst)
                 = (length lst - Z.to_nat i)%nat) by apply length_skipn.
  destruct (Z.le_gt_cases len i) as [Hout | Hin].
  - rewrite Z.min_r by lia. rewrite !skipn_all2 by lia.
    rewrite !firstn_nil. reflexivity.
  - rewrite (Z.min_l i len) by lia.
    destruct (Z.le_gt_cases (i + n) len) as [Hfull | Hshort].
    + rewrite Z.min_l by lia. f_equal. lia.
    + rewrite Z.min_r by lia.
      rewrite !firstn_all2 by lia. reflexivity.
Qed.

Lemma chunks_concat_from {A} (lst : list A) (n : Z) fuel :
  forall i,
    (0 < n)%Z -> (0 <= i <= Z.of_nat (length lst))%Z ->
    (Z.of_nat (length lst) - i <= Z.of_nat fuel)%Z ->
    concat (map (fun j => py_slice lst j (j + n))
                (range_up fuel i (Z.of_nat (length lst)) n))
    = skipn (Z.to_nat i) lst.
Proof.
  induction fuel as [| fuel IH]; intros i Hn Hi Hfuel; simpl.
  - rewrite skipn_all2 by lia. reflexivity.
  - destruct (Z.ltb_spec i (Z.of_nat (length lst))) as [Hlt | Hge].
    + simpl. rewrite py_slice_chunk by lia.
      destruct (Z.le_gt_cases (i + n) (Z.of_nat (length lst))) as [Hfull | Hshort].
      * rewrite IH by lia.
        replace (Z.to_nat (i + n)) with (Z.to_nat n + Z.to_nat i)%nat by lia.
        rewrite <- skipn_skipn. apply firstn_skipn.
      * rewrite range_up_stops by lia. simpl. rewrite app_nil_r.
        apply firstn_all2. rewrite length_skipn. lia.
    + simpl. rewrite skipn_all2 by lia. reflexivity.
Qed.

(** X30: [chunks(lst, n)] with [n] above 0 cuts the list into pieces
    that put together give the list back; no piece is empty, every
    piece before the last has exactly [n] items and the last has [n] at
    most.  With [n] at 0 the [range] raises [ValueError], and with [n]
    under 0 nothing is yielded, whatever the list holds. *)
Theorem X30_chunks_cut_the_list :
  forall (A : Type) (lst : list A) (n : Z),
    ((0 < n)%Z ->
     exists pieces,
       chunks lst n = Ok pieces
       /\ concat pieces = lst
       /\ Forall (fun piece => (1 <= length piece)%nat
                               /\ (Z.of_nat (length piece) <= n)%Z) pieces
       /\ forall k piece,
            (S k < length pieces)%nat ->
            nth_error pieces k = Some piece ->
            Z.of_nat (length piece) = n)
    /\ (n = 0%Z -> chunks lst n = Raise ValueError)
    /\ ((n < 0)%Z -> chunks lst n = Ok []).
Proof.
  intros A lst n. set (len := Z.of_nat (length lst)).
  split; [| split].
  - intros Hn. unfold chunks, py_range.
    destruct (Z.eqb_spec n 0) as [E | _]; [lia |].
    destruct (Z.ltb_spec 0 n) as [_ | Hle]; [| lia].
    rewrite Z.sub_0_r. fold len.
    set (starts := range_up (Z.to_nat len) 0 len n).
    assert (Hstart : forall k j,
               nth_error starts k = Some j ->
               (j = Z.of_nat k * n)%Z /\ (0 <= j < len)%Z).
    { intros k j Hk. apply range_up_nth in Hk as [-> Hj]. nia. }
    assert (Hpiece : forall j,
               (0 <= j < len)%Z ->
               length (py_slice lst j (j + n))
               = Nat.min (Z.to_nat n) (length lst - Z.to_nat j)).
    { intros j Hj. rewrite py_slice_chunk by lia.
      rewrite length_firstn, length_skipn. reflexivity. }
    eexists. split; [reflexivity |].
    split; [| split].
    + unfold starts, len. rewrite chunks_concat_from by lia. reflexivity.
    + apply List.Forall_forall. intros piece Hin.
      apply in_map_iff in Hin as (j & <- & Hj).
      apply In_nth_error in Hj as [k Hk].
      apply Hstart in Hk as [_ Hj].
      rewrite Hpiece by exact Hj. unfold len in Hj. lia.
    + intros k piece Hk Hp.
      rewrite length_map in Hk.
      rewrite nth_error_map in Hp.
      destruct (nth_error starts k) as [j |] eqn:Hj; [| discriminate Hp].
      injection Hp as <-.
      destruct (nth_error starts (S k)) as [j' |] eqn:Hj';
        [| apply nth_error_None in Hj'; lia].
      apply Hstart in Hj as [Ej Hj]. apply Hstart in Hj' as [Ej' Hj'].
      rewrite Hpiece by exact Hj. unfold len in *. lia.
  - intros ->. reflexivity.
  - intros Hn. unfold chunks, py_range.
    destruct (Z.eqb_spec n 0) as [E | _]; [lia |].
    destruct (Z.ltb_spec 0 n) as [Hpos | _]; [lia |].
    replace (Z.to_nat (0 - Z.of_nat (length lst))) with O by lia.
    reflexivity.
Qed.
